(** * Unified agent messaging (convex/messaging.ts) and the legacy
      direct-message module (convex/agentMessaging.ts)

    A shallow embedding of the Convex mutations and queries of the two
    modules, over an explicit store, followed by the properties of the
    messaging core: mention parsing, notification fan-out, unread
    aggregation, read-state transitions and the legacy/unified seam.

    Conventions of the embedding.
    - A JavaScript string is a [string] (a sequence of code units);
      [toLowerCase] and [toUpperCase] act on the ASCII letters and leave
      every other unit unchanged.
    - A Convex table is the list of its documents in insertion order;
      document ids are natural numbers drawn from one counter of the store.
    - [Date.now()] is an argument [now] of every mutation.
    - A handler that throws returns [Err]; the store is then unchanged,
      as a Convex mutation is a transaction. *)

From Stdlib Require Import List String Ascii Bool Arith ZArith Lia.
From Stdlib Require Import DecimalString Permutation Sorted.
Import ListNotations.
Open Scope string_scope.

(* ================================================================= *)
(** ** JavaScript string primitives *)

Module JsString.

Definition is_upper (c : ascii) : bool :=
  let n := nat_of_ascii c in ((65 <=? n) && (n <=? 90))%nat.

Definition is_lower (c : ascii) : bool :=
  let n := nat_of_ascii c in ((97 <=? n) && (n <=? 122))%nat.

Definition lower_char (c : ascii) : ascii :=
  if is_upper c then ascii_of_nat (nat_of_ascii c + 32) else c.

Definition upper_char (c : ascii) : ascii :=
  if is_lower c then ascii_of_nat (nat_of_ascii c - 32) else c.

Fixpoint map_chars (f : ascii -> ascii) (s : string) : string :=
  match s with
  | EmptyString => EmptyString
  | String c r => String (f c) (map_chars f r)
  end.

(** [s.toLowerCase()] *)
Definition toLowerCase : string -> string := map_chars lower_char.

(** [s.toUpperCase()] *)
Definition toUpperCase : string -> string := map_chars upper_char.

(** [s.slice(0, n)] for a natural [n] *)
Definition slice0 (n : nat) (s : string) : string := substring 0 n s.

(** [s.slice(1)] *)
Definition slice1 (s : string) : string :=
  match s with
  | EmptyString => EmptyString
  | String _ r => r
  end.

(** [a || b] on strings: the empty string is falsy. *)
Definition or_else (a b : string) : string :=
  match a with
  | EmptyString => b
  | _ => a
  end.

(** [names.includes(x)] *)
Definition includes (x : string) (l : list string) : bool :=
  existsb (String.eqb x) l.

(** [[...new Set(l)]]: the distinct elements in order of first
    occurrence. [seen] is the set built so far. *)
Fixpoint set_spread (seen l : list string) : list string :=
  match l with
  | [] => seen
  | x :: r =>
      if includes x seen then set_spread seen r
      else set_spread (seen ++ [x])%list r
  end.

End JsString.
Import JsString.

(* ================================================================= *)
(** ** Mention parser *)

(** The alternatives of the pattern [/@(Max|Sam|Leo|Son|all)/gi],
    lower-cased. *)
Definition mention_words : list string := ["max"; "sam"; "leo"; "son"; "all"].

(** The pattern anchored at the head of [s]: the matched text, if any.
    The flag [i] compares ASCII letters without case. *)
Definition match_here (s : string) : option string :=
  match s with
  | String c0 (String a (String b (String c _))) =>
      let w := String a (String b (String c EmptyString)) in
      if (c0 =? "@")%char && includes (toLowerCase w) mention_words
      then Some (String c0 w) else None
  | _ => None
  end.

(** [content.match(regex) || []] with the flag [g]: every match, left to
    right, the scan resuming after the end of each match. [skip] counts the
    code units of the last match that are still to be passed over. *)
Fixpoint match_all (skip : nat) (s : string) : list string :=
  match s with
  | EmptyString => []
  | String _ r =>
      match skip with
      | S k => match_all k r
      | O =>
          match match_here s with
          | Some m => m :: match_all 3 r
          | None => match_all 0 r
          end
      end
  end.

Definition all_agents : list string := ["max"; "sam"; "leo"; "son"].

Definition parseMentions (content : string) : list string :=
  let matches := match_all 0 content in
  let names := map (fun m => toLowerCase (slice1 m)) matches in
  if includes "all" names then all_agents
  else set_spread [] names.

(** [marker] occurs in [s]. *)
Definition contains (marker s : string) : Prop :=
  exists pre post, s = pre ++ marker ++ post.

(** The text holds the wildcard marker, in any letter case. *)
Definition has_wildcard (text : string) : Prop :=
  exists pre m post,
    text = pre ++ m ++ post /\ toLowerCase m = "@all".

(* ================================================================= *)
(** ** Documents *)

Definition Id := nat.

(** An id as it is spliced into a template string. *)
Definition id_to_string (i : Id) : string :=
  NilEmpty.string_of_uint (Nat.to_uint i).

Module Agent.
Record t := mk { _id : Id; name : string; avatar : string }.
End Agent.

Module Task.
Record t := mk {
  _id : Id;
  title : string;
  linearIdentifier : option string;
  projectId : option Id }.
End Task.

(** The kinds of message the module header names; the code of the module
    writes and reads the first two only. *)
Inductive MessageType := TComment | TDm | TDispatch | TSystem.

Inductive Priority := Normal | Urgent.

(** A document of the table [unifiedMessages]. An absent optional field is
    [None]. *)
Module Msg.
Record t := mk {
  _id : Id;
  fromAgent : string;
  toAgent : option string;
  taskId : option Id;
  linearIdentifier : option string;
  content : string;
  type : MessageType;
  mentions : option (list string);
  priority : option Priority;
  read : option bool;
  createdAt : Z }.

(** The document after [patch(id, { read: true })]. *)
Definition set_read (m : t) : t :=
  mk (_id m) (fromAgent m) (toAgent m) (taskId m) (linearIdentifier m)
     (content m) (type m) (mentions m) (priority m) (Some true)
     (createdAt m).
End Msg.

Inductive NotificationType := NMention | NDm.

Module Notif.
Record t := mk {
  _id : Id;
  to : Id;
  from : Id;
  type : NotificationType;
  title : string;
  message : string;
  read : bool;
  relatedTask : option Id;
  createdAt : Z }.
End Notif.

Inductive EventType := EComment | EDmSent.

Module Event.
Record t := mk {
  _id : Id;
  agentId : Id;
  agentName : string;
  eventType : EventType;
  title : string;
  taskId : option Id;
  linearIdentifier : option string;
  projectId : option Id;
  source : string;
  timestamp : Z }.
End Event.

Inductive LegacyStatus := Unread | Read.

(** A document of the legacy table [agentMessages]; its [type] is always
    ["fyi"] on this path and is left out. *)
Module Legacy.
Record t := mk {
  _id : Id;
  from : Id;
  to : Id;
  content : string;
  taskRef : option Id;
  status : LegacyStatus;
  timestamp : Z }.
End Legacy.

(* ================================================================= *)
(** ** The store *)

Record Store := mkStore {
  agents : list Agent.t;
  tasks : list Task.t;
  unifiedMessages : list Msg.t;
  agentMessages : list Legacy.t;
  notifications : list Notif.t;
  activityEvents : list Event.t;
  nextId : Id }.

Inductive Error :=
| TaskNotFound (taskId : Id)
| SenderNotFound (name : string)
| RecipientNotFound (name : string)
| DocumentNotFound (id : Id).

Inductive Result (A : Type) :=
| Ok (a : A)
| Err (e : Error).
Arguments Ok {A} a.
Arguments Err {A} e.

Definition bind {A B} (r : Result A) (k : A -> Result B) : Result B :=
  match r with
  | Ok a => k a
  | Err e => Err e
  end.

Notation "x <- r ;; k" := (bind r (fun x => k))
  (at level 61, r at next level, right associativity).

(** [ctx.db.insert("unifiedMessages", doc)] *)
Definition insert_message (st : Store) (doc : Id -> Msg.t) : Id * Store :=
  let id := nextId st in
  (id, mkStore (agents st) (tasks st) (unifiedMessages st ++ [doc id])%list
         (agentMessages st) (notifications st) (activityEvents st) (S id)).

(** [ctx.db.insert("agentMessages", doc)] *)
Definition insert_legacy (st : Store) (doc : Id -> Legacy.t) : Id * Store :=
  let id := nextId st in
  (id, mkStore (agents st) (tasks st) (unifiedMessages st)
         (agentMessages st ++ [doc id])%list (notifications st)
         (activityEvents st) (S id)).

(** [ctx.db.insert("notifications", doc)] *)
Definition insert_notification (st : Store) (doc : Id -> Notif.t) : Store :=
  let id := nextId st in
  mkStore (agents st) (tasks st) (unifiedMessages st) (agentMessages st)
    (notifications st ++ [doc id])%list (activityEvents st) (S id).

(** [ctx.db.insert("activityEvents", doc)] *)
Definition insert_event (st : Store) (doc : Id -> Event.t) : Store :=
  let id := nextId st in
  mkStore (agents st) (tasks st) (unifiedMessages st) (agentMessages st)
    (notifications st) (activityEvents st ++ [doc id])%list (S id).

(** [ctx.db.get(taskId)] *)
Definition get_task (st : Store) (id : Id) : option Task.t :=
  find (fun t => Task._id t =? id)%nat (tasks st).

(** [ctx.db.get(agentId)] *)
Definition get_agent (st : Store) (id : Id) : option Agent.t :=
  find (fun a => Agent._id a =? id)%nat (agents st).

(** [agents.find((a) => a.name.toLowerCase() === lower)] *)
Definition find_agent (ags : list Agent.t) (lower : string) : option Agent.t :=
  find (fun a => toLowerCase (Agent.name a) =? lower) ags.

(** [agentMap.get(lower)] for
    [new Map(agents.map((a) => [a.name.toLowerCase(), a]))]: a later entry
    replaces an earlier one under the same key. *)
Definition agentMap_get (ags : list Agent.t) (lower : string)
  : option Agent.t :=
  find_agent (rev ags) lower.

(** The table after [patch(id, { read: true })]; [None] when no document
    has the id. *)
Fixpoint patch_read (id : Id) (ms : list Msg.t) : option (list Msg.t) :=
  match ms with
  | [] => None
  | m :: r =>
      if (Msg._id m =? id)%nat then Some (Msg.set_read m :: r)
      else option_map (cons m) (patch_read id r)
  end.

(** [ctx.db.patch(id, { read: true })] on [unifiedMessages]; it throws when
    the document does not exist. *)
Definition db_patch_read (st : Store) (id : Id) : Result Store :=
  match patch_read id (unifiedMessages st) with
  | Some ms =>
      Ok (mkStore (agents st) (tasks st) ms (agentMessages st)
            (notifications st) (activityEvents st) (nextId st))
  | None => Err (DocumentNotFound id)
  end.

(** [l.sort(cmp)]: the stable sort of ECMAScript; [cmp a b <= 0] keeps [a]
    before [b]. *)
Section Sort.
Context {A : Type} (cmp : A -> A -> Z).

Fixpoint insert_sorted (x : A) (l : list A) : list A :=
  match l with
  | [] => [x]
  | y :: r => if (cmp x y <=? 0)%Z then x :: l else y :: insert_sorted x r
  end.

Definition js_sort (l : list A) : list A := fold_right insert_sorted [] l.
End Sort.

Definition opt_eqb (o : option string) (s : string) : bool :=
  match o with
  | Some x => x =? s
  | None => false
  end.

Definition id_opt_eqb (o : option Id) (i : Id) : bool :=
  match o with
  | Some x => (x =? i)%nat
  | None => false
  end.

Definition is_comment (m : Msg.t) : bool :=
  match Msg.type m with TComment => true | _ => false end.

Definition is_dm (m : Msg.t) : bool :=
  match Msg.type m with TDm => true | _ => false end.

(** [m.read !== true] *)
Definition not_read (m : Msg.t) : bool :=
  match Msg.read m with Some true => false | _ => true end.

(** [m.read === false], the key of the index [by_to_agent_unread] *)
Definition read_is_false (m : Msg.t) : bool :=
  match Msg.read m with Some false => true | _ => false end.

(** [m.mentions?.includes(name)]; [undefined] is falsy. *)
Definition mentions_include (m : Msg.t) (name : string) : bool :=
  match Msg.mentions m with
  | Some l => includes name l
  | None => false
  end.

(** A truthy optional string: present and not empty. *)
Definition truthy (o : option string) : option string :=
  match o with
  | Some EmptyString => None
  | _ => o
  end.

(** [content.slice(0, n) + (content.length > n ? "..." : "")] *)
Definition preview (n : nat) (content : string) : string :=
  slice0 n content ++ (if (n <? String.length content)%nat then "..." else "").

(** [l.slice(start)] for an integer [start]: a negative [start] counts from
    the end. *)
Definition js_slice_from {A} (start : Z) (l : list A) : list A :=
  let len := Z.of_nat (List.length l) in
  let k := if (start <? 0)%Z then Z.max (len + start) 0
           else Z.min start len in
  skipn (Z.to_nat k) l.

(* ================================================================= *)
(** ** messaging.ts: mutations *)

Module CommentRet.
Record t := mk {
  messageId : Id;
  taskId : Id;
  mentions : list string;
  linearIdentifier : option string }.
End CommentRet.

Module DmRet.
Record t := mk {
  messageId : Id;
  from : string;
  to : string;
  priority : Priority }.
End DmRet.

(** The body of the loop over [mentions] in [postComment]. *)
Definition notify_mention (ags : list Agent.t) (agent : Agent.t)
    (agentNameLower linearId content : string) (taskId : Id) (now : Z)
    (st : Store) (mentionName : string) : Store :=
  if mentionName =? agentNameLower then st
  else
    match find_agent ags mentionName with
    | Some mentionedAgent =>
        insert_notification st (fun id =>
          Notif.mk id (Agent._id mentionedAgent) (Agent._id agent) NMention
            (Agent.name agent ++ " mentioned you")
            ("In " ++ linearId ++ ": " ++ preview 100 content)
            false (Some taskId) now)
    | None => st
    end.

Definition postComment (st : Store) (now : Z) (taskId : Id)
    (agentName content : string) : Result (Store * CommentRet.t) :=
  let agentNameLower := toLowerCase agentName in
  match get_task st taskId with
  | None => Err (TaskNotFound taskId)
  | Some task =>
      let mentions := parseMentions content in
      let '(messageId, st1) :=
        insert_message st (fun id =>
          Msg.mk id agentNameLower None (Some taskId)
            (Task.linearIdentifier task) content TComment
            (match mentions with [] => None | _ => Some mentions end)
            None None now) in
      let ags := agents st1 in
      let st3 :=
        match find_agent ags agentNameLower with
        | Some agent =>
            let linearId :=
              match truthy (Task.linearIdentifier task) with
              | Some l => l
              | None => "task-" ++ id_to_string taskId
              end in
            let st2 :=
              insert_event st1 (fun id =>
                Event.mk id (Agent._id agent) agentNameLower EComment
                  (toUpperCase (Agent.name agent) ++ " commented on "
                     ++ linearId)
                  (Some taskId) (Task.linearIdentifier task)
                  (Task.projectId task) "unified_messaging" now) in
            fold_left
              (notify_mention ags agent agentNameLower linearId content
                 taskId now)
              mentions st2
        | None => st1
        end in
      Ok (st3,
          CommentRet.mk messageId taskId mentions
            (Task.linearIdentifier task))
  end.

Definition urgent_marker : string := "🔴 Urgent".

(** The title of a DM notification. *)
Definition dm_title (priority : Priority) (fromName : string) : string :=
  match priority with
  | Urgent => urgent_marker ++ " DM from " ++ fromName
  | Normal => "DM from " ++ fromName
  end.

(** The body of a DM notification. *)
Definition dm_message (linearIdentifier : option string) (content : string)
  : string :=
  match truthy linearIdentifier with
  | Some l => "Re: " ++ l ++ " — " ++ preview 100 content
  | None => preview 150 content
  end.

(** The human identifier of the optional related ticket: absent when no
    ticket is given or the id resolves to none. *)
Definition related_linearIdentifier (st : Store) (relatedTaskId : option Id)
  : option string :=
  match relatedTaskId with
  | Some tid =>
      match get_task st tid with
      | Some task => Task.linearIdentifier task
      | None => None
      end
  | None => None
  end.

(** [args.priority || "normal"] *)
Definition priority_or_normal (priority_arg : option Priority) : Priority :=
  match priority_arg with Some p => p | None => Normal end.

Definition sendDM (st : Store) (now : Z) (from to content : string)
    (relatedTaskId : option Id) (priority_arg : option Priority)
  : Result (Store * DmRet.t) :=
  let fromLower := toLowerCase from in
  let toLower := toLowerCase to in
  let priority := priority_or_normal priority_arg in
  let linearIdentifier := related_linearIdentifier st relatedTaskId in
  let '(messageId, st1) :=
    insert_message st (fun id =>
      Msg.mk id fromLower (Some toLower) relatedTaskId linearIdentifier
        content TDm None (Some priority) (Some false) now) in
  let ags := agents st1 in
  let st3 :=
    match find_agent ags fromLower, find_agent ags toLower with
    | Some fromAgent, Some toAgent =>
        let st2 :=
          insert_notification st1 (fun id =>
            Notif.mk id (Agent._id toAgent) (Agent._id fromAgent) NDm
              (dm_title priority (Agent.name fromAgent))
              (dm_message linearIdentifier content)
              false relatedTaskId now) in
        insert_event st2 (fun id =>
          Event.mk id (Agent._id fromAgent) fromLower EDmSent
            (toUpperCase (Agent.name fromAgent) ++ " sent DM to "
               ++ toUpperCase (Agent.name toAgent))
            relatedTaskId linearIdentifier None "unified_messaging" now)
    | _, _ => st1
    end in
  Ok (st3, DmRet.mk messageId fromLower toLower priority).

(** [markRead]: the patch sets the one [read] field of the message. *)
Definition markRead (st : Store) (messageId : Id) : Result (Store * bool) :=
  st' <- db_patch_read st messageId ;;
  Ok (st', true).

(** The index range [by_to_agent_unread] at
    [q.eq("toAgent", name).eq("read", false)]: the documents with exactly
    these two field values, in order of insertion. The kind of the message
    is not part of the key. *)
Definition by_to_agent_unread (st : Store) (name : string) : list Msg.t :=
  filter (fun m => opt_eqb (Msg.toAgent m) name && read_is_false m)
    (unifiedMessages st).

(** The index range [by_to_agent] at [q.eq("toAgent", name)], in order of
    insertion. *)
Definition by_to_agent (st : Store) (name : string) : list Msg.t :=
  filter (fun m => opt_eqb (Msg.toAgent m) name) (unifiedMessages st).

(** [for (const msg of toMark) await ctx.db.patch(msg._id, { read: true })] *)
Fixpoint patch_each (toMark : list Msg.t) (st : Store) : Result Store :=
  match toMark with
  | [] => Ok st
  | msg :: r =>
      st' <- db_patch_read st (Msg._id msg) ;;
      patch_each r st'
  end.

(** The comments [markAllRead] sweeps for an agent: the author is not
    looked at. *)
Definition sweep_mentions (st : Store) (agentNameLower : string)
  : list Msg.t :=
  filter (fun m => is_comment m && not_read m
                   && mentions_include m agentNameLower)
    (unifiedMessages st).

Definition markAllRead (st : Store) (agentName : string)
  : Result (Store * nat) :=
  let agentNameLower := toLowerCase agentName in
  let unreadDMs := by_to_agent_unread st agentNameLower in
  let unreadMentions := sweep_mentions st agentNameLower in
  let toMark := (unreadDMs ++ unreadMentions)%list in
  st' <- patch_each toMark st ;;
  Ok (st', List.length toMark).

(* ================================================================= *)
(** ** messaging.ts: queries *)

Definition default_avatar : string := "🤖".

(** [{ ...m, fromAgentName, fromAgentAvatar }] (for a comment the two added
    fields are called [agentName] and [agentAvatar]). *)
Module Enriched.
Record t := mk {
  doc : Msg.t;
  fromAgentName : string;
  fromAgentAvatar : string }.
End Enriched.

Definition enrich (ags : list Agent.t) (m : Msg.t) : Enriched.t :=
  let fromAgent := agentMap_get ags (Msg.fromAgent m) in
  Enriched.mk m
    (or_else (match fromAgent with Some a => Agent.name a | None => "" end)
       (Msg.fromAgent m))
    (or_else (match fromAgent with Some a => Agent.avatar a | None => "" end)
       default_avatar).

(** [(a, b) => a.createdAt - b.createdAt] *)
Definition oldest_first (a b : Msg.t) : Z :=
  (Msg.createdAt a - Msg.createdAt b)%Z.

(** [(a, b) => b.createdAt - a.createdAt] *)
Definition newest_first (a b : Msg.t) : Z :=
  (Msg.createdAt b - Msg.createdAt a)%Z.

Definition getTaskComments (st : Store) (taskId : Id) : list Enriched.t :=
  let comments :=
    filter (fun m => id_opt_eqb (Msg.taskId m) taskId) (unifiedMessages st) in
  let filtered := js_sort oldest_first (filter is_comment comments) in
  map (enrich (agents st)) filtered.

Definition getDMs (st : Store) (agentName : string) (unreadOnly : bool)
  : list Enriched.t :=
  let agentNameLower := toLowerCase agentName in
  let messages :=
    if unreadOnly then rev (by_to_agent_unread st agentNameLower)
    else rev (by_to_agent st agentNameLower) in
  let dms := filter is_dm messages in
  map (enrich (agents st)) dms.

Module Count.
Record t := mk { dms : nat; mentions : nat; total : nat }.
End Count.

(** The comments counted as unread mentions of an agent. *)
Definition unread_mentions (st : Store) (agentNameLower : string)
  : list Msg.t :=
  filter (fun m => is_comment m && not_read m
                   && mentions_include m agentNameLower
                   && negb (Msg.fromAgent m =? agentNameLower))
    (unifiedMessages st).

Definition getUnreadCount (st : Store) (agentName : string) : Count.t :=
  let agentNameLower := toLowerCase agentName in
  let unreadDMs := by_to_agent_unread st agentNameLower in
  let unreadMentions := unread_mentions st agentNameLower in
  Count.mk (List.length unreadDMs) (List.length unreadMentions)
    (List.length unreadDMs + List.length unreadMentions).

Module UnreadRet.
Record t := mk {
  dms : list Enriched.t;
  mentions : list Enriched.t;
  count : Count.t }.
End UnreadRet.

Definition getUnread (st : Store) (agentName : string) : UnreadRet.t :=
  let agentNameLower := toLowerCase agentName in
  let unreadDMs :=
    filter is_dm (firstn 10 (rev (by_to_agent_unread st agentNameLower))) in
  let unreadMentions :=
    firstn 10 (js_sort newest_first (unread_mentions st agentNameLower)) in
  let ags := agents st in
  UnreadRet.mk (map (enrich ags) unreadDMs) (map (enrich ags) unreadMentions)
    (Count.mk (List.length unreadDMs) (List.length unreadMentions)
       (List.length unreadDMs + List.length unreadMentions)).

(** The DMs between [a1] and [a2], in either direction, as the table holds
    them. *)
Definition between (a1 a2 : string) (m : Msg.t) : bool :=
  is_dm m
  && (((Msg.fromAgent m =? a1) && opt_eqb (Msg.toAgent m) a2)
      || ((Msg.fromAgent m =? a2) && opt_eqb (Msg.toAgent m) a1)).

(** [limit] is an optional integer; [0] is falsy. *)
Definition getConversation (st : Store) (agent1 agent2 : string)
    (limit : option Z) : list Enriched.t :=
  let a1 := toLowerCase agent1 in
  let a2 := toLowerCase agent2 in
  let conversation :=
    js_sort oldest_first (filter (between a1 a2) (unifiedMessages st)) in
  let limited :=
    match limit with
    | Some k => if (k =? 0)%Z then conversation
                else js_slice_from (- k) conversation
    | None => conversation
    end in
  map (enrich (agents st)) limited.

(* ================================================================= *)
(** ** agentMessaging.ts: the legacy direct-message module *)

Definition sendDirectMessage (st : Store) (now : Z)
    (fromAgent toAgent content : string) (relatedTaskId : option Id)
    (priority_arg : option Priority) : Result (Store * DmRet.t) :=
  let ags := agents st in
  let fromAgentDoc := find_agent ags (toLowerCase fromAgent) in
  let toAgentDoc := find_agent ags (toLowerCase toAgent) in
  match fromAgentDoc with
  | None => Err (SenderNotFound fromAgent)
  | Some fromAgentDoc =>
      match toAgentDoc with
      | None => Err (RecipientNotFound toAgent)
      | Some toAgentDoc =>
          let priority := priority_or_normal priority_arg in
          let '(messageId, st1) :=
            insert_legacy st (fun id =>
              Legacy.mk id (Agent._id fromAgentDoc) (Agent._id toAgentDoc)
                content relatedTaskId Unread now) in
          let linearId := related_linearIdentifier st1 relatedTaskId in
          let st2 :=
            insert_notification st1 (fun id =>
              Notif.mk id (Agent._id toAgentDoc) (Agent._id fromAgentDoc)
                NDm (dm_title priority (Agent.name fromAgentDoc))
                (dm_message linearId content) false relatedTaskId now) in
          let st3 :=
            insert_event st2 (fun id =>
              Event.mk id (Agent._id fromAgentDoc) (toLowerCase fromAgent)
                EDmSent
                (toUpperCase (Agent.name fromAgentDoc) ++ " sent DM to "
                   ++ toUpperCase (Agent.name toAgentDoc))
                relatedTaskId (truthy linearId) None "agent_dm" now) in
          Ok (st3, DmRet.mk messageId fromAgent toAgent priority)
      end
  end.

Module LegacyEnriched.
Record t := mk {
  doc : Legacy.t;
  fromAgentName : string;
  fromAgentAvatar : string;
  taskTitle : option string;
  linearIdentifier : option string }.
End LegacyEnriched.

Definition legacy_is_unread (m : Legacy.t) : bool :=
  match Legacy.status m with Unread => true | Read => false end.

Definition legacy_enrich (st : Store) (m : Legacy.t) : LegacyEnriched.t :=
  let fromAgent := get_agent st (Legacy.from m) in
  let task :=
    match Legacy.taskRef m with
    | Some tid => get_task st tid
    | None => None
    end in
  LegacyEnriched.mk m
    (or_else (match fromAgent with Some a => Agent.name a | None => "" end)
       "Unknown")
    (or_else (match fromAgent with Some a => Agent.avatar a | None => "" end)
       default_avatar)
    (match task with
     | Some t => truthy (Some (Task.title t))
     | None => None
     end)
    (match task with
     | Some t => truthy (Task.linearIdentifier t)
     | None => None
     end).

Definition getDirectMessages (st : Store) (agentName : string)
    (unreadOnly : bool) : list LegacyEnriched.t :=
  match find_agent (agents st) (toLowerCase agentName) with
  | None => []
  | Some agent =>
      let messages :=
        if unreadOnly then
          rev (filter (fun m => (Legacy.to m =? Agent._id agent)%nat
                                && legacy_is_unread m)
                 (agentMessages st))
        else
          js_sort (fun a b => (Legacy.timestamp b - Legacy.timestamp a)%Z)
            (filter (fun m => (Legacy.to m =? Agent._id agent)%nat)
               (agentMessages st)) in
      map (legacy_enrich st) messages
  end.

(* ================================================================= *)
(** ** Store invariant and the effect of a sweep *)

(** The ids of a table are distinct and below the counter: what
    [ctx.db.insert] guarantees. *)
Definition wf_store (st : Store) : Prop :=
  NoDup (map Msg._id (unifiedMessages st))
  /\ Forall (fun m => Msg._id m < nextId st) (unifiedMessages st)
  /\ NoDup (map Agent._id (agents st)).

(** The document after a patch aimed at [id]. *)
Definition mark (id : Id) (m : Msg.t) : Msg.t :=
  if (Msg._id m =? id)%nat then Msg.set_read m else m.

(** The document after the patches aimed at each of [ids]. *)
Definition mark_all (ids : list Id) (m : Msg.t) : Msg.t :=
  if existsb (Nat.eqb (Msg._id m)) ids then Msg.set_read m else m.

(** The notifications the loop of [postComment] writes for [mentions],
    the first taking the id [next]. *)
Fixpoint fanout (ags : list Agent.t) (agent : Agent.t)
    (agentNameLower linearId content : string) (taskId : Id) (now : Z)
    (next : Id) (mentions : list string) : list Notif.t :=
  match mentions with
  | [] => []
  | mentionName :: r =>
      if mentionName =? agentNameLower
      then fanout ags agent agentNameLower linearId content taskId now next r
      else
        match find_agent ags mentionName with
        | Some mentionedAgent =>
            Notif.mk next (Agent._id mentionedAgent) (Agent._id agent)
              NMention (Agent.name agent ++ " mentioned you")
              ("In " ++ linearId ++ ": " ++ preview 100 content)
              false (Some taskId) now
            :: fanout ags agent agentNameLower linearId content taskId now
                 (S next) r
        | None =>
            fanout ags agent agentNameLower linearId content taskId now
              next r
        end
  end.

(** The ids the sweep of [markAllRead] patches. *)
Definition swept_ids (st : Store) (agentNameLower : string) : list Id :=
  map Msg._id
    (by_to_agent_unread st agentNameLower ++ sweep_mentions st agentNameLower).

(** The notification of a DM: written only when both names resolve. *)
Definition dm_notifications (st : Store) (now : Z) (from to content : string)
    (relatedTaskId : option Id) (priority : Priority) : list Notif.t :=
  match find_agent (agents st) (toLowerCase from),
        find_agent (agents st) (toLowerCase to) with
  | Some fromAgent, Some toAgent =>
      [Notif.mk (S (nextId st)) (Agent._id toAgent) (Agent._id fromAgent) NDm
         (dm_title priority (Agent.name fromAgent))
         (dm_message (related_linearIdentifier st relatedTaskId) content)
         false relatedTaskId now]
  | _, _ => []
  end.

(** The document [sendDM] inserts. *)
Definition dm_doc (st : Store) (now : Z) (from to content : string)
    (relatedTaskId : option Id) (priority : Priority) : Msg.t :=
  Msg.mk (nextId st) (toLowerCase from) (Some (toLowerCase to)) relatedTaskId
    (related_linearIdentifier st relatedTaskId) content TDm None
    (Some priority) (Some false) now.

(** One mutation of either module, as a transition of the store. *)
Inductive step : Store -> Store -> Prop :=
| step_postComment st now taskId agentName content st' r :
    postComment st now taskId agentName content = Ok (st', r) ->
    step st st'
| step_sendDM st now from to content relatedTaskId priority st' r :
    sendDM st now from to content relatedTaskId priority = Ok (st', r) ->
    step st st'
| step_markRead st messageId st' r :
    markRead st messageId = Ok (st', r) ->
    step st st'
| step_markAllRead st agentName st' marked :
    markAllRead st agentName = Ok (st', marked) ->
    step st st'
| step_sendDirectMessage st now from to content relatedTaskId priority st' r :
    sendDirectMessage st now from to content relatedTaskId priority
    = Ok (st', r) ->
    step st st'.

(** The stores a run of mutations reaches from [st]. *)
Inductive reachable (st : Store) : Store -> Prop :=
| reach_refl : reachable st st
| reach_step st1 st2 : reachable st st1 -> step st1 st2 -> reachable st st2.

(* ================================================================= *)
(** ** messaging.ts: the remaining queries *)

Definition getCommentsByLinearId (st : Store) (linearIdentifier : string)
  : list Enriched.t :=
  let comments :=
    filter (fun m => opt_eqb (Msg.linearIdentifier m) linearIdentifier)
      (unifiedMessages st) in
  let filtered := js_sort oldest_first (filter is_comment comments) in
  map (enrich (agents st)) filtered.

(** [limit] is an optional count; [args.limit ?? 20] keeps a [0]. *)
Definition listRecent (st : Store) (limit : option nat) : list Enriched.t :=
  let limit := match limit with Some n => n | None => 20 end in
  let messages := firstn limit (rev (unifiedMessages st)) in
  map (enrich (agents st)) messages.

(* ================================================================= *)
(** ** Tables updated by id *)

Section ById.
Context {A : Type} (id_of : A -> Id).

(** The table after [patch(id, fields)], [f] writing the fields; [None]
    when no document has the id. *)
Fixpoint patch_first (f : A -> A) (id : Id) (l : list A) : option (list A) :=
  match l with
  | [] => None
  | x :: r =>
      if (id_of x =? id)%nat then Some (f x :: r)
      else option_map (cons x) (patch_first f id r)
  end.

(** The table after [delete(id)]; [None] when no document has the id. *)
Fixpoint delete_first (id : Id) (l : list A) : option (list A) :=
  match l with
  | [] => None
  | x :: r =>
      if (id_of x =? id)%nat then Some r
      else option_map (cons x) (delete_first id r)
  end.

End ById.

(* ================================================================= *)
(** ** agentMessaging.ts: the remaining functions *)

Module AgentMessaging.

(** The document after [patch(id, { status: "read" })]. *)
Definition set_status_read (m : Legacy.t) : Legacy.t :=
  Legacy.mk (Legacy._id m) (Legacy.from m) (Legacy.to m) (Legacy.content m)
    (Legacy.taskRef m) Read (Legacy.timestamp m).

(** [ctx.db.patch(id, { status: "read" })] on [agentMessages]. *)
Definition db_patch_status (st : Store) (id : Id) : Result Store :=
  match patch_first Legacy._id set_status_read id (agentMessages st) with
  | Some ms =>
      Ok (mkStore (agents st) (tasks st) (unifiedMessages st) ms
            (notifications st) (activityEvents st) (nextId st))
  | None => Err (DocumentNotFound id)
  end.

Definition markAsRead (st : Store) (messageId : Id) : Result (Store * bool) :=
  st' <- db_patch_status st messageId ;;
  Ok (st', true).

(** The index range [by_to_status] at [(agent, "unread")]. *)
Definition by_to_status_unread (st : Store) (agent : Id) : list Legacy.t :=
  filter (fun m => (Legacy.to m =? agent)%nat && legacy_is_unread m)
    (agentMessages st).

Fixpoint patch_each (unread : list Legacy.t) (st : Store) : Result Store :=
  match unread with
  | [] => Ok st
  | msg :: r =>
      st' <- db_patch_status st (Legacy._id msg) ;;
      patch_each r st'
  end.

(** What [markAllAsRead] comes to: its own [Agent not found] error, an
    error of a patch, or the store and the number of messages marked. *)
Inductive Outcome :=
| Marked (st : Store) (marked : nat)
| AgentNotFound (agentName : string)
| PatchFailed (e : Error).

Definition markAllAsRead (st : Store) (agentName : string) : Outcome :=
  match find_agent (agents st) (toLowerCase agentName) with
  | None => AgentNotFound agentName
  | Some agent =>
      let unread := by_to_status_unread st (Agent._id agent) in
      match patch_each unread st with
      | Ok st' => Marked st' (List.length unread)
      | Err e => PatchFailed e
      end
  end.

(** [{ ...m, fromAgentName }] *)
Record ConversationEntry := mkEntry {
  doc : Legacy.t;
  fromAgentName : string }.

Definition between (a1 a2 : Id) (m : Legacy.t) : bool :=
  ((Legacy.from m =? a1)%nat && (Legacy.to m =? a2)%nat)
  || ((Legacy.from m =? a2)%nat && (Legacy.to m =? a1)%nat).

Definition entry (st : Store) (m : Legacy.t) : ConversationEntry :=
  mkEntry m
    (or_else
       (match get_agent st (Legacy.from m) with
        | Some a => Agent.name a
        | None => ""
        end)
       "Unknown").

Definition getConversation (st : Store) (agent1 agent2 : string)
    (limit : option Z) : list ConversationEntry :=
  let a1 := find_agent (agents st) (toLowerCase agent1) in
  let a2 := find_agent (agents st) (toLowerCase agent2) in
  match a1, a2 with
  | Some a1, Some a2 =>
      let conversation :=
        js_sort (fun a b => (Legacy.timestamp a - Legacy.timestamp b)%Z)
          (filter (between (Agent._id a1) (Agent._id a2))
             (agentMessages st)) in
      let limited :=
        match limit with
        | Some k => if (k =? 0)%Z then conversation
                    else js_slice_from (- k) conversation
        | None => conversation
        end in
      map (entry st) limited
  | _, _ => []
  end.

End AgentMessaging.

(* ================================================================= *)
(** ** notifications.ts

    The functions below read the fields [to], [read], [createdAt], [from]
    and [relatedTask] of a notification; none looks at its [type]. *)

Module Notifications.

(** The index range [by_recipient] at [agent], in order of insertion. *)
Definition by_recipient (st : Store) (agent : Id) : list Notif.t :=
  filter (fun n => (Notif.to n =? agent)%nat) (notifications st).

(** The index range [by_read_status] at [(agent, false)]. *)
Definition by_read_status_unread (st : Store) (agent : Id) : list Notif.t :=
  filter (fun n => (Notif.to n =? agent)%nat && negb (Notif.read n))
    (notifications st).

Definition getByAgent (st : Store) (agent : Id) : list Notif.t :=
  rev (by_recipient st agent).

Definition getUnread (st : Store) (agent : Id) : list Notif.t :=
  rev (by_read_status_unread st agent).

Definition getUnreadCount (st : Store) (agent : Id) : nat :=
  List.length (by_read_status_unread st agent).

Definition get (st : Store) (id : Id) : option Notif.t :=
  find (fun n => (Notif._id n =? id)%nat) (notifications st).

(** The document after [patch(id, { read: true })]. *)
Definition set_read (n : Notif.t) : Notif.t :=
  Notif.mk (Notif._id n) (Notif.to n) (Notif.from n) (Notif.type n)
    (Notif.title n) (Notif.message n) true (Notif.relatedTask n)
    (Notif.createdAt n).

Definition with_notifications (st : Store) (ns : list Notif.t) : Store :=
  mkStore (agents st) (tasks st) (unifiedMessages st) (agentMessages st) ns
    (activityEvents st) (nextId st).

(** [ctx.db.patch(id, { read: true })] on [notifications]. *)
Definition db_patch_read (st : Store) (id : Id) : Result Store :=
  match patch_first Notif._id set_read id (notifications st) with
  | Some ns => Ok (with_notifications st ns)
  | None => Err (DocumentNotFound id)
  end.

(** [ctx.db.delete(id)] on [notifications]. *)
Definition db_delete (st : Store) (id : Id) : Result Store :=
  match delete_first Notif._id id (notifications st) with
  | Some ns => Ok (with_notifications st ns)
  | None => Err (DocumentNotFound id)
  end.

Definition markAsRead (st : Store) (id : Id) : Result Store :=
  db_patch_read st id.

Fixpoint patch_each (unread : list Notif.t) (st : Store) : Result Store :=
  match unread with
  | [] => Ok st
  | notification :: r =>
      st' <- db_patch_read st (Notif._id notification) ;;
      patch_each r st'
  end.

Definition markAllAsRead (st : Store) (agent : Id) : Result (Store * nat) :=
  let unread := by_read_status_unread st agent in
  st' <- patch_each unread st ;;
  Ok (st', List.length unread).

Definition remove (st : Store) (id : Id) : Result Store :=
  db_delete st id.

Fixpoint delete_each (toDelete : list Notif.t) (st : Store) : Result Store :=
  match toDelete with
  | [] => Ok st
  | notification :: r =>
      st' <- db_delete st (Notif._id notification) ;;
      delete_each r st'
  end.

(** [args.olderThan ?? Date.now() - 7 * 24 * 60 * 60 * 1000] *)
Definition clearRead_cutoff (now : Z) (olderThan : option Z) : Z :=
  match olderThan with
  | Some t => t
  | None => (now - 7 * 24 * 60 * 60 * 1000)%Z
  end.

Definition clearRead (st : Store) (now : Z) (agent : Id)
    (olderThan : option Z) : Result (Store * nat) :=
  let cutoff := clearRead_cutoff now olderThan in
  let readNotifications := by_recipient st agent in
  let toDelete :=
    filter (fun n => Notif.read n && (Notif.createdAt n <? cutoff)%Z)
      readNotifications in
  st' <- delete_each toDelete st ;;
  Ok (st', List.length toDelete).

Definition clearAll (st : Store) (agent : Id) : Result (Store * nat) :=
  let allNotifications := by_recipient st agent in
  st' <- delete_each allNotifications st ;;
  Ok (st', List.length allNotifications).

Record CleanupRet := mkCleanup {
  deleted : nat;
  remaining : Z;
  cutoffHours : Z }.

(** [hoursOld] is an optional integer number of hours. *)
Definition cleanup (st : Store) (now : Z) (hoursOld : option Z)
  : Result (Store * CleanupRet) :=
  let hours := match hoursOld with Some h => h | None => 24%Z end in
  let cutoff := (now - hours * 60 * 60 * 1000)%Z in
  let allNotifications := notifications st in
  let oldNotifications :=
    filter (fun n => (Notif.createdAt n <? cutoff)%Z) allNotifications in
  st' <- delete_each oldNotifications st ;;
  Ok (st',
      mkCleanup (List.length oldNotifications)
        (Z.of_nat (List.length allNotifications)
         - Z.of_nat (List.length oldNotifications))
        hours).

(** [{ ...n, fromAgentName }]; [fromAgent?.name || null]. *)
Record NamedNotification := mkNamed {
  notification : Notif.t;
  fromAgentName : option string }.

Definition getUnreadByAgentName (st : Store) (agentName : string)
  : list NamedNotification :=
  match find_agent (agents st) (toLowerCase agentName) with
  | None => []
  | Some agent =>
      let unread := rev (by_read_status_unread st (Agent._id agent)) in
      map (fun n =>
             mkNamed n
               (match get_agent st (Notif.from n) with
                | Some a => truthy (Some (Agent.name a))
                | None => None
                end))
          unread
  end.

End Notifications.

(** The ids of the notifications and of the legacy messages are
    distinct. *)
Definition wf_notifications (st : Store) : Prop :=
  NoDup (map Notif._id (notifications st)).

Definition wf_legacy (st : Store) : Prop :=
  NoDup (map Legacy._id (agentMessages st)).

(** The marker [@w] occurs in [text], in any letter case. *)
Definition has_marker (w text : string) : Prop :=
  exists pre m post,
    text = pre ++ m ++ post /\ toLowerCase m = String "@" w.

(** [names] of [parseMentions]: the lower-cased words of the matches. *)
Definition mention_names (content : string) : list string :=
  map (fun m => toLowerCase (slice1 m)) (match_all 0 content).

(** The document [postComment] inserts for a ticket [task]. *)
Definition comment_doc (st : Store) (now : Z) (taskId : Id)
    (agentName content : string) (task : Task.t) : Msg.t :=
  Msg.mk (nextId st) (toLowerCase agentName) None (Some taskId)
    (Task.linearIdentifier task) content TComment
    (match parseMentions content with
     | [] => None
     | _ => Some (parseMentions content)
     end) None None now.

(** The store [markAllRead] leaves for the lower-cased name. *)
Definition swept (st : Store) (agentNameLower : string) : Store :=
  mkStore (agents st) (tasks st)
    (map (mark_all (swept_ids st agentNameLower)) (unifiedMessages st))
    (agentMessages st) (notifications st) (activityEvents st) (nextId st).

(** Patches and deletions aimed at a list of ids, one after the other, at
    the level of the table. *)
Section ByIdList.
Context {A : Type} (id_of : A -> Id).

Fixpoint patch_list (f : A -> A) (ids : list Id) (l : list A)
  : option (list A) :=
  match ids with
  | [] => Some l
  | i :: r =>
      match patch_first id_of f i l with
      | Some l' => patch_list f r l'
      | None => None
      end
  end.

Fixpoint delete_list (ids : list Id) (l : list A) : option (list A) :=
  match ids with
  | [] => Some l
  | i :: r =>
      match delete_first id_of i l with
      | Some l' => delete_list r l'
      | None => None
      end
  end.

(** [x] is one of the documents that [ids] name. *)
Definition named (ids : list Id) (x : A) : bool :=
  existsb (Nat.eqb (id_of x)) ids.

End ByIdList.

(** Each comment carries the id and the human identifier of a ticket of
    the table, ticket ids are distinct, and so are the human identifiers
    that are present. *)
Definition comments_linked (st : Store) : Prop :=
  NoDup (map Task._id (tasks st))
  /\ (forall t1 t2 l,
        In t1 (tasks st) -> In t2 (tasks st) ->
        Task.linearIdentifier t1 = Some l ->
        Task.linearIdentifier t2 = Some l -> t1 = t2)
  /\ (forall m,
        In m (unifiedMessages st) -> is_comment m = true ->
        exists task,
          In task (tasks st)
          /\ Msg.taskId m = Some (Task._id task)
          /\ Msg.linearIdentifier m = Task.linearIdentifier task).

(* ================================================================= *)
(** ** notifications.ts: the dashboard query *)

Module Dashboard.

(** The summary of the related ticket. The source also copies the fields
    [linearUrl], [status] and [priority] of the ticket, which the model of
    a ticket does not carry. *)
Module Summary.
Record t := mk {
  id : Id;
  title : string;
  linearIdentifier : option string }.
End Summary.

Module Item.
Record t := mk {
  _id : Id;
  type : NotificationType;
  title : string;
  message : string;
  read : bool;
  relatedTask : option Id;
  createdAt : Z;
  taskSummary : option Summary.t }.
End Item.

Module Group.
Record t := mk {
  agentId : Id;
  agentName : string;
  agentAvatar : string;
  unreadCount : nat;
  notifications : list Item.t }.
End Group.

Definition summarize (st : Store) (relatedTask : option Id)
  : option Summary.t :=
  match relatedTask with
  | Some tid =>
      match get_task st tid with
      | Some t =>
          Some (Summary.mk (Task._id t) (Task.title t)
                  (Task.linearIdentifier t))
      | None => None
      end
  | None => None
  end.

Definition item (st : Store) (n : Notif.t) : Item.t :=
  Item.mk (Notif._id n) (Notif.type n) (Notif.title n) (Notif.message n)
    (Notif.read n) (Notif.relatedTask n) (Notif.createdAt n)
    (summarize st (Notif.relatedTask n)).

(** [byAgentId.has(key)]; the map is the list of its values in order of
    insertion of their keys. *)
Definition has (key : Id) (groups : list Group.t) : bool :=
  existsb (fun g => (Group.agentId g =? key)%nat) groups.

(** The group created for a key; [agentMap] is keyed by [_id], a later
    agent replacing an earlier one of the same id. *)
Definition new_group (ags : list Agent.t) (key : Id) : Group.t :=
  let agent := find (fun a => (Agent._id a =? key)%nat) (rev ags) in
  Group.mk key
    (match agent with Some a => Agent.name a | None => "Unknown" end)
    (match agent with Some a => Agent.avatar a | None => "?" end)
    0 [].

Definition push (st : Store) (n : Notif.t) (g : Group.t) : Group.t :=
  Group.mk (Group.agentId g) (Group.agentName g) (Group.agentAvatar g)
    (if Notif.read n then Group.unreadCount g else Group.unreadCount g + 1)
    (Group.notifications g ++ [item st n]).

(** The body of the loop over all notifications. *)
Definition add (st : Store) (groups : list Group.t) (n : Notif.t)
  : list Group.t :=
  let key := Notif.to n in
  let groups1 :=
    if has key groups then groups
    else (groups ++ [new_group (agents st) key])%list in
  map (fun g => if (Group.agentId g =? key)%nat then push st n g else g)
    groups1.

(** [notifications[0]?.createdAt ?? 0] *)
Definition first_createdAt (g : Group.t) : Z :=
  match Group.notifications g with
  | i :: _ => Item.createdAt i
  | [] => 0%Z
  end.

(** [{ ...g, notifications: sort(newest first).slice(0, 20) }] *)
Definition cap (g : Group.t) : Group.t :=
  Group.mk (Group.agentId g) (Group.agentName g) (Group.agentAvatar g)
    (Group.unreadCount g)
    (firstn 20
       (js_sort (fun a b => (Item.createdAt b - Item.createdAt a)%Z)
          (Group.notifications g))).

Record Ret := mkRet {
  totalUnread : nat;
  byAgent : list Group.t }.

Definition byAgentId (st : Store) : list Group.t :=
  fold_left (add st) (notifications st) [].

Definition listAllForDashboard (st : Store) : Ret :=
  let groups := byAgentId st in
  let byAgent :=
    js_sort (fun a b => (first_createdAt b - first_createdAt a)%Z)
      (filter (fun g => (0 <? List.length (Group.notifications g))%nat)
         (map cap groups)) in
  let totalUnread :=
    fold_left (fun s g => s + Group.unreadCount g) groups 0 in
  mkRet totalUnread byAgent.

(** What the loop has built after the notifications [seen]: one group per
    recipient, with that recipient's notifications and unread count. *)
Definition built (st : Store) (seen : list Notif.t) (groups : list Group.t)
  : Prop :=
  NoDup (map Group.agentId groups)
  /\ (forall n, In n seen -> has (Notif.to n) groups = true)
  /\ (forall g, In g groups ->
        In (Group.agentId g) (map Notif.to seen)
        /\ Group.unreadCount g
           = List.length
               (filter (fun n => (Notif.to n =? Group.agentId g)%nat
                                 && negb (Notif.read n)) seen)
        /\ Group.notifications g
           = map (item st)
               (filter (fun n => (Notif.to n =? Group.agentId g)%nat) seen)).

End Dashboard.

(** The legacy table replaced. *)
Definition with_agentMessages (st : Store) (ms : list Legacy.t) : Store :=
  mkStore (agents st) (tasks st) (unifiedMessages st) ms (notifications st)
    (activityEvents st) (nextId st).

(* ================================================================= *)
(** ** A sample store *)

Module Sample.

Definition max : Agent.t := Agent.mk 1 "Max" "M".
Definition sam : Agent.t := Agent.mk 2 "Sam" "S".
Definition leo : Agent.t := Agent.mk 3 "Leo" "L".
Definition son : Agent.t := Agent.mk 4 "Son" "N".

Definition agt9 : Task.t := Task.mk 10 "Messaging" (Some "AGT-9") None.

(** The four agents and one ticket; no message yet. *)
Definition store0 : Store :=
  mkStore [max; sam; leo; son] [agt9] [] [] [] [] 100.

(** The store a successful mutation leaves, [store0] on failure. *)
Definition after {A} (r : Result (Store * A)) : Store :=
  match r with
  | Ok (st, _) => st
  | Err _ => store0
  end.

(** Sam comments on the ticket and names Max and Leo. *)
Definition store1 : Store :=
  after (postComment store0 1000 10 "Sam" "@max @leo please review").

(** Then Sam comments again, naming everybody, Sam included. *)
Definition store2 : Store :=
  after (postComment store1 1001 10 "sam" "heads up @all").

(** Then Max sends Sam an urgent DM and Leo sends Sam a plain one. *)
Definition store3 : Store :=
  after (sendDM
           (after (sendDM store2 1002 "Max" "Sam" "ship it" (Some 10)
                     (Some Urgent)))
           1003 "leo" "SAM" "lunch?" None None).

End Sample.

(* ================================================================= *)
(** * Properties *)

(** ** Strings and lists *)

Lemma includes_In (x : string) (l : list string) :
  includes x l = true <-> In x l.
Proof.
  unfold includes. rewrite existsb_exists. split.
  - intros [y [Hy He]]. apply String.eqb_eq in He. now subst.
  - intros H. exists x. split; [exact H | apply String.eqb_refl].
Qed.

Lemma lower_char_at (c : ascii) :
  lower_char c = "@"%char -> c = "@"%char.
Proof.
  destruct c as [[|] [|] [|] [|] [|] [|] [|] [|]];
    vm_compute; intro H; try discriminate H; reflexivity.
Qed.

Lemma mention_word_letters (a b c : ascii) :
  In (String a (String b (String c EmptyString))) mention_words ->
  a <> "@"%char /\ b <> "@"%char /\ c <> "@"%char.
Proof.
  unfold mention_words. simpl.
  intros [H | [H | [H | [H | [H | []]]]]]; inversion H; subst;
    repeat split; discriminate.
Qed.

Lemma match_here_Some (s m : string) :
  match_here s = Some m ->
  exists a b c rest,
    s = String "@" (String a (String b (String c rest)))
    /\ m = String "@" (String a (String b (String c EmptyString)))
    /\ In (toLowerCase (String a (String b (String c EmptyString))))
         mention_words.
Proof.
  destruct s as [|c0 [|a [|b [|c rest]]]]; unfold match_here;
    try discriminate.
  cbv zeta.
  destruct (Ascii.eqb_spec c0 "@"%char) as [-> | Hne];
    cbn [andb]; [| discriminate].
  destruct (includes _ mention_words) eqn:Hw; [| discriminate].
  intros Hm. inversion Hm; subst. exists a, b, c, rest.
  repeat split. apply includes_In. exact Hw.
Qed.

(** ** Mention parser *)

Example parseMentions_scenario :
  parseMentions "Looks good @Leo @leo @all" = ["max"; "sam"; "leo"; "son"].
Proof. reflexivity. Qed.

Example parseMentions_dups :
  parseMentions "@Sam ping @MAX and @sam, @bob" = ["sam"; "max"].
Proof. reflexivity. Qed.

Lemma match_all_0 (c : ascii) (r : string) :
  match_all 0 (String c r) =
  match match_here (String c r) with
  | Some m => m :: match_all 3 r
  | None => match_all 0 r
  end.
Proof. reflexivity. Qed.

Lemma wildcard_shape (m : string) :
  toLowerCase m = "@all" ->
  exists c1 c2 c3,
    m = String "@" (String c1 (String c2 (String c3 EmptyString)))
    /\ toLowerCase (String c1 (String c2 (String c3 EmptyString))) = "all".
Proof.
  destruct m as [|c0 [|c1 [|c2 [|c3 [|c4 m']]]]];
    unfold toLowerCase; cbn [map_chars]; intros H; try discriminate H.
  assert (H0 : lower_char c0 = "@"%char) by congruence.
  apply lower_char_at in H0. subst c0.
  exists c1, c2, c3. split; [reflexivity | congruence].
Qed.

(** A match never swallows the ["@"] of a later marker, so the scan reaches
    every wildcard marker of the text. *)
Lemma match_all_reaches_wildcard (m post : string) :
  toLowerCase m = "@all" ->
  forall (pre : string) (skip : nat),
    skip <= String.length pre ->
    In "all"
       (map (fun x => toLowerCase (slice1 x))
            (match_all skip (pre ++ m ++ post))).
Proof.
  intros Hm. apply wildcard_shape in Hm.
  destruct Hm as (c1 & c2 & c3 & -> & Hw).
  induction pre as [|p pre IH]; intros skip Hskip.
  - simpl in Hskip. assert (skip = 0) by lia. subst skip.
    cbn [append]. rewrite match_all_0.
    assert (Hh : match_here (String "@" (String c1 (String c2 (String c3 post))))
                 = Some (String "@" (String c1 (String c2 (String c3 ""))))).
    { unfold match_here. cbv zeta. rewrite Hw. reflexivity. }
    rewrite Hh. cbn [map slice1]. left. exact Hw.
  - cbn [append]. destruct skip as [|k].
    + rewrite match_all_0. destruct (match_here _) as [x|] eqn:Hx.
      * cbn [map]. right. apply IH.
        apply match_here_Some in Hx.
        destruct Hx as (a & b & c & rest & Hs & _ & Hl).
        unfold toLowerCase in Hl. cbn [map_chars] in Hl.
        apply mention_word_letters in Hl. destruct Hl as (Ha & Hb & Hc).
        assert (Hat : forall y, lower_char y <> "@"%char -> y <> "@"%char)
          by (intros y Hn ->; apply Hn; reflexivity).
        apply Hat in Ha, Hb, Hc.
        destruct pre as [|q1 [|q2 [|q3 pre]]]; cbn [append] in Hs;
          cbn [String.length]; try lia;
          exfalso; congruence.
      * apply IH. lia.
    + cbn [match_all]. apply IH. simpl in Hskip. lia.
Qed.

(** C5. A text that holds the wildcard marker [@all], in any letter case
    and with any other markers around it, parses to exactly the full
    known-agent set. *)
Theorem parseMentions_wildcard (text : string) :
  has_wildcard text -> parseMentions text = all_agents.
Proof.
  intros (pre & m & post & -> & Hm). unfold parseMentions.
  assert (H : includes "all"
                (map (fun x => toLowerCase (slice1 x))
                     (match_all 0 (pre ++ m ++ post))) = true).
  { apply includes_In. apply match_all_reaches_wildcard; [exact Hm | lia]. }
  cbv zeta. now rewrite H.
Qed.

Lemma parseMentions_wildcard_witness :
  has_wildcard "Looks good @Leo @leo @ALL please"
  /\ parseMentions "Looks good @Leo @leo @ALL please" = all_agents.
Proof.
  assert (H : has_wildcard "Looks good @Leo @leo @ALL please").
  { exists "Looks good @Leo @leo ", "@ALL", " please".
    split; reflexivity. }
  split; [exact H | exact (parseMentions_wildcard _ H)].
Defined.

(** ** Patches *)

Lemma set_read_id (m : Msg.t) : Msg._id (Msg.set_read m) = Msg._id m.
Proof. reflexivity. Qed.

Lemma mark_id (id : Id) (m : Msg.t) : Msg._id (mark id m) = Msg._id m.
Proof. unfold mark. now destruct (Msg._id m =? id)%nat. Qed.

Lemma map_mark_ids (id : Id) (ms : list Msg.t) :
  map Msg._id (map (mark id) ms) = map Msg._id ms.
Proof.
  rewrite map_map. apply map_ext. intros m. apply mark_id.
Qed.

Lemma map_mark_absent (id : Id) (ms : list Msg.t) :
  ~ In id (map Msg._id ms) -> map (mark id) ms = ms.
Proof.
  induction ms as [|m r IH]; simpl; intros H; [reflexivity|].
  unfold mark at 1. destruct (Nat.eqb_spec (Msg._id m) id) as [E|E].
  - exfalso. apply H. now left.
  - f_equal. apply IH. intros Hin. apply H. now right.
Qed.

(** With distinct ids, the patch of an existing document rewrites exactly
    the documents of that id. *)
Lemma patch_read_present (id : Id) (ms : list Msg.t) :
  NoDup (map Msg._id ms) -> In id (map Msg._id ms) ->
  patch_read id ms = Some (map (mark id) ms).
Proof.
  induction ms as [|m r IH]; simpl; intros Hnd Hin; [contradiction|].
  inversion Hnd as [|? ? Hnotin Hnd']; subst.
  unfold mark at 1. destruct (Nat.eqb_spec (Msg._id m) id) as [E|E].
  - subst id. now rewrite map_mark_absent.
  - destruct Hin as [Hin|Hin]; [contradiction|].
    now rewrite IH.
Qed.

Lemma patch_read_absent (id : Id) (ms : list Msg.t) :
  ~ In id (map Msg._id ms) -> patch_read id ms = None.
Proof.
  induction ms as [|m r IH]; simpl; intros H; [reflexivity|].
  destruct (Nat.eqb_spec (Msg._id m) id) as [E|E].
  - exfalso. apply H. now left.
  - rewrite IH; [reflexivity|]. intros Hin. apply H. now right.
Qed.

Lemma mark_all_nil (m : Msg.t) : mark_all [] m = m.
Proof. reflexivity. Qed.

Lemma set_read_idem (m : Msg.t) :
  Msg.set_read (Msg.set_read m) = Msg.set_read m.
Proof. reflexivity. Qed.

Lemma mark_all_cons (i : Id) (ids : list Id) (m : Msg.t) :
  mark_all ids (mark i m) = mark_all (i :: ids) m.
Proof.
  unfold mark_all, mark. cbn [existsb].
  destruct (Nat.eqb_spec (Msg._id m) i) as [E|E]; cbn [orb].
  - rewrite set_read_id, set_read_idem.
    now destruct (existsb (Nat.eqb (Msg._id m)) ids).
  - reflexivity.
Qed.

(** The store with its message table replaced. *)
Lemma db_patch_read_present (st : Store) (id : Id) :
  NoDup (map Msg._id (unifiedMessages st)) ->
  In id (map Msg._id (unifiedMessages st)) ->
  db_patch_read st id =
  Ok (mkStore (agents st) (tasks st) (map (mark id) (unifiedMessages st))
        (agentMessages st) (notifications st) (activityEvents st)
        (nextId st)).
Proof.
  intros Hnd Hin. unfold db_patch_read.
  now rewrite patch_read_present.
Qed.

(** The sweep loop succeeds on documents of the table and marks each. *)
Lemma patch_each_marks (toMark : list Msg.t) :
  forall st,
    NoDup (map Msg._id (unifiedMessages st)) ->
    incl (map Msg._id toMark) (map Msg._id (unifiedMessages st)) ->
    patch_each toMark st =
    Ok (mkStore (agents st) (tasks st)
          (map (mark_all (map Msg._id toMark)) (unifiedMessages st))
          (agentMessages st) (notifications st) (activityEvents st)
          (nextId st)).
Proof.
  induction toMark as [|x r IH]; intros st Hnd Hincl.
  - simpl. destruct st; simpl. f_equal. f_equal.
    symmetry. rewrite <- (map_id unifiedMessages0) at 2.
    apply map_ext. intros m. apply mark_all_nil.
  - cbn [patch_each map]. rewrite db_patch_read_present;
      [| exact Hnd | apply Hincl; now left].
    cbn [bind]. rewrite IH; cbn [unifiedMessages].
    + cbn [agents tasks agentMessages notifications activityEvents nextId].
      f_equal. f_equal. rewrite map_map. apply map_ext.
      intros m. apply mark_all_cons.
    + now rewrite map_mark_ids.
    + rewrite map_mark_ids. intros i Hi. apply Hincl. now right.
Qed.

(** ** The bulk sweep *)

Lemma filter_none {A} (f : A -> bool) (l : list A) :
  (forall x, In x l -> f x = false) -> filter f l = [].
Proof.
  induction l as [|x r IH]; simpl; intros H; [reflexivity|].
  rewrite (H x) by now left. apply IH. intros y Hy. apply H. now right.
Qed.

Lemma existsb_id_of (m : Msg.t) (l : list Msg.t) :
  In m l -> existsb (Nat.eqb (Msg._id m)) (map Msg._id l) = true.
Proof.
  intros H. apply existsb_exists. exists (Msg._id m). split.
  - now apply in_map.
  - apply Nat.eqb_refl.
Qed.

(** [markAllRead] returns normally on a well-formed store, and leaves the
    message table with every swept document marked. *)
Lemma markAllRead_ok (st : Store) (agentName : string) :
  wf_store st ->
  markAllRead st agentName =
  Ok (mkStore (agents st) (tasks st)
        (map (mark_all (swept_ids st (toLowerCase agentName)))
           (unifiedMessages st))
        (agentMessages st) (notifications st) (activityEvents st)
        (nextId st),
      List.length (by_to_agent_unread st (toLowerCase agentName))
      + List.length (sweep_mentions st (toLowerCase agentName))).
Proof.
  intros (Hnd & _ & _). unfold markAllRead. cbv zeta.
  rewrite patch_each_marks.
  - cbn [bind]. now rewrite length_app.
  - exact Hnd.
  - intros i Hi. apply in_map_iff in Hi. destruct Hi as (m & <- & Hm).
    apply in_map. apply in_app_or in Hm.
    destruct Hm as [Hm|Hm]; apply filter_In in Hm; tauto.
Qed.

(** C6. On a well-formed store, [markAllRead] for an agent returns
    normally, and [getUnreadCount] for the same agent, called on the store
    it leaves, reports no unread DM, no unread mention and a total of
    zero. *)
Theorem markAllRead_then_getUnreadCount (st : Store) (agentName : string) :
  wf_store st ->
  exists st' marked,
    markAllRead st agentName = Ok (st', marked)
    /\ getUnreadCount st' agentName = Count.mk 0 0 0.
Proof.
  intros Hwf. eexists. eexists. split.
  - apply markAllRead_ok. exact Hwf.
  - unfold getUnreadCount, by_to_agent_unread, unread_mentions.
    cbv zeta. cbn [unifiedMessages].
    set (name := toLowerCase agentName).
    assert (Hdm : filter
              (fun m => opt_eqb (Msg.toAgent m) name && read_is_false m)
              (map (mark_all (swept_ids st name)) (unifiedMessages st)) = []).
    { apply filter_none. intros x Hx.
      apply in_map_iff in Hx. destruct Hx as (m & <- & Hm).
      unfold mark_all.
      destruct (existsb (Nat.eqb (Msg._id m)) (swept_ids st name)) eqn:He.
      - cbn. apply andb_false_r.
      - destruct (opt_eqb (Msg.toAgent m) name && read_is_false m) eqn:Hp;
          [| reflexivity].
        exfalso. unfold swept_ids in He.
        rewrite existsb_id_of in He; [discriminate|].
        apply in_or_app. left. unfold by_to_agent_unread.
        apply filter_In. now split. }
    assert (Hmn : filter
              (fun m => is_comment m && not_read m
                        && mentions_include m name
                        && negb (Msg.fromAgent m =? name))
              (map (mark_all (swept_ids st name)) (unifiedMessages st)) = []).
    { apply filter_none. intros x Hx.
      apply in_map_iff in Hx. destruct Hx as (m & <- & Hm).
      unfold mark_all.
      destruct (existsb (Nat.eqb (Msg._id m)) (swept_ids st name)) eqn:He.
      - cbn. now rewrite andb_false_r.
      - destruct (is_comment m && not_read m && mentions_include m name)
          eqn:Hp; [| reflexivity].
        exfalso. unfold swept_ids in He.
        rewrite existsb_id_of in He; [discriminate|].
        apply in_or_app. right. unfold sweep_mentions.
        apply filter_In. now split. }
    rewrite Hdm, Hmn. reflexivity.
Qed.

(** ** Notification fan-out of a comment *)

Lemma agent_id_inj (ags : list Agent.t) (a b : Agent.t) :
  NoDup (map Agent._id ags) -> In a ags -> In b ags ->
  Agent._id a = Agent._id b -> a = b.
Proof.
  induction ags as [|c l IH]; [contradiction|].
  simpl. intros Hnd Ha Hb Heq.
  inversion Hnd as [|? ? Hnot Hnd']; subst.
  destruct Ha as [->|Ha], Hb as [->|Hb].
  - reflexivity.
  - exfalso. apply Hnot. rewrite Heq. now apply in_map.
  - exfalso. apply Hnot. rewrite <- Heq. now apply in_map.
  - now apply IH.
Qed.

(** Two names that resolve to agents of one id are one name. *)
Lemma find_agent_name_inj (ags : list Agent.t) (x y : string)
    (a b : Agent.t) :
  NoDup (map Agent._id ags) ->
  find_agent ags x = Some a -> find_agent ags y = Some b ->
  Agent._id a = Agent._id b -> x = y.
Proof.
  unfold find_agent. intros Hnd Hx Hy Heq.
  apply find_some in Hx, Hy.
  destruct Hx as [Ha Hx], Hy as [Hb Hy].
  assert (a = b) by (eapply agent_id_inj; eassumption). subst b.
  apply String.eqb_eq in Hx, Hy. congruence.
Qed.

Section Fanout.
Variables (ags : list Agent.t) (agent : Agent.t).
Variables (lower linearId content : string) (taskId : Id) (now : Z).

Local Abbreviation step :=
  (notify_mention ags agent lower linearId content taskId now).
Local Abbreviation out :=
  (fanout ags agent lower linearId content taskId now).

(** The loop only appends to [notifications] and advances the counter. *)
Lemma fold_notify_mention (mentions : list string) :
  forall st,
    fold_left step mentions st =
    mkStore (agents st) (tasks st) (unifiedMessages st) (agentMessages st)
      (notifications st ++ out (nextId st) mentions) (activityEvents st)
      (nextId st + List.length (out (nextId st) mentions)).
Proof.
  induction mentions as [|x r IH]; intros st.
  - cbn [fold_left fanout List.length]. rewrite app_nil_r, Nat.add_0_r.
    now destruct st.
  - cbn [fold_left fanout]. unfold notify_mention at 2.
    destruct (x =? lower); [apply IH|].
    destruct (find_agent ags x) as [ma|]; [| apply IH].
    rewrite IH. unfold insert_notification.
    cbn [agents tasks unifiedMessages agentMessages notifications
         activityEvents nextId List.length].
    rewrite <- app_assoc. cbn [app]. f_equal. lia.
Qed.

(** Every notification of the fan-out is an unread mention from [agent],
    addressed to the agent that a mention name other than the author's
    resolves to. *)
Lemma fanout_shape (mentions : list string) :
  forall next n,
    In n (out next mentions) ->
    Notif.type n = NMention /\ Notif.read n = false
    /\ Notif.from n = Agent._id agent
    /\ exists x ma,
         In x mentions /\ x <> lower /\ find_agent ags x = Some ma
         /\ Notif.to n = Agent._id ma.
Proof.
  induction mentions as [|x r IH]; intros next n Hn; [contradiction|].
  cbn [fanout] in Hn.
  assert (Hrec : forall k, In n (out k r) ->
            Notif.type n = NMention /\ Notif.read n = false
            /\ Notif.from n = Agent._id agent
            /\ exists y ma,
                 In y (x :: r) /\ y <> lower /\ find_agent ags y = Some ma
                 /\ Notif.to n = Agent._id ma).
  { intros k Hk. destruct (IH k n Hk) as (H1 & H2 & H3 & y & ma & H4 & H5).
    repeat split; try assumption. exists y, ma. split; [now right | exact H5]. }
  destruct (String.eqb_spec x lower) as [E|E]; [now apply (Hrec next)|].
  destruct (find_agent ags x) as [ma|] eqn:Hf; [| now apply (Hrec next)].
  destruct Hn as [<- | Hn]; [| now apply (Hrec (S next))].
  cbn. repeat split. exists x, ma. repeat split; try assumption. now left.
Qed.

Lemma fanout_none_for (mentions : list string) (x : string) (ma : Agent.t) :
  NoDup (map Agent._id ags) -> find_agent ags x = Some ma ->
  ~ In x mentions ->
  forall next,
    filter (fun n => (Notif.to n =? Agent._id ma)%nat) (out next mentions)
    = [].
Proof.
  intros Hids Hfind Hx next. apply filter_none. intros n Hn.
  apply fanout_shape in Hn.
  destruct Hn as (_ & _ & _ & y & mb & Hy & _ & Hfy & Hto).
  apply Nat.eqb_neq. rewrite Hto. intros Heq. apply Hx.
  now rewrite (find_agent_name_inj ags x y ma mb Hids Hfind Hfy).
Qed.

(** A mention name that is not the author's and resolves to [ma] yields
    exactly one notification addressed to [ma], provided the names of the
    list are distinct and so are the ids of the agents. *)
Lemma fanout_exactly_one (mentions : list string) (x : string)
    (ma : Agent.t) :
  NoDup mentions -> NoDup (map Agent._id ags) ->
  In x mentions -> x <> lower -> find_agent ags x = Some ma ->
  forall next,
    exists n,
      filter (fun n => (Notif.to n =? Agent._id ma)%nat) (out next mentions)
      = [n].
Proof.
  intros Hnd Hids Hin Hne Hfind.
  induction mentions as [|y r IH]; intros next; [contradiction|].
  inversion Hnd as [|? ? Hnot Hnd']; subst.
  cbn [fanout]. destruct Hin as [-> | Hin].
  - destruct (String.eqb_spec x lower) as [E|_]; [contradiction|].
    rewrite Hfind. cbn [filter Notif.to]. rewrite Nat.eqb_refl.
    rewrite (fanout_none_for r x ma) by assumption. eexists. reflexivity.
  - destruct (String.eqb_spec y lower) as [E|E]; [now apply IH|].
    destruct (find_agent ags y) as [mb|] eqn:Hfy; [| now apply IH].
    cbn [filter Notif.to].
    destruct (Nat.eqb_spec (Agent._id mb) (Agent._id ma)) as [Heq|Heq];
      [| now apply IH].
    exfalso. apply Hnot.
    now rewrite (find_agent_name_inj ags y x mb ma Hids Hfy Hfind).
Qed.

End Fanout.

Lemma set_spread_NoDup (l : list string) :
  forall seen, NoDup seen -> NoDup (set_spread seen l).
Proof.
  induction l as [|x r IH]; intros seen Hs; [exact Hs|].
  cbn [set_spread]. destruct (includes x seen) eqn:Hi.
  - now apply IH.
  - apply IH. apply NoDup_app; [exact Hs | repeat constructor; intros [] |].
    intros y Hy [<- | []].
    apply includes_In in Hy. congruence.
Qed.

(** The mention set has no repeated name. *)
Lemma parseMentions_NoDup (content : string) :
  NoDup (parseMentions content).
Proof.
  unfold parseMentions. cbv zeta.
  destruct (includes "all" _).
  - unfold all_agents.
    repeat (constructor; [simpl; intuition discriminate|]). constructor.
  - apply set_spread_NoDup. constructor.
Qed.

(** ** Posting a comment *)

(** What [postComment] does when the ticket exists and the author
    resolves. *)
Lemma postComment_known (st : Store) (now : Z) (taskId : Id)
    (agentName content : string) (task : Task.t) (agent : Agent.t) :
  get_task st taskId = Some task ->
  find_agent (agents st) (toLowerCase agentName) = Some agent ->
  exists st' ev linearId,
    postComment st now taskId agentName content =
    Ok (st', CommentRet.mk (nextId st) taskId (parseMentions content)
               (Task.linearIdentifier task))
    /\ agents st' = agents st
    /\ unifiedMessages st' =
       (unifiedMessages st ++
        [Msg.mk (nextId st) (toLowerCase agentName) None (Some taskId)
           (Task.linearIdentifier task) content TComment
           (match parseMentions content with
            | [] => None
            | _ => Some (parseMentions content)
            end) None None now])%list
    /\ activityEvents st' = (activityEvents st ++ [ev])%list
    /\ Event.agentId ev = Agent._id agent
    /\ notifications st' =
       (notifications st ++
        fanout (agents st) agent (toLowerCase agentName) linearId content
          taskId now (S (S (nextId st))) (parseMentions content))%list
    /\ nextId st < nextId st'.
Proof.
  intros Htask Hagent. unfold postComment. rewrite Htask. cbv zeta.
  unfold insert_message. cbn [agents]. rewrite Hagent.
  rewrite fold_notify_mention. unfold insert_event.
  cbn [agents tasks unifiedMessages agentMessages notifications
       activityEvents nextId].
  eexists. eexists. eexists.
  split; [reflexivity|].
  cbn [agents tasks unifiedMessages agentMessages notifications
       activityEvents nextId].
  repeat split; try reflexivity. lia.
Qed.

(** C9. When the ticket exists and the sender name resolves to no agent,
    [postComment] returns normally with the id of the new message, the
    ticket and the parsed mention set; the comment is appended to the
    message table, and neither a notification nor an activity-log entry is
    written. *)
Theorem postComment_unknown_sender (st : Store) (now : Z) (taskId : Id)
    (agentName content : string) (task : Task.t) :
  get_task st taskId = Some task ->
  find_agent (agents st) (toLowerCase agentName) = None ->
  exists st',
    postComment st now taskId agentName content =
    Ok (st', CommentRet.mk (nextId st) taskId (parseMentions content)
               (Task.linearIdentifier task))
    /\ unifiedMessages st' =
       (unifiedMessages st ++
        [Msg.mk (nextId st) (toLowerCase agentName) None (Some taskId)
           (Task.linearIdentifier task) content TComment
           (match parseMentions content with
            | [] => None
            | _ => Some (parseMentions content)
            end) None None now])%list
    /\ notifications st' = notifications st
    /\ activityEvents st' = activityEvents st.
Proof.
  intros Htask Hagent. unfold postComment. rewrite Htask. cbv zeta.
  unfold insert_message. cbn [agents]. rewrite Hagent.
  eexists. split; [reflexivity|]. repeat split.
Qed.

Lemma postComment_unknown_sender_witness :
  exists st',
    postComment Sample.store0 1000 10 "ghost" "ping @max" =
    Ok (st', CommentRet.mk 100 10 ["max"] (Some "AGT-9"))
    /\ unifiedMessages st' =
       [Msg.mk 100 "ghost" None (Some 10) (Some "AGT-9") "ping @max"
          TComment (Some ["max"]) None None 1000]
    /\ notifications st' = []
    /\ activityEvents st' = [].
Proof.
  exact (postComment_unknown_sender Sample.store0 1000 10 "ghost" "ping @max"
           Sample.agt9 eq_refl eq_refl).
Defined.

(** C4, as the code has it. When the ticket exists, the agent ids are
    distinct and the sender resolves to a known agent, [postComment]
    writes, for every mention name of the body that is not the sender's and
    resolves to an agent X, exactly one notification addressed to X, an
    unread mention from the sender; and it writes no notification
    addressed to the sender. *)
Theorem postComment_mention_fanout (st : Store) (now : Z) (taskId : Id)
    (agentName content : string) (task : Task.t) (agent : Agent.t) :
  NoDup (map Agent._id (agents st)) ->
  get_task st taskId = Some task ->
  find_agent (agents st) (toLowerCase agentName) = Some agent ->
  exists st' r new,
    postComment st now taskId agentName content = Ok (st', r)
    /\ notifications st' = (notifications st ++ new)%list
    /\ (forall n, In n new -> Notif.to n <> Agent._id agent)
    /\ (forall x X,
          In x (parseMentions content) ->
          find_agent (agents st) x = Some X ->
          x <> toLowerCase agentName ->
          exists n,
            filter (fun n => (Notif.to n =? Agent._id X)%nat) new = [n]
            /\ Notif.type n = NMention /\ Notif.read n = false
            /\ Notif.from n = Agent._id agent).
Proof.
  intros Hids Htask Hagent.
  destruct (postComment_known st now taskId agentName content task agent
              Htask Hagent)
    as (st' & ev & linearId & Hpost & _ & _ & _ & _ & Hn & _).
  eexists. eexists. eexists. split; [exact Hpost|].
  split; [exact Hn|]. split.
  - intros n Hin Hto. apply fanout_shape in Hin.
    destruct Hin as (_ & _ & _ & y & ma & _ & Hy & Hfy & Hto').
    apply Hy.
    apply (find_agent_name_inj (agents st) y (toLowerCase agentName)
             ma agent Hids Hfy Hagent).
    congruence.
  - intros x X Hx HX Hne.
    destruct (fanout_exactly_one (agents st) agent (toLowerCase agentName)
                linearId content taskId now (parseMentions content) x X
                (parseMentions_NoDup content) Hids Hx Hne HX
                (S (S (nextId st)))) as [n Hf].
    exists n. split; [exact Hf|].
    assert (Hin : In n (filter (fun n => (Notif.to n =? Agent._id X)%nat)
                          (fanout (agents st) agent (toLowerCase agentName)
                             linearId content taskId now
                             (S (S (nextId st))) (parseMentions content)))).
    { rewrite Hf. now left. }
    apply filter_In in Hin. destruct Hin as [Hin _].
    apply fanout_shape in Hin. tauto.
Qed.

Lemma postComment_mention_fanout_witness :
  exists st' r new,
    postComment Sample.store0 1000 10 "Sam" "@max @leo @sam look" = Ok (st', r)
    /\ notifications st' = (notifications Sample.store0 ++ new)%list
    /\ (forall n, In n new -> Notif.to n <> Agent._id Sample.sam)
    /\ (forall x X,
          In x (parseMentions "@max @leo @sam look") ->
          find_agent (agents Sample.store0) x = Some X ->
          x <> toLowerCase "Sam" ->
          exists n,
            filter (fun n => (Notif.to n =? Agent._id X)%nat) new = [n]
            /\ Notif.type n = NMention /\ Notif.read n = false
            /\ Notif.from n = Agent._id Sample.sam).
Proof.
  apply (postComment_mention_fanout Sample.store0 1000 10 "Sam"
           "@max @leo @sam look" Sample.agt9 Sample.sam).
  - repeat (constructor; [simpl; intuition lia|]). constructor.
  - reflexivity.
  - reflexivity.
Defined.

(** C4, as stated, fails when the sender resolves to no agent: Max is
    known, is named in the body and is not the sender, and yet no
    notification is written. *)
Lemma postComment_unknown_sender_notifies_nobody :
  find_agent (agents Sample.store0) "max" = Some Sample.max
  /\ In "max" (parseMentions "ping @max")
  /\ "max" <> toLowerCase "ghost"
  /\ exists st' r,
       postComment Sample.store0 1000 10 "ghost" "ping @max" = Ok (st', r)
       /\ filter (fun n => (Notif.to n =? Agent._id Sample.max)%nat)
            (notifications st') = [].
Proof.
  split; [reflexivity|]. split; [now left|]. split; [discriminate|].
  eexists. eexists. split; reflexivity.
Qed.

(** ** Sending a DM *)

(** [sendDM] always returns normally and always appends the message. *)
Lemma sendDM_effect (st : Store) (now : Z) (from to content : string)
    (relatedTaskId : option Id) (priority_arg : option Priority) :
  exists st',
    sendDM st now from to content relatedTaskId priority_arg =
    Ok (st', DmRet.mk (nextId st) (toLowerCase from) (toLowerCase to)
               (priority_or_normal priority_arg))
    /\ agents st' = agents st
    /\ unifiedMessages st' =
       (unifiedMessages st ++
        [dm_doc st now from to content relatedTaskId
           (priority_or_normal priority_arg)])%list
    /\ notifications st' =
       (notifications st ++
        dm_notifications st now from to content relatedTaskId
          (priority_or_normal priority_arg))%list
    /\ (activityEvents st' = activityEvents st <->
        dm_notifications st now from to content relatedTaskId
          (priority_or_normal priority_arg) = [])
    /\ nextId st < nextId st'.
Proof.
  unfold sendDM, dm_notifications, dm_doc. cbv zeta.
  unfold insert_message. cbn [agents].
  destruct (find_agent (agents st) (toLowerCase from)) as [f|];
    [destruct (find_agent (agents st) (toLowerCase to)) as [t|]|];
    eexists; (split; [reflexivity|]);
    unfold insert_event, insert_notification;
    cbn [agents tasks unifiedMessages agentMessages notifications
         activityEvents nextId];
    repeat split; try reflexivity; try lia;
    try (now rewrite app_nil_r); try discriminate.
  intros H. exfalso.
  apply (f_equal (@List.length Event.t)) in H.
  rewrite length_app in H. simpl in H. lia.
Qed.

(** After [sendDM], the new message heads the recipient's list, newest
    first, whether or not the list is restricted to unread messages. *)
Lemma getDMs_after_append (st st' : Store) (now : Z)
    (from to content : string) (relatedTaskId : option Id) (p : Priority)
    (unreadOnly : bool) :
  agents st' = agents st ->
  unifiedMessages st' =
    (unifiedMessages st ++ [dm_doc st now from to content relatedTaskId p])%list ->
  getDMs st' to unreadOnly =
  enrich (agents st) (dm_doc st now from to content relatedTaskId p)
    :: getDMs st to unreadOnly.
Proof.
  intros Ha Hm. unfold getDMs, by_to_agent_unread, by_to_agent. cbv zeta.
  rewrite Ha, Hm.
  destruct unreadOnly; rewrite filter_app, rev_app_distr;
    unfold dm_doc at 1;
    cbn [filter Msg.toAgent opt_eqb read_is_false Msg.read andb];
    rewrite String.eqb_refl; reflexivity.
Qed.

(** C8. [sendDM] returns normally. Sent with priority [urgent], the
    message heads [getDMs] of the recipient with priority [urgent] and the
    body it was sent with, and every notification written for it has a
    title that contains the urgent marker. Sent without a priority, the
    call returns priority [normal], the message heads [getDMs] with
    priority [normal], and every notification written for it carries the
    plain title [DM from <sender>]. In both cases exactly one notification
    is written when both names resolve. *)
Theorem sendDM_priority_roundtrip (st : Store) (now : Z)
    (from to content : string) (relatedTaskId : option Id)
    (unreadOnly : bool) :
  (exists st' id e new,
      sendDM st now from to content relatedTaskId (Some Urgent) =
      Ok (st', DmRet.mk id (toLowerCase from) (toLowerCase to) Urgent)
      /\ getDMs st' to unreadOnly = e :: getDMs st to unreadOnly
      /\ Msg._id (Enriched.doc e) = id
      /\ Msg.priority (Enriched.doc e) = Some Urgent
      /\ Msg.content (Enriched.doc e) = content
      /\ notifications st' = (notifications st ++ new)%list
      /\ (forall n, In n new ->
            Notif.type n = NDm /\ contains urgent_marker (Notif.title n))
      /\ (forall f t,
            find_agent (agents st) (toLowerCase from) = Some f ->
            find_agent (agents st) (toLowerCase to) = Some t ->
            exists n, new = [n] /\ Notif.to n = Agent._id t
                      /\ Notif.read n = false))
  /\
  (exists st' id e new,
      sendDM st now from to content relatedTaskId None =
      Ok (st', DmRet.mk id (toLowerCase from) (toLowerCase to) Normal)
      /\ getDMs st' to unreadOnly = e :: getDMs st to unreadOnly
      /\ Msg._id (Enriched.doc e) = id
      /\ Msg.priority (Enriched.doc e) = Some Normal
      /\ Msg.content (Enriched.doc e) = content
      /\ notifications st' = (notifications st ++ new)%list
      /\ (forall n, In n new ->
            Notif.type n = NDm
            /\ exists f,
                 find_agent (agents st) (toLowerCase from) = Some f
                 /\ Notif.title n = "DM from " ++ Agent.name f)
      /\ (forall f t,
            find_agent (agents st) (toLowerCase from) = Some f ->
            find_agent (agents st) (toLowerCase to) = Some t ->
            exists n, new = [n] /\ Notif.to n = Agent._id t
                      /\ Notif.read n = false)).
Proof.
  split.
  - destruct (sendDM_effect st now from to content relatedTaskId
                (Some Urgent)) as (st' & Hs & Ha & Hm & Hn & _ & _).
    cbn [priority_or_normal] in *.
    exists st', (nextId st). eexists. eexists.
    split; [exact Hs|].
    split; [apply getDMs_after_append; eassumption|].
    repeat (split; [reflexivity|]).
    split; [exact Hn|]. unfold dm_notifications. split.
    + intros n Hin.
      destruct (find_agent (agents st) (toLowerCase from)) as [f|];
        [destruct (find_agent (agents st) (toLowerCase to)) as [t|]|];
        try contradiction.
      destruct Hin as [<- | []]. split; [reflexivity|].
      exists "", (" DM from " ++ Agent.name f). reflexivity.
    + intros f t -> ->. eexists. repeat split.
  - destruct (sendDM_effect st now from to content relatedTaskId None)
      as (st' & Hs & Ha & Hm & Hn & _ & _).
    cbn [priority_or_normal] in *.
    exists st', (nextId st). eexists. eexists.
    split; [exact Hs|].
    split; [apply getDMs_after_append; eassumption|].
    repeat (split; [reflexivity|]).
    split; [exact Hn|]. unfold dm_notifications. split.
    + intros n Hin.
      destruct (find_agent (agents st) (toLowerCase from)) as [f|];
        [destruct (find_agent (agents st) (toLowerCase to)) as [t|]|];
        try contradiction.
      destruct Hin as [<- | []]. split; [reflexivity|].
      exists f. split; reflexivity.
    + intros f t -> ->. eexists. repeat split.
Qed.

(** The urgent and the plain DM of the sample store, as [getDMs] of Sam
    shows them. *)
Example getDMs_sample :
  map (fun e => (Msg.priority (Enriched.doc e), Enriched.fromAgentName e))
      (getDMs Sample.store3 "Sam" true)
  = [(Some Normal, "Leo"); (Some Urgent, "Max")]
  /\ map Notif.title (notifications Sample.store3)
     = ["Sam mentioned you"; "Sam mentioned you"; "Sam mentioned you";
        "Sam mentioned you"; "Sam mentioned you";
        urgent_marker ++ " DM from Max"; "DM from Leo"].
Proof. split; reflexivity. Qed.

Lemma sendDM_priority_roundtrip_witness :
  exists st' id n,
    sendDM Sample.store0 1002 "Max" "Sam" "ship it" (Some 10) (Some Urgent) =
    Ok (st', DmRet.mk id "max" "sam" Urgent)
    /\ notifications st' = [n]
    /\ Notif.to n = Agent._id Sample.sam
    /\ contains urgent_marker (Notif.title n).
Proof.
  destruct (sendDM_priority_roundtrip Sample.store0 1002 "Max" "Sam"
              "ship it" (Some 10) true)
    as [(st' & id & e & new & Hs & _ & _ & _ & _ & Hn & Ht & H1) _].
  destruct (H1 Sample.max Sample.sam eq_refl eq_refl) as (n & Hnew & Hto & _).
  subst new. exists st', id, n.
  split; [exact Hs|]. split; [exact Hn|]. split; [exact Hto|].
  apply Ht. now left.
Defined.

(** ** The stable sort *)

Section SortFacts.
Context {A : Type} (cmp : A -> A -> Z) (key : A -> Z).
Hypothesis cmp_key : forall a b, cmp a b = (key a - key b)%Z.

Lemma insert_sorted_perm (x : A) (l : list A) :
  Permutation (x :: l) (insert_sorted cmp x l).
Proof.
  induction l as [|y r IH]; cbn [insert_sorted]; [reflexivity|].
  destruct (cmp x y <=? 0)%Z; [reflexivity|].
  rewrite perm_swap. now constructor.
Qed.

Lemma js_sort_perm (l : list A) : Permutation l (js_sort cmp l).
Proof.
  induction l as [|x r IH]; cbn [js_sort fold_right]; [constructor|].
  rewrite <- insert_sorted_perm. now constructor.
Qed.

Lemma js_sort_In (l : list A) (x : A) : In x (js_sort cmp l) <-> In x l.
Proof.
  split; apply Permutation_in;
    [symmetry |]; apply js_sort_perm.
Qed.

Lemma js_sort_length (l : list A) :
  List.length (js_sort cmp l) = List.length l.
Proof. symmetry. apply Permutation_length, js_sort_perm. Qed.

Lemma insert_sorted_sorted (x : A) (l : list A) :
  StronglySorted (fun a b => (key a <= key b)%Z) l ->
  StronglySorted (fun a b => (key a <= key b)%Z) (insert_sorted cmp x l).
Proof.
  induction 1 as [|y r Hs IH Hall]; cbn [insert_sorted].
  - repeat constructor.
  - destruct (Z.leb_spec (cmp x y) 0) as [Hle|Hgt]; rewrite cmp_key in *.
    + constructor; [now constructor|].
      constructor; [lia|].
      eapply Forall_impl; [| exact Hall]. cbv beta. intros; lia.
    + constructor; [exact IH|].
      rewrite Forall_forall. intros z Hz.
      apply (Permutation_in _ (Permutation_sym (insert_sorted_perm x r)))
        in Hz.
      destruct Hz as [<- | Hz]; [lia|].
      rewrite Forall_forall in Hall. now apply Hall.
Qed.

Lemma js_sort_sorted (l : list A) :
  StronglySorted (fun a b => (key a <= key b)%Z) (js_sort cmp l).
Proof.
  induction l as [|x r IH]; cbn [js_sort fold_right]; [constructor|].
  now apply insert_sorted_sorted.
Qed.

(** The sort is stable: a list that is already in order is returned as it
    is, entries of equal key included. *)
Lemma js_sort_stable (l : list A) :
  StronglySorted (fun a b => (key a <= key b)%Z) l -> js_sort cmp l = l.
Proof.
  induction 1 as [|x r Hs IH Hall]; [reflexivity|].
  cbn [js_sort fold_right]. fold (js_sort cmp r). rewrite IH.
  destruct r as [|y r']; [reflexivity|].
  cbn [insert_sorted]. rewrite cmp_key.
  inversion Hall as [|? ? Hxy _]; subst.
  destruct (Z.leb_spec (key x - key y) 0); [reflexivity | lia].
Qed.

End SortFacts.


Lemma StronglySorted_map {A B} (f : A -> B) (R : B -> B -> Prop)
    (l : list A) :
  StronglySorted (fun a b => R (f a) (f b)) l ->
  StronglySorted R (map f l).
Proof.
  induction 1 as [|a r Hs IH Hall]; cbn [map]; constructor;
    [exact IH|].
  rewrite Forall_forall in *. intros b Hb.
  apply in_map_iff in Hb. destruct Hb as (c & <- & Hc). now apply Hall.
Qed.


(** ** Conversations *)

Lemma enrich_doc (ags : list Agent.t) (l : list Msg.t) :
  map Enriched.doc (map (enrich ags) l) = l.
Proof.
  rewrite map_map. rewrite <- (map_id l) at 2. now apply map_ext.
Qed.

Example getConversation_sample :
  map (fun e => Msg.content (Enriched.doc e))
      (getConversation
         (Sample.after
            (sendDM (Sample.after
                       (sendDM Sample.store3 1004 "sam" "max" "done" None None))
               1005 "Max" "sam" "thanks" None None))
         "MAX" "Sam" (Some 2%Z))
  = ["done"; "thanks"].
Proof. reflexivity. Qed.



(** ** Unresolved names on the DM paths *)

(** C2, as stated, fails on the unified path: the sender is unknown and
    [sendDM] still returns normally, with the message in the table. *)
Lemma sendDM_unknown_sender_persists :
  find_agent (agents Sample.store0) (toLowerCase "ghost") = None
  /\ exists st' r,
       sendDM Sample.store0 1000 "ghost" "Sam" "hello" None None
       = Ok (st', r)
       /\ map Msg.content (unifiedMessages st') = ["hello"].
Proof.
  split; [reflexivity|]. eexists. eexists. split; reflexivity.
Qed.

(** C2, as the code has it. When the sender or the recipient name resolves
    to no agent, the legacy [sendDirectMessage] fails, before any write,
    with the not-found error of the missing party: the sender's when the
    sender is missing, the recipient's when only the recipient is; the
    unified [sendDM] returns normally, appends the message, and writes
    neither a notification nor an activity-log entry. *)
Theorem unresolved_dm_party (st : Store) (now : Z)
    (from to content : string) (relatedTaskId : option Id)
    (priority_arg : option Priority) :
  find_agent (agents st) (toLowerCase from) = None
  \/ find_agent (agents st) (toLowerCase to) = None ->
  (find_agent (agents st) (toLowerCase from) = None ->
   sendDirectMessage st now from to content relatedTaskId priority_arg
   = Err (SenderNotFound from))
  /\ (find_agent (agents st) (toLowerCase from) <> None ->
      sendDirectMessage st now from to content relatedTaskId priority_arg
      = Err (RecipientNotFound to))
  /\ (exists st' r,
        sendDM st now from to content relatedTaskId priority_arg
        = Ok (st', r)
        /\ unifiedMessages st' =
           (unifiedMessages st ++
            [dm_doc st now from to content relatedTaskId
               (priority_or_normal priority_arg)])%list
        /\ notifications st' = notifications st
        /\ activityEvents st' = activityEvents st).
Proof.
  intros H. split; [| split].
  - intros Hf. unfold sendDirectMessage. cbv zeta. now rewrite Hf.
  - intros Hf. unfold sendDirectMessage. cbv zeta.
    destruct (find_agent (agents st) (toLowerCase from)) as [f|];
      [| congruence].
    destruct H as [H|H]; [discriminate|]. now rewrite H.
  - destruct (sendDM_effect st now from to content relatedTaskId
                priority_arg) as (st' & Hs & _ & Hm & Hn & He & _).
    assert (Hnone : dm_notifications st now from to content relatedTaskId
                      (priority_or_normal priority_arg) = []).
    { unfold dm_notifications.
      destruct H as [-> | ->]; [reflexivity|].
      now destruct (find_agent (agents st) (toLowerCase from)). }
    exists st'. eexists. split; [exact Hs|]. split; [exact Hm|].
    split.
    + now rewrite Hn, Hnone, app_nil_r.
    + now apply He.
Qed.

Lemma unresolved_dm_party_witness :
  sendDirectMessage Sample.store0 1000 "Max" "ghost" "hello" None None
  = Err (RecipientNotFound "ghost")
  /\ sendDirectMessage Sample.store0 1000 "ghost" "Max" "hello" None None
     = Err (SenderNotFound "ghost")
  /\ (exists st' r,
        sendDM Sample.store0 1000 "Max" "ghost" "hello" None None
        = Ok (st', r)
        /\ unifiedMessages st' =
           [dm_doc Sample.store0 1000 "Max" "ghost" "hello" None Normal]
        /\ notifications st' = []
        /\ activityEvents st' = []).
Proof.
  destruct (unresolved_dm_party Sample.store0 1000 "Max" "ghost" "hello"
              None None (or_intror eq_refl)) as (_ & Hr & Hu).
  destruct (unresolved_dm_party Sample.store0 1000 "ghost" "Max" "hello"
              None None (or_introl eq_refl)) as (Hs & _ & _).
  split; [apply Hr; discriminate|]. split; [apply Hs; reflexivity|].
  exact Hu.
Defined.

(** ** The legacy and the unified tables *)

(** C3, as stated, fails: a DM written by the legacy [sendDirectMessage]
    is not among the unified [getDMs] of its recipient. *)
Lemma legacy_dm_absent_from_getDMs :
  exists st' r,
    sendDirectMessage Sample.store0 1000 "Max" "Sam" "hello" None None
    = Ok (st', r)
    /\ getDMs st' "Sam" false = []
    /\ map (fun e => Legacy.content (LegacyEnriched.doc e))
         (getDirectMessages st' "Sam" false) = ["hello"].
Proof.
  eexists. eexists. repeat split; reflexivity.
Qed.

Lemma legacy_enrich_ext (st st' : Store) (m : Legacy.t) :
  agents st' = agents st -> tasks st' = tasks st ->
  legacy_enrich st' m = legacy_enrich st m.
Proof.
  intros Ha Ht. unfold legacy_enrich, get_agent, get_task.
  now rewrite Ha, Ht.
Qed.

(** What a successful [sendDirectMessage] writes. *)
Lemma sendDirectMessage_ok (st st' : Store) (now : Z)
    (from to content : string) (relatedTaskId : option Id)
    (priority_arg : option Priority) (r : DmRet.t) :
  sendDirectMessage st now from to content relatedTaskId priority_arg
  = Ok (st', r) ->
  exists f t,
    find_agent (agents st) (toLowerCase from) = Some f
    /\ find_agent (agents st) (toLowerCase to) = Some t
    /\ DmRet.messageId r = nextId st
    /\ agents st' = agents st /\ tasks st' = tasks st
    /\ unifiedMessages st' = unifiedMessages st
    /\ agentMessages st' =
       (agentMessages st ++
        [Legacy.mk (nextId st) (Agent._id f) (Agent._id t) content
           relatedTaskId Unread now])%list
    /\ nextId st < nextId st'.
Proof.
  unfold sendDirectMessage. cbv zeta.
  destruct (find_agent (agents st) (toLowerCase from)) as [f|];
    [| discriminate].
  destruct (find_agent (agents st) (toLowerCase to)) as [t|];
    [| discriminate].
  unfold insert_legacy, insert_notification, insert_event.
  cbn [agents tasks unifiedMessages agentMessages notifications
       activityEvents nextId].
  intros H. inversion H; subst. exists f, t.
  cbn [agents tasks unifiedMessages agentMessages nextId DmRet.messageId].
  repeat split. lia.
Qed.

(** C3, as the code has it. A DM written by the legacy
    [sendDirectMessage] goes to the legacy table only: the unified message
    table is unchanged, so [getDMs] and [getTaskComments] answer as
    before, and the message, with the body it was sent with, is among the
    legacy [getDirectMessages] of its recipient. *)
Theorem legacy_dm_stays_legacy (st st' : Store) (now : Z)
    (from to content : string) (relatedTaskId : option Id)
    (priority_arg : option Priority) (r : DmRet.t) :
  sendDirectMessage st now from to content relatedTaskId priority_arg
  = Ok (st', r) ->
  unifiedMessages st' = unifiedMessages st
  /\ (forall name unreadOnly,
        getDMs st' name unreadOnly = getDMs st name unreadOnly)
  /\ (forall taskId, getTaskComments st' taskId = getTaskComments st taskId)
  /\ (forall unreadOnly,
        exists e,
          In e (getDirectMessages st' to unreadOnly)
          /\ Legacy._id (LegacyEnriched.doc e) = DmRet.messageId r
          /\ Legacy.content (LegacyEnriched.doc e) = content).
Proof.
  intros H. apply sendDirectMessage_ok in H.
  destruct H as (f & t & Hf & Ht & Hid & Ha & Hts & Hm & Hl & _).
  split; [exact Hm|]. split.
  { intros name uo. unfold getDMs, by_to_agent_unread, by_to_agent.
    now rewrite Hm, Ha. }
  split.
  { intros tid. unfold getTaskComments. now rewrite Hm, Ha. }
  intros uo.
  exists (legacy_enrich st'
            (Legacy.mk (nextId st) (Agent._id f) (Agent._id t) content
               relatedTaskId Unread now)).
  split; [| split; [now rewrite Hid | reflexivity]].
  unfold getDirectMessages. rewrite Ha, Ht, Hl.
  apply in_map. destruct uo.
  - apply -> in_rev. apply filter_In. split.
    + apply in_or_app. right. now left.
    + cbn. now rewrite Nat.eqb_refl.
  - apply js_sort_In. apply filter_In. split.
    + apply in_or_app. right. now left.
    + cbn. apply Nat.eqb_refl.
Qed.

Lemma legacy_dm_stays_legacy_witness :
  unifiedMessages
    (Sample.after
       (sendDirectMessage Sample.store3 1004 "Max" "Sam" "hello" None None))
  = unifiedMessages Sample.store3.
Proof.
  exact (proj1 (legacy_dm_stays_legacy Sample.store3 _ 1004 "Max" "Sam"
                  "hello" None None _ eq_refl)).
Defined.

(** ** The read flag of a comment *)

Ltac solve_wf :=
  unfold wf_store; vm_compute;
  repeat split;
  repeat (constructor; [simpl; try lia; intuition lia|]);
  try constructor.

Lemma store3_wf : wf_store Sample.store3.
Proof. solve_wf. Qed.

Lemma store1_wf : wf_store Sample.store1.
Proof. solve_wf. Qed.

(** C1, as stated, fails: Sam's comment names Max and Leo; it counts as
    one unread mention for Leo, and once it is marked read (for Max, say)
    Leo's count and Leo's list are empty. *)
Lemma markRead_clears_other_agent :
  map (fun m => (Msg._id m, Msg.fromAgent m, Msg.mentions m))
      (unifiedMessages Sample.store1)
  = [(100, "sam", Some ["max"; "leo"])]
  /\ Count.mentions (getUnreadCount Sample.store1 "leo") = 1
  /\ exists st',
       markRead Sample.store1 100 = Ok (st', true)
       /\ Count.mentions (getUnreadCount st' "leo") = 0
       /\ UnreadRet.mentions (getUnread st' "leo") = [].
Proof.
  split; [reflexivity|]. split; [reflexivity|].
  eexists. repeat split; reflexivity.
Qed.

Lemma In_firstn {A} (n : nat) (l : list A) (x : A) :
  In x (firstn n l) -> In x l.
Proof.
  intros H. rewrite <- (firstn_skipn n l). apply in_or_app. now left.
Qed.

(** A patch removes the patched document from any range that asks for an
    unread document, and touches nothing else. *)
Lemma filter_after_mark (p : Msg.t -> bool) (id : Id) (l : list Msg.t) :
  (forall x, p (Msg.set_read x) = false) ->
  filter p (map (mark id) l)
  = filter (fun x => negb (Msg._id x =? id)%nat) (filter p l).
Proof.
  intros Hp. induction l as [|x r IH]; [reflexivity|].
  cbn [map filter].
  destruct (Nat.eqb_spec (Msg._id x) id) as [E|E].
  - assert (Hm : mark id x = Msg.set_read x).
    { unfold mark. apply Nat.eqb_eq in E. now rewrite E. }
    rewrite Hm, Hp. destruct (p x); [| exact IH].
    cbn [filter]. apply Nat.eqb_eq in E. rewrite E. exact IH.
  - assert (Hm : mark id x = x).
    { unfold mark. apply Nat.eqb_neq in E. now rewrite E. }
    rewrite Hm. destruct (p x); [| exact IH].
    cbn [filter]. apply Nat.eqb_neq in E. rewrite E. cbn [negb].
    now rewrite IH.
Qed.

Lemma filter_keeps_all {A} (p : A -> bool) (l : list A) :
  (forall x, In x l -> p x = true) -> filter p l = l.
Proof.
  induction l as [|x r IH]; intros H; [reflexivity|].
  cbn [filter]. rewrite (H x) by now left.
  f_equal. apply IH. intros y Hy. apply H. now right.
Qed.

Lemma NoDup_ids_filter (p : Msg.t -> bool) (l : list Msg.t) :
  NoDup (map Msg._id l) -> NoDup (map Msg._id (filter p l)).
Proof.
  induction l as [|x r IH]; intros H; [constructor|].
  inversion H as [|? ? Hnot Hnd]; subst.
  cbn [filter]. destruct (p x); [| now apply IH].
  cbn [map]. constructor; [| now apply IH].
  intros Hin. apply Hnot. apply in_map_iff in Hin.
  destruct Hin as (y & Hy & Hin). apply filter_In in Hin.
  rewrite <- Hy. apply in_map. tauto.
Qed.

(** Dropping the documents of one id from a list of distinct ids that
    holds it shortens the list by one. *)
Lemma drop_id_length (l : list Msg.t) (m : Msg.t) :
  NoDup (map Msg._id l) -> In m l ->
  List.length (filter (fun x => negb (Msg._id x =? Msg._id m)%nat) l) + 1
  = List.length l.
Proof.
  induction l as [|a r IH]; intros Hnd Hin; [contradiction|].
  inversion Hnd as [|? ? Hnot Hnd']; subst.
  cbn [filter]. destruct Hin as [-> | Hin].
  - rewrite Nat.eqb_refl. cbn [negb].
    rewrite filter_keeps_all; [cbn; lia|].
    intros y Hy. apply negb_true_iff, Nat.eqb_neq.
    intros E. apply Hnot. rewrite <- E. now apply in_map.
  - destruct (Nat.eqb_spec (Msg._id a) (Msg._id m)) as [E|E].
    + exfalso. apply Hnot. rewrite E. now apply in_map.
    + cbn [negb List.length]. rewrite <- (IH Hnd' Hin). lia.
Qed.

(** C1, as the code has it. The read state of a comment is the one [read]
    field of the message: on a well-formed store, [markRead] of a message
    of the table returns normally and sets that field to [true] on the
    message of that id, every other field and every other message, and
    every other table, being as before. Afterwards, for every agent, the
    unread mentions are those of before without that message, so it is in
    nobody's unread-mention count or list, and an agent for whom it was an
    unread mention has one unread mention fewer; the unread DMs of every
    agent are those of before without that message. *)
Theorem markRead_clears_for_every_agent (st : Store) (m : Msg.t) :
  wf_store st -> In m (unifiedMessages st) ->
  exists st',
    markRead st (Msg._id m) = Ok (st', true)
    /\ unifiedMessages st'
       = map (fun x =>
                if (Msg._id x =? Msg._id m)%nat
                then Msg.mk (Msg._id x) (Msg.fromAgent x) (Msg.toAgent x)
                    (Msg.taskId x) (Msg.linearIdentifier x) (Msg.content x)
                    (Msg.type x) (Msg.mentions x) (Msg.priority x)
                    (Some true) (Msg.createdAt x)
                else x)
           (unifiedMessages st)
    /\ (forall x, In x (unifiedMessages st) -> Msg._id x <> Msg._id m ->
                  In x (unifiedMessages st'))
    /\ agents st' = agents st /\ tasks st' = tasks st
    /\ agentMessages st' = agentMessages st
    /\ notifications st' = notifications st
    /\ activityEvents st' = activityEvents st
    /\ forall agentName,
         unread_mentions st' (toLowerCase agentName)
         = filter (fun x => negb (Msg._id x =? Msg._id m)%nat)
             (unread_mentions st (toLowerCase agentName))
         /\ (forall e,
               In e (UnreadRet.mentions (getUnread st' agentName)) ->
               Msg._id (Enriched.doc e) <> Msg._id m)
         /\ (In m (unread_mentions st (toLowerCase agentName)) ->
             Count.mentions (getUnreadCount st' agentName) + 1
             = Count.mentions (getUnreadCount st agentName))
         /\ by_to_agent_unread st' (toLowerCase agentName)
            = filter (fun x => negb (Msg._id x =? Msg._id m)%nat)
                (by_to_agent_unread st (toLowerCase agentName)).
Proof.
  intros (Hnd & _ & _) Hin.
  unfold markRead.
  rewrite db_patch_read_present by (try assumption; now apply in_map).
  cbn [bind]. eexists. split; [reflexivity|].
  cbn [unifiedMessages agents tasks agentMessages notifications
       activityEvents].
  split; [reflexivity|]. split.
  { intros x Hx Hne. apply in_map_iff. exists x. split; [| exact Hx].
    unfold mark. apply Nat.eqb_neq in Hne. now rewrite Hne. }
  repeat (split; [reflexivity|]).
  intros agentName.
  assert (Heq : unread_mentions
                  (mkStore (agents st) (tasks st)
                     (map (mark (Msg._id m)) (unifiedMessages st))
                     (agentMessages st) (notifications st)
                     (activityEvents st) (nextId st))
                  (toLowerCase agentName)
                = filter (fun x => negb (Msg._id x =? Msg._id m)%nat)
                    (unread_mentions st (toLowerCase agentName))).
  { unfold unread_mentions. cbn [unifiedMessages].
    apply filter_after_mark. intros x. cbn.
    now rewrite andb_false_r. }
  split; [exact Heq|]. split; [| split].
  - intros e He Hid. unfold getUnread in He. cbv zeta in He.
    cbn [UnreadRet.mentions agents] in He.
    apply in_map_iff in He. destruct He as (x & <- & Hx).
    cbn [enrich Enriched.doc] in Hid.
    apply In_firstn in Hx.
    apply (proj1 (js_sort_In newest_first _ _)) in Hx.
    rewrite Heq in Hx. apply filter_In in Hx. destruct Hx as [_ Hx].
    rewrite Hid, Nat.eqb_refl in Hx. discriminate.
  - intros Hm. unfold getUnreadCount. cbv zeta. cbn [Count.mentions].
    rewrite Heq. apply drop_id_length; [| exact Hm].
    apply NoDup_ids_filter. exact Hnd.
  - unfold by_to_agent_unread. cbn [unifiedMessages].
    apply filter_after_mark. intros x. cbn. apply andb_false_r.
Qed.

Lemma markRead_clears_for_every_agent_witness :
  exists st',
    markRead Sample.store1 100 = Ok (st', true)
    /\ Count.mentions (getUnreadCount st' "leo") + 1
       = Count.mentions (getUnreadCount Sample.store1 "leo").
Proof.
  destruct (markRead_clears_for_every_agent Sample.store1
              (Msg.mk 100 "sam" None (Some 10) (Some "AGT-9")
                 "@max @leo please review" TComment (Some ["max"; "leo"])
                 None None 1000)
              store1_wf (or_introl eq_refl))
    as (st' & Hs & _ & _ & _ & _ & _ & _ & _ & H).
  exists st'. split; [exact Hs|].
  destruct (H "leo") as (_ & _ & Hc & _). apply Hc. now left.
Defined.

(** ** What the sweep marks and what the count reports *)

Lemma filter_length_le {A} (p q : A -> bool) (l : list A) :
  (forall x, p x = true -> q x = true) ->
  List.length (filter p l) <= List.length (filter q l).
Proof.
  intros Himp. induction l as [|x r IH]; [constructor|].
  cbn [filter]. destruct (p x) eqn:Hp.
  - rewrite (Himp x Hp). cbn [List.length]. lia.
  - destruct (q x); cbn [List.length]; lia.
Qed.

Lemma markAllRead_then_getUnreadCount_witness :
  Count.total (getUnreadCount Sample.store3 "Sam") = 2
  /\ exists st' marked,
       markAllRead Sample.store3 "Sam" = Ok (st', marked)
       /\ getUnreadCount st' "Sam" = Count.mk 0 0 0.
Proof.
  split; [reflexivity|].
  exact (markAllRead_then_getUnreadCount Sample.store3 "Sam" store3_wf).
Defined.

(** C10. On a well-formed store, [markAllRead] for an agent marks every
    comment that is not yet read and whose mention set holds the agent's
    name, whoever wrote it, the agent included: afterwards the table holds
    that comment with its [read] field [true] and its other fields as they
    were. The number it returns is never below the total that
    [getUnreadCount] reported just before, and it is above it on the sample
    store, where Sam is named by a comment of Sam's own. *)
Theorem markAllRead_sweeps_own_comments :
  (forall st agentName,
      wf_store st ->
      exists st' marked,
        markAllRead st agentName = Ok (st', marked)
        /\ (forall m,
              In m (unifiedMessages st) ->
              is_comment m = true -> not_read m = true ->
              mentions_include m (toLowerCase agentName) = true ->
              In (Msg.mk (Msg._id m) (Msg.fromAgent m) (Msg.toAgent m)
                  (Msg.taskId m) (Msg.linearIdentifier m) (Msg.content m)
                  (Msg.type m) (Msg.mentions m) (Msg.priority m)
                  (Some true) (Msg.createdAt m))
                 (unifiedMessages st'))
        /\ Count.total (getUnreadCount st agentName) <= marked)
  /\ (exists st' marked m,
        markAllRead Sample.store3 "Sam" = Ok (st', marked)
        /\ In m (unifiedMessages Sample.store3)
        /\ Msg.fromAgent m = toLowerCase "Sam"
        /\ is_comment m = true /\ not_read m = true
        /\ mentions_include m (toLowerCase "Sam") = true
        /\ In (Msg.mk (Msg._id m) (Msg.fromAgent m) (Msg.toAgent m)
                (Msg.taskId m) (Msg.linearIdentifier m) (Msg.content m)
                (Msg.type m) (Msg.mentions m) (Msg.priority m)
                (Some true) (Msg.createdAt m))
              (unifiedMessages st')
        /\ Count.total (getUnreadCount Sample.store3 "Sam") < marked).
Proof.
  split.
  - intros st agentName Hwf. eexists. eexists.
    split; [apply markAllRead_ok; exact Hwf|]. split.
    + intros m Hin Hc Hr Hm. cbn [unifiedMessages].
      change (In (Msg.set_read m)
                (map (mark_all (swept_ids st (toLowerCase agentName)))
                   (unifiedMessages st))).
      apply in_map_iff. exists m. split; [| exact Hin].
      unfold mark_all, swept_ids. rewrite existsb_id_of; [reflexivity|].
      apply in_or_app. right. unfold sweep_mentions. apply filter_In.
      split; [exact Hin|]. now rewrite Hc, Hr, Hm.
    + unfold getUnreadCount. cbv zeta. cbn [Count.total].
      apply Nat.add_le_mono_l. unfold unread_mentions, sweep_mentions.
      apply filter_length_le. intros x Hx.
      apply andb_true_iff in Hx. tauto.
  - exists (Sample.after (markAllRead Sample.store3 "Sam")), 3.
    exists (Msg.mk 104 "sam" None (Some 10) (Some "AGT-9") "heads up @all"
              TComment (Some all_agents) None None 1001).
    split; [vm_compute; reflexivity|].
    split; [vm_compute; right; left; reflexivity|].
    repeat (split; [vm_compute; reflexivity|]).
    split; [vm_compute; right; left; reflexivity|].
    vm_compute. lia.
Qed.

Lemma markAllRead_sweeps_own_comments_witness :
  exists st' marked,
    markAllRead Sample.store3 "Sam" = Ok (st', marked)
    /\ Count.total (getUnreadCount Sample.store3 "Sam") <= marked.
Proof.
  destruct (proj1 markAllRead_sweeps_own_comments Sample.store3 "Sam"
              store3_wf) as (st' & marked & Hs & _ & Hle).
  exists st', marked. split; [exact Hs | exact Hle].
Defined.

(** ** The invariant is kept *)

Lemma wf_store_append (st st' : Store) (m : Msg.t) :
  wf_store st ->
  unifiedMessages st' = (unifiedMessages st ++ [m])%list ->
  Msg._id m = nextId st ->
  agents st' = agents st ->
  nextId st < nextId st' ->
  wf_store st'.
Proof.
  intros (Hnd & Hlt & Hag) Hm Hid Ha Hnext. unfold wf_store.
  rewrite Ha, Hm. repeat split; [| | exact Hag].
  - rewrite map_app. apply NoDup_app; [exact Hnd | | ].
    + cbn. repeat constructor. intros [].
    + intros i Hi [<- | []]. rewrite Hid in Hi.
      apply in_map_iff in Hi. destruct Hi as (x & Hx & Hin).
      rewrite Forall_forall in Hlt. specialize (Hlt x Hin). lia.
  - apply Forall_app. split.
    + eapply Forall_impl; [| exact Hlt]. cbv beta. intros; lia.
    + repeat constructor. lia.
Qed.

Lemma sendDM_wf (st st' : Store) (now : Z) (from to content : string)
    (relatedTaskId : option Id) (priority_arg : option Priority)
    (r : DmRet.t) :
  wf_store st ->
  sendDM st now from to content relatedTaskId priority_arg = Ok (st', r) ->
  wf_store st'.
Proof.
  intros Hwf Hs.
  destruct (sendDM_effect st now from to content relatedTaskId priority_arg)
    as (st1 & Hs1 & Ha & Hm & _ & _ & Hn).
  rewrite Hs1 in Hs. inversion Hs; subst st1.
  eapply wf_store_append; try eassumption. reflexivity.
Qed.

Lemma postComment_wf (st st' : Store) (now : Z) (taskId : Id)
    (agentName content : string) (r : CommentRet.t) :
  wf_store st ->
  postComment st now taskId agentName content = Ok (st', r) ->
  wf_store st'.
Proof.
  intros Hwf Hp.
  destruct (get_task st taskId) as [task|] eqn:Ht;
    [| unfold postComment in Hp; rewrite Ht in Hp; discriminate].
  destruct (find_agent (agents st) (toLowerCase agentName)) as [agent|]
    eqn:Hf.
  - destruct (postComment_known st now taskId agentName content task agent
                Ht Hf) as (st1 & ev & l & Hp1 & Ha & Hm & _ & _ & _ & Hn).
    rewrite Hp1 in Hp. inversion Hp; subst st1.
    eapply wf_store_append; try eassumption. reflexivity.
  - unfold postComment in Hp. rewrite Ht in Hp. cbv zeta in Hp.
    unfold insert_message in Hp. cbn [agents] in Hp. rewrite Hf in Hp.
    inversion Hp; subst.
    eapply wf_store_append;
      [exact Hwf | reflexivity | reflexivity | reflexivity | cbn; lia].
Qed.

Lemma mark_all_id (ids : list Id) (m : Msg.t) :
  Msg._id (mark_all ids m) = Msg._id m.
Proof.
  unfold mark_all. now destruct (existsb (Nat.eqb (Msg._id m)) ids).
Qed.

Lemma markAllRead_wf (st st' : Store) (agentName : string) (n : nat) :
  wf_store st -> markAllRead st agentName = Ok (st', n) -> wf_store st'.
Proof.
  intros Hwf Hs. rewrite (markAllRead_ok st agentName Hwf) in Hs.
  inversion Hs; subst. destruct Hwf as (Hnd & Hlt & Hag).
  unfold wf_store. cbn [unifiedMessages nextId agents].
  repeat split; [| | exact Hag].
  - rewrite map_map.
    rewrite (map_ext _ Msg._id (mark_all_id _)). exact Hnd.
  - rewrite Forall_map. eapply Forall_impl; [| exact Hlt].
    cbv beta. intros a Ha. now rewrite mark_all_id.
Qed.

Lemma markRead_wf (st st' : Store) (messageId : Id) (r : bool) :
  wf_store st -> markRead st messageId = Ok (st', r) -> wf_store st'.
Proof.
  intros (Hnd & Hlt & Hag) Hs. unfold markRead, db_patch_read in Hs.
  destruct (in_dec Nat.eq_dec messageId (map Msg._id (unifiedMessages st)))
    as [Hin|Hout].
  - rewrite patch_read_present in Hs by assumption.
    cbn [bind] in Hs. inversion Hs; subst.
    unfold wf_store. cbn [unifiedMessages nextId agents].
    repeat split; [| | exact Hag].
    + now rewrite map_mark_ids.
    + rewrite Forall_map. eapply Forall_impl; [| exact Hlt].
      cbv beta. intros a Ha. now rewrite mark_id.
  - rewrite patch_read_absent in Hs by assumption. discriminate.
Qed.

Lemma sendDirectMessage_wf (st st' : Store) (now : Z)
    (from to content : string) (relatedTaskId : option Id)
    (priority_arg : option Priority) (r : DmRet.t) :
  wf_store st ->
  sendDirectMessage st now from to content relatedTaskId priority_arg
  = Ok (st', r) ->
  wf_store st'.
Proof.
  intros (Hnd & Hlt & Hag) Hs. apply sendDirectMessage_ok in Hs.
  destruct Hs as (f & t & _ & _ & _ & Ha & _ & Hm & _ & Hn).
  unfold wf_store. rewrite Ha, Hm. repeat split; try assumption.
  eapply Forall_impl; [| exact Hlt]. cbv beta. intros; lia.
Qed.

Lemma step_wf (st st' : Store) : wf_store st -> step st st' -> wf_store st'.
Proof.
  intros Hwf Hstep. destruct Hstep.
  - eapply postComment_wf; eassumption.
  - eapply sendDM_wf; eassumption.
  - eapply markRead_wf; eassumption.
  - eapply markAllRead_wf; eassumption.
  - eapply sendDirectMessage_wf; eassumption.
Qed.

(** Every store a run of mutations reaches from a well-formed store is
    well-formed; so is every store reached from a store without messages
    whose agents have distinct ids. *)
Lemma reachable_wf (st st' : Store) :
  wf_store st -> reachable st st' -> wf_store st'.
Proof.
  intros Hwf Hr. induction Hr as [|st1 st2 _ IH Hstep]; [exact Hwf|].
  eapply step_wf; eassumption.
Qed.

Lemma fresh_store_wf (st : Store) :
  unifiedMessages st = [] -> NoDup (map Agent._id (agents st)) ->
  wf_store st.
Proof.
  intros Hm Ha. unfold wf_store. rewrite Hm.
  repeat split; [constructor | constructor | exact Ha].
Qed.

(* ================================================================= *)
(** * Further properties *)

(** ** Mention parser: which names are found *)

(** Every match is a piece of the text: an ["@"] and three letters that
    spell one of the words of the pattern. *)
Lemma match_all_sound (s : string) :
  forall skip x,
    In x (match_all skip s) ->
    exists pre post a b c,
      s = pre ++ x ++ post
      /\ x = String "@" (String a (String b (String c EmptyString)))
      /\ In (toLowerCase (String a (String b (String c EmptyString))))
           mention_words.
Proof.
  induction s as [|c0 r IH]; intros skip x H; [contradiction|].
  assert (Hrec : forall k, In x (match_all k r) ->
            exists pre post a b c,
              String c0 r = pre ++ x ++ post
              /\ x = String "@" (String a (String b (String c EmptyString)))
              /\ In (toLowerCase (String a (String b (String c EmptyString))))
                   mention_words).
  { intros k Hk. destruct (IH k x Hk) as (pre & post & a & b & c & -> & Hx).
    exists (String c0 pre), post, a, b, c. split; [reflexivity | exact Hx]. }
  destruct skip as [|k]; [| exact (Hrec k H)].
  rewrite match_all_0 in H.
  destruct (match_here (String c0 r)) as [m|] eqn:Hm; [| exact (Hrec 0 H)].
  destruct H as [<- | H]; [| exact (Hrec 3 H)].
  apply match_here_Some in Hm.
  destruct Hm as (a & b & c & rest & Hs & -> & Hw).
  exists "", rest, a, b, c. rewrite Hs. repeat split. exact Hw.
Qed.

Lemma marker_shape (w m : string) :
  In w mention_words -> toLowerCase m = String "@" w ->
  exists c1 c2 c3,
    m = String "@" (String c1 (String c2 (String c3 EmptyString)))
    /\ toLowerCase (String c1 (String c2 (String c3 EmptyString))) = w.
Proof.
  intros Hw.
  assert (H3 : exists a b c, w = String a (String b (String c EmptyString))).
  { unfold mention_words in Hw. simpl in Hw.
    destruct Hw as [<-|[<-|[<-|[<-|[<-|[]]]]]];
      eexists; eexists; eexists; reflexivity. }
  destruct H3 as (a & b & c & ->).
  destruct m as [|c0 [|c1 [|c2 [|c3 [|c4 m']]]]];
    unfold toLowerCase; cbn [map_chars]; intros H; try discriminate H.
  assert (H0 : lower_char c0 = "@"%char) by congruence.
  apply lower_char_at in H0. subst c0.
  exists c1, c2, c3. split; [reflexivity | congruence].
Qed.

(** The scan reaches every marker of the text, whatever precedes it. *)
Lemma match_all_complete (w m post : string) :
  In w mention_words -> toLowerCase m = String "@" w ->
  forall (pre : string) (skip : nat),
    skip <= String.length pre ->
    In w (map (fun x => toLowerCase (slice1 x))
            (match_all skip (pre ++ m ++ post))).
Proof.
  intros Hin Hm. destruct (marker_shape w m Hin Hm) as (c1 & c2 & c3 & -> & Hw).
  induction pre as [|p pre IH]; intros skip Hskip.
  - simpl in Hskip. assert (skip = 0) by lia. subst skip.
    cbn [append]. rewrite match_all_0.
    assert (Hh : match_here (String "@" (String c1 (String c2 (String c3 post))))
                 = Some (String "@" (String c1 (String c2 (String c3 ""))))).
    { unfold match_here. cbv zeta. rewrite Hw.
      apply includes_In in Hin. now rewrite Hin. }
    rewrite Hh. cbn [map slice1]. left. exact Hw.
  - cbn [append]. destruct skip as [|k].
    + rewrite match_all_0. destruct (match_here _) as [x|] eqn:Hx.
      * cbn [map]. right. apply IH.
        apply match_here_Some in Hx.
        destruct Hx as (a & b & c & rest & Hs & _ & Hl).
        unfold toLowerCase in Hl. cbn [map_chars] in Hl.
        apply mention_word_letters in Hl. destruct Hl as (Ha & Hb & Hc).
        assert (Hat : forall y, lower_char y <> "@"%char -> y <> "@"%char)
          by (intros y Hn ->; apply Hn; reflexivity).
        apply Hat in Ha, Hb, Hc.
        destruct pre as [|q1 [|q2 [|q3 pre]]]; cbn [append] in Hs;
          cbn [String.length]; try lia;
          exfalso; congruence.
      * apply IH. lia.
    + cbn [match_all]. apply IH. simpl in Hskip. lia.
Qed.

(** A word is among the names the scan collects exactly when it is a word
    of the pattern and its marker occurs in the text. *)
Lemma mention_names_iff (text w : string) :
  In w (mention_names text) <-> In w mention_words /\ has_marker w text.
Proof.
  unfold mention_names. split.
  - intros H. apply in_map_iff in H. destruct H as (x & <- & Hx).
    apply match_all_sound in Hx.
    destruct Hx as (pre & post & a & b & c & Ht & -> & Hw).
    split; [exact Hw|].
    exists pre, (String "@" (String a (String b (String c "")))), post.
    split; [exact Ht | reflexivity].
  - intros [Hw (pre & m & post & -> & Hm)].
    apply match_all_complete; [exact Hw | exact Hm | lia].
Qed.

Lemma set_spread_In (l : list string) :
  forall seen x, In x (set_spread seen l) <-> In x seen \/ In x l.
Proof.
  induction l as [|y r IH]; intros seen x; cbn [set_spread].
  - simpl. tauto.
  - destruct (includes y seen) eqn:Hi; rewrite IH.
    + apply includes_In in Hi. simpl. split; [tauto|].
      intros [H|[<-|H]]; tauto.
    + rewrite in_app_iff. simpl. tauto.
Qed.

(** X1. Without a wildcard marker, [parseMentions] returns exactly the
    agents whose marker occurs in the text, in any letter case, each
    once. *)
Theorem parseMentions_explicit (text : string) :
  ~ has_wildcard text ->
  (forall w, In w (parseMentions text) <->
             In w all_agents /\ has_marker w text)
  /\ NoDup (parseMentions text).
Proof.
  intros Hno.
  assert (Hall : includes "all" (mention_names text) = false).
  { destruct (includes "all" (mention_names text)) eqn:Hi; [| reflexivity].
    exfalso. apply Hno. apply includes_In, mention_names_iff in Hi.
    exact (proj2 Hi). }
  assert (Hp : parseMentions text = set_spread [] (mention_names text)).
  { unfold parseMentions. cbv zeta. fold (mention_names text).
    now rewrite Hall. }
  split.
  - intros w. rewrite Hp, set_spread_In, mention_names_iff.
    unfold mention_words, all_agents. simpl. split.
    + intros [[] | [Hw Hm]]. split; [| exact Hm].
      destruct Hw as [H|[H|[H|[H|[H|[]]]]]]; try tauto.
      subst w. exfalso. apply Hno. exact Hm.
    + intros [Hw Hm]. right. split; [tauto | exact Hm].
  - rewrite Hp. apply set_spread_NoDup. constructor.
Qed.

Lemma no_wildcard_in_sample : ~ has_wildcard "@Sam ping @MAX and @sam, @bob".
Proof.
  intros H.
  assert (Hi : In "all" (mention_names "@Sam ping @MAX and @sam, @bob")).
  { apply mention_names_iff. split; [simpl; tauto | exact H]. }
  vm_compute in Hi. intuition discriminate.
Qed.

Lemma parseMentions_explicit_witness :
  In "max" (parseMentions "@Sam ping @MAX and @sam, @bob")
  /\ NoDup (parseMentions "@Sam ping @MAX and @sam, @bob").
Proof.
  destruct (parseMentions_explicit "@Sam ping @MAX and @sam, @bob"
              no_wildcard_in_sample) as [Hiff Hnd].
  split; [| exact Hnd].
  apply Hiff. split; [simpl; tauto|].
  exists "@Sam ping ", "@MAX", " and @sam, @bob". split; reflexivity.
Defined.

(** X2. Whatever the text, [parseMentions] returns agents of the fixed
    roster only (never the word [all], never a name outside the pattern),
    none twice, so at most four names. *)
Theorem parseMentions_roster (text : string) :
  incl (parseMentions text) all_agents
  /\ NoDup (parseMentions text)
  /\ List.length (parseMentions text) <= 4.
Proof.
  assert (Hincl : incl (parseMentions text) all_agents).
  { unfold parseMentions. cbv zeta. fold (mention_names text).
    destruct (includes "all" (mention_names text)) eqn:Hall;
      [apply incl_refl|].
    intros w Hw. apply set_spread_In in Hw. destruct Hw as [[]|Hw].
    assert (Hne : w <> "all").
    { intros ->. apply includes_In in Hw. congruence. }
    apply mention_names_iff in Hw. destruct Hw as [Hw _].
    unfold mention_words, all_agents in *. simpl in *.
    intuition congruence. }
  assert (Hnd : NoDup (parseMentions text)) by apply parseMentions_NoDup.
  split; [exact Hincl|]. split; [exact Hnd|].
  exact (NoDup_incl_length Hnd Hincl).
Qed.

(** ** Posting a comment: what is written and what is not *)

(** Every successful [postComment], whoever the sender is. *)
Lemma postComment_inv (st st' : Store) (now : Z) (taskId : Id)
    (agentName content : string) (r : CommentRet.t) :
  postComment st now taskId agentName content = Ok (st', r) ->
  exists task new,
    get_task st taskId = Some task
    /\ r = CommentRet.mk (nextId st) taskId (parseMentions content)
             (Task.linearIdentifier task)
    /\ agents st' = agents st /\ tasks st' = tasks st
    /\ agentMessages st' = agentMessages st
    /\ unifiedMessages st' =
       (unifiedMessages st
        ++ [comment_doc st now taskId agentName content task])%list
    /\ notifications st' = (notifications st ++ new)%list
    /\ (new = []
        \/ exists agent linearId,
             find_agent (agents st) (toLowerCase agentName) = Some agent
             /\ new = fanout (agents st) agent (toLowerCase agentName)
                        linearId content taskId now (S (S (nextId st)))
                        (parseMentions content)).
Proof.
  unfold postComment.
  destruct (get_task st taskId) as [task|]; [| discriminate].
  cbv zeta. unfold insert_message. cbn [agents].
  destruct (find_agent (agents st) (toLowerCase agentName)) as [agent|].
  - rewrite fold_notify_mention. unfold insert_event.
    cbn [agents tasks unifiedMessages agentMessages notifications
         activityEvents nextId].
    intros H. inversion H; subst. exists task. eexists.
    cbn [agents tasks unifiedMessages agentMessages notifications].
    repeat (split; [reflexivity|]).
    right. eexists. eexists. split; reflexivity.
  - intros H. inversion H; subst. exists task, [].
    cbn [agents tasks unifiedMessages agentMessages notifications].
    rewrite app_nil_r. repeat (split; [reflexivity|]). now left.
Qed.

(** X3. [postComment] returns normally exactly when the ticket id resolves;
    otherwise it fails with the not-found error of that ticket, whatever
    the sender and the body are. *)
Theorem postComment_requires_ticket (st : Store) (now : Z) (taskId : Id)
    (agentName content : string) :
  ((exists st' r, postComment st now taskId agentName content = Ok (st', r))
   <-> get_task st taskId <> None)
  /\ (get_task st taskId = None ->
      postComment st now taskId agentName content
      = Err (TaskNotFound taskId)).
Proof.
  split; [split|].
  - intros (st' & r & H). apply postComment_inv in H.
    destruct H as (task & _ & Ht & _). congruence.
  - intros Hne. destruct (get_task st taskId) as [task|] eqn:Ht;
      [| congruence].
    destruct (find_agent (agents st) (toLowerCase agentName)) as [agent|]
      eqn:Hf.
    + destruct (postComment_known st now taskId agentName content task agent
                  Ht Hf) as (st' & _ & _ & H & _).
      eexists. eexists. exact H.
    + unfold postComment. rewrite Ht. cbv zeta. unfold insert_message.
      cbn [agents]. rewrite Hf. eexists. eexists. reflexivity.
  - intros Ht. unfold postComment. now rewrite Ht.
Qed.

Lemma postComment_requires_ticket_witness :
  postComment Sample.store0 1000 11 "Sam" "hello @max"
  = Err (TaskNotFound 11).
Proof.
  exact (proj2 (postComment_requires_ticket Sample.store0 1000 11 "Sam"
                  "hello @max") eq_refl).
Defined.

(** A message no older than those before it sorts last, after the entries
    of its own timestamp. *)
Lemma js_sort_snoc {A} (cmp : A -> A -> Z) (key : A -> Z) (l : list A)
    (x : A) :
  (forall a b, cmp a b = (key a - key b)%Z) ->
  (forall a, In a l -> (key a <= key x)%Z) ->
  js_sort cmp (l ++ [x]) = (js_sort cmp l ++ [x])%list.
Proof.
  intros Hcmp. 
  assert (Hins : forall a s,
             (key a <= key x)%Z ->
             insert_sorted cmp a (s ++ [x]) = (insert_sorted cmp a s ++ [x])%list).
  { intros a s Ha. induction s as [|y r IH]; cbn [app insert_sorted].
    - rewrite Hcmp. destruct (Z.leb_spec (key a - key x) 0); [reflexivity | lia].
    - destruct (cmp a y <=? 0)%Z; [reflexivity|]. cbn [app]. now rewrite IH. }
  induction l as [|a r IH]; intros Hle; [reflexivity|].
  cbn [app js_sort fold_right]. fold (js_sort cmp (r ++ [x])).
  fold (js_sort cmp r). rewrite IH by (intros b Hb; apply Hle; now right).
  apply Hins. apply Hle. now left.
Qed.

(** X4. After a successful [postComment] the comment, as it was posted, is
    among [getTaskComments] of its ticket; when no message of the table is
    younger than it, it is the last entry and the earlier entries are
    unchanged; the comments of every other ticket and the DMs of every
    agent are as before. *)
Theorem postComment_then_getTaskComments (st st' : Store) (now : Z)
    (taskId : Id) (agentName content : string) (r : CommentRet.t) :
  postComment st now taskId agentName content = Ok (st', r) ->
  exists task,
    get_task st taskId = Some task
    /\ In (enrich (agents st)
             (comment_doc st now taskId agentName content task))
          (getTaskComments st' taskId)
    /\ ((forall m, In m (unifiedMessages st) -> (Msg.createdAt m <= now)%Z) ->
        getTaskComments st' taskId
        = (getTaskComments st taskId
           ++ [enrich (agents st)
                 (comment_doc st now taskId agentName content task)])%list)
    /\ (forall other, other <> taskId ->
          getTaskComments st' other = getTaskComments st other)
    /\ (forall name unreadOnly,
          getDMs st' name unreadOnly = getDMs st name unreadOnly).
Proof.
  intros H. apply postComment_inv in H.
  destruct H as (task & new & Ht & _ & Ha & _ & _ & Hm & _).
  exists task. split; [exact Ht|].
  assert (Hown : filter is_comment
            (filter (fun m => id_opt_eqb (Msg.taskId m) taskId)
               (unifiedMessages st'))
          = (filter is_comment
               (filter (fun m => id_opt_eqb (Msg.taskId m) taskId)
                  (unifiedMessages st))
             ++ [comment_doc st now taskId agentName content task])%list).
  { rewrite Hm, !filter_app. cbn [filter comment_doc Msg.taskId id_opt_eqb].
    rewrite Nat.eqb_refl. reflexivity. }
  split; [| split; [| split]].
  - unfold getTaskComments. cbv zeta. rewrite Ha, Hown.
    apply in_map. apply js_sort_In. apply in_or_app. right. now left.
  - intros Hclock. unfold getTaskComments. cbv zeta. rewrite Ha, Hown.
    rewrite (js_sort_snoc oldest_first Msg.createdAt).
    + now rewrite map_app.
    + reflexivity.
    + intros a Hin. apply filter_In in Hin. destruct Hin as [Hin _].
      apply filter_In in Hin. destruct Hin as [Hin _].
      cbn [comment_doc Msg.createdAt]. now apply Hclock.
  - intros other Hne. unfold getTaskComments. cbv zeta.
    rewrite Ha, Hm, !filter_app.
    cbn [filter comment_doc Msg.taskId id_opt_eqb].
    apply Nat.eqb_neq in Hne. rewrite Nat.eqb_sym, Hne.
    cbn [filter]. now rewrite app_nil_r.
  - intros name uo. unfold getDMs, by_to_agent_unread, by_to_agent.
    cbv zeta. rewrite Ha, Hm.
    destruct uo; rewrite filter_app;
      cbn [filter comment_doc Msg.toAgent opt_eqb andb];
      now rewrite app_nil_r.
Qed.

Lemma postComment_then_getTaskComments_witness :
  map (fun e => Msg.content (Enriched.doc e))
      (getTaskComments Sample.store2 10)
  = ["@max @leo please review"; "heads up @all"].
Proof.
  destruct (postComment_then_getTaskComments Sample.store1 Sample.store2
              1001 10 "sam" "heads up @all" _ eq_refl)
    as (task & Ht & _ & Happ & _).
  rewrite Happ.
  - injection Ht as <-. reflexivity.
  - vm_compute. intros m [<- | []]. discriminate.
Defined.

Lemma includes_nil_mentions (a : string) (l : list string) :
  match (match l with [] => None | _ => Some l end) with
  | Some l' => includes a l'
  | None => false
  end = includes a l.
Proof. now destruct l. Qed.

(** X5. A successful [postComment] raises the unread-mention count of a
    reader by one when the reader's lower-cased name is in the mention set
    of the body and is not the sender's, and leaves it unchanged otherwise;
    the reader's unread-DM count is unchanged. Whether the sender or the
    reader is a known agent plays no part. *)
Theorem postComment_unread_counts (st st' : Store) (now : Z) (taskId : Id)
    (agentName content : string) (r : CommentRet.t) (reader : string) :
  postComment st now taskId agentName content = Ok (st', r) ->
  Count.dms (getUnreadCount st' reader) = Count.dms (getUnreadCount st reader)
  /\ Count.mentions (getUnreadCount st' reader)
     = Count.mentions (getUnreadCount st reader)
       + (if includes (toLowerCase reader) (parseMentions content)
             && negb (toLowerCase agentName =? toLowerCase reader)
          then 1 else 0).
Proof.
  intros H. apply postComment_inv in H.
  destruct H as (task & new & _ & _ & _ & _ & _ & Hm & _).
  unfold getUnreadCount, by_to_agent_unread, unread_mentions. cbv zeta.
  cbn [Count.dms Count.mentions]. rewrite Hm, !filter_app, !length_app.
  split.
  - cbn [filter comment_doc Msg.toAgent opt_eqb andb List.length]. lia.
  - f_equal. cbn [filter].
    unfold mentions_include at 1, is_comment at 1, not_read at 1.
    cbn [comment_doc Msg.mentions Msg.type Msg.read Msg.fromAgent andb].
    rewrite includes_nil_mentions.
    now destruct (includes (toLowerCase reader) (parseMentions content)
                  && negb (toLowerCase agentName =? toLowerCase reader)).
Qed.

Lemma postComment_unread_counts_witness :
  Count.mentions (getUnreadCount Sample.store2 "Leo")
  = Count.mentions (getUnreadCount Sample.store1 "Leo") + 1
  /\ Count.mentions (getUnreadCount Sample.store2 "Sam")
     = Count.mentions (getUnreadCount Sample.store1 "Sam") + 0.
Proof.
  split.
  - exact (proj2 (postComment_unread_counts Sample.store1 Sample.store2
                    1001 10 "sam" "heads up @all" _ "Leo" eq_refl)).
  - exact (proj2 (postComment_unread_counts Sample.store1 Sample.store2
                    1001 10 "sam" "heads up @all" _ "Sam" eq_refl)).
Defined.

Lemma fanout_length (ags : list Agent.t) (agent : Agent.t)
    (lower linearId content : string) (taskId : Id) (now : Z)
    (mentions : list string) :
  forall next,
    List.length (fanout ags agent lower linearId content taskId now next
                   mentions)
    <= List.length mentions.
Proof.
  induction mentions as [|x r IH]; intros next; cbn [fanout List.length];
    [constructor|].
  destruct (x =? lower); [specialize (IH next); lia|].
  destruct (find_agent ags x);
    [specialize (IH (S next)); cbn [List.length] | specialize (IH next)];
    lia.
Qed.

Lemma fanout_task (ags : list Agent.t) (agent : Agent.t)
    (lower linearId content : string) (taskId : Id) (now : Z)
    (mentions : list string) :
  forall next n,
    In n (fanout ags agent lower linearId content taskId now next mentions) ->
    Notif.relatedTask n = Some taskId
    /\ Notif.message n = "In " ++ linearId ++ ": " ++ preview 100 content.
Proof.
  induction mentions as [|x r IH]; intros next n Hn; [contradiction|].
  cbn [fanout] in Hn.
  destruct (x =? lower); [now apply (IH next)|].
  destruct (find_agent ags x); [| now apply (IH next)].
  destruct Hn as [<- | Hn]; [split; reflexivity | now apply (IH (S next))].
Qed.

(** X6. One comment writes at most four notifications, at most one per
    name of its mention set; each is an unread notification of kind
    [mention] that refers to the ticket of the comment. *)
Theorem postComment_notification_bound (st st' : Store) (now : Z)
    (taskId : Id) (agentName content : string) (r : CommentRet.t) :
  postComment st now taskId agentName content = Ok (st', r) ->
  exists new,
    notifications st' = (notifications st ++ new)%list
    /\ List.length new <= List.length (CommentRet.mentions r)
    /\ List.length new <= 4
    /\ (forall n, In n new ->
          Notif.type n = NMention /\ Notif.read n = false
          /\ Notif.relatedTask n = Some taskId).
Proof.
  intros H. apply postComment_inv in H.
  destruct H as (task & new & _ & -> & _ & _ & _ & _ & Hn & Hnew).
  exists new. split; [exact Hn|]. cbn [CommentRet.mentions].
  assert (H4 : List.length (parseMentions content) <= 4)
    by apply parseMentions_roster.
  destruct Hnew as [-> | (agent & linearId & _ & ->)].
  - cbn [List.length]. split; [lia|]. split; [lia|]. intros n [].
  - pose proof (fanout_length (agents st) agent (toLowerCase agentName)
                  linearId content taskId now (parseMentions content)
                  (S (S (nextId st)))) as Hlen.
    split; [lia|]. split; [lia|]. intros n Hin.
    pose proof (fanout_shape _ _ _ _ _ _ _ _ _ _ Hin) as Hs.
    pose proof (fanout_task _ _ _ _ _ _ _ _ _ _ Hin) as Ht.
    tauto.
Qed.

Lemma postComment_notification_bound_witness :
  exists new,
    notifications Sample.store2 = (notifications Sample.store1 ++ new)%list
    /\ List.length new <= 4.
Proof.
  destruct (postComment_notification_bound Sample.store1 Sample.store2 1001
              10 "sam" "heads up @all" _ eq_refl) as (new & Hn & _ & H4 & _).
  exists new. split; [exact Hn | exact H4].
Defined.

(** ** Previews *)

Lemma slice0_all (s : string) :
  forall n, String.length s <= n -> slice0 n s = s.
Proof.
  unfold slice0. induction s as [|c r IH]; intros [|n] H; cbn in *;
    try reflexivity; try lia.
  f_equal. apply IH. lia.
Qed.

Lemma slice0_length (s : string) :
  forall n, n <= String.length s -> String.length (slice0 n s) = n.
Proof.
  unfold slice0. induction s as [|c r IH]; intros [|n] H; cbn in *;
    try reflexivity; try lia.
  f_equal. apply IH. lia.
Qed.

Lemma append_length (a b : string) :
  String.length (a ++ b) = String.length a + String.length b.
Proof. induction a as [|c r IH]; cbn; [reflexivity | now rewrite IH]. Qed.

Lemma append_empty_r (a : string) : a ++ "" = a.
Proof. induction a as [|c r IH]; cbn; [reflexivity | now rewrite IH]. Qed.

(** A preview is the text itself when it fits, and otherwise its first
    [n] units followed by three dots. *)
Lemma preview_cases (n : nat) (content : string) :
  (String.length content <= n -> preview n content = content)
  /\ (n < String.length content ->
      preview n content = slice0 n content ++ "..."
      /\ String.length (preview n content) = n + 3).
Proof.
  unfold preview. split; intros H.
  - destruct (Nat.ltb_spec n (String.length content)); [lia|].
    now rewrite append_empty_r, slice0_all.
  - destruct (Nat.ltb_spec n (String.length content)); [| lia].
    split; [reflexivity|].
    rewrite append_length, slice0_length by lia. reflexivity.
Qed.

(** X7. A DM sent without a related ticket between two known agents is
    stored with its whole body, and its one notification carries the body
    itself when it has at most 150 units, and otherwise the first 150
    units followed by three dots, 153 units in all. *)
Theorem sendDM_notification_preview (st : Store) (now : Z)
    (from to content : string) (priority_arg : option Priority)
    (f t : Agent.t) :
  find_agent (agents st) (toLowerCase from) = Some f ->
  find_agent (agents st) (toLowerCase to) = Some t ->
  exists st' r n m,
    sendDM st now from to content None priority_arg = Ok (st', r)
    /\ unifiedMessages st' = (unifiedMessages st ++ [m])%list
    /\ Msg.content m = content
    /\ notifications st' = (notifications st ++ [n])%list
    /\ Notif.to n = Agent._id t
    /\ (String.length content <= 150 -> Notif.message n = content)
    /\ (150 < String.length content ->
        Notif.message n = slice0 150 content ++ "..."
        /\ String.length (Notif.message n) = 153).
Proof.
  intros Hf Ht.
  destruct (sendDM_effect st now from to content None priority_arg)
    as (st' & Hs & _ & Hm & Hn & _ & _).
  unfold dm_notifications in Hn. rewrite Hf, Ht in Hn.
  exists st'. eexists. eexists. eexists.
  split; [exact Hs|]. split; [exact Hm|]. split; [reflexivity|].
  split; [exact Hn|]. split; [reflexivity|].
  cbn [Notif.message related_linearIdentifier dm_message truthy].
  apply preview_cases.
Qed.

Lemma sendDM_notification_preview_witness :
  exists st' r n m,
    sendDM Sample.store0 1000 "max" "sam" "ship it" None None = Ok (st', r)
    /\ unifiedMessages st' = [m]
    /\ notifications st' = [n]
    /\ Notif.message n = "ship it".
Proof.
  destruct (sendDM_notification_preview Sample.store0 1000 "max" "sam"
              "ship it" None Sample.max Sample.sam eq_refl eq_refl)
    as (st' & r & n & m & Hs & Hm & _ & Hn & _ & Hshort & _).
  exists st', r, n, m. split; [exact Hs|]. split; [exact Hm|].
  split; [exact Hn|]. apply Hshort. vm_compute. lia.
Defined.

(** ** Sending a DM: counts and conversations *)

(** X8. [sendDM] raises the unread-DM count of exactly the readers whose
    lower-cased name is the lower-cased recipient, by one, and changes
    nobody's unread-mention count. *)
Theorem sendDM_unread_counts (st : Store) (now : Z)
    (from to content : string) (relatedTaskId : option Id)
    (priority_arg : option Priority) :
  exists st' r,
    sendDM st now from to content relatedTaskId priority_arg = Ok (st', r)
    /\ forall reader,
         Count.dms (getUnreadCount st' reader)
         = Count.dms (getUnreadCount st reader)
           + (if toLowerCase to =? toLowerCase reader then 1 else 0)
         /\ Count.mentions (getUnreadCount st' reader)
            = Count.mentions (getUnreadCount st reader).
Proof.
  destruct (sendDM_effect st now from to content relatedTaskId priority_arg)
    as (st' & Hs & _ & Hm & _).
  exists st'. eexists. split; [exact Hs|]. intros reader.
  unfold getUnreadCount, by_to_agent_unread, unread_mentions. cbv zeta.
  cbn [Count.dms Count.mentions]. rewrite Hm, !filter_app, !length_app.
  split.
  - f_equal.
    cbn [filter dm_doc Msg.toAgent opt_eqb read_is_false Msg.read].
    now destruct (toLowerCase to =? toLowerCase reader).
  - cbn [filter dm_doc is_comment Msg.type andb List.length]. lia.
Qed.

(** X9. The unread-only answer of [getDMs] is the full answer restricted
    to the messages whose [read] field is [false], in the same order; every
    entry of either answer is a DM of the table addressed to the
    lower-cased name. *)
Theorem getDMs_unreadOnly (st : Store) (agentName : string) :
  getDMs st agentName true
  = filter (fun e => read_is_false (Enriched.doc e))
      (getDMs st agentName false)
  /\ forall unreadOnly e,
       In e (getDMs st agentName unreadOnly) ->
       In (Enriched.doc e) (unifiedMessages st)
       /\ Msg.type (Enriched.doc e) = TDm
       /\ Msg.toAgent (Enriched.doc e) = Some (toLowerCase agentName).
Proof.
  split.
  - unfold getDMs, by_to_agent_unread, by_to_agent. cbv zeta.
    rewrite filter_map_swap. cbn [enrich Enriched.doc]. f_equal.
    rewrite !filter_rev. f_equal.
    induction (unifiedMessages st) as [|m r IH]; [reflexivity|].
    cbn [filter].
    destruct (opt_eqb (Msg.toAgent m) (toLowerCase agentName));
      cbn [andb filter]; [| exact IH].
    destruct (read_is_false m) eqn:Er, (is_dm m) eqn:Ed;
      cbn [filter]; rewrite ?Er, ?Ed; cbn [filter]; now rewrite IH.
  - intros uo e He. unfold getDMs in He. cbv zeta in He.
    apply in_map_iff in He. destruct He as (m & <- & Hm).
    cbn [enrich Enriched.doc].
    apply filter_In in Hm. destruct Hm as [Hm Hdm].
    assert (Hin : In m (unifiedMessages st)
                  /\ opt_eqb (Msg.toAgent m) (toLowerCase agentName) = true).
    { destruct uo; apply in_rev in Hm; apply filter_In in Hm;
        destruct Hm as [Hm Hp]; [apply andb_true_iff in Hp|]; tauto. }
    destruct Hin as [Hin Hto]. split; [exact Hin|]. split.
    + unfold is_dm in Hdm. now destruct (Msg.type m).
    + unfold opt_eqb in Hto. destruct (Msg.toAgent m); [| discriminate].
      apply String.eqb_eq in Hto. now subst.
Qed.

Lemma between_sym (a1 a2 : string) (m : Msg.t) :
  between a1 a2 m = between a2 a1 m.
Proof. unfold between. f_equal. apply orb_comm. Qed.

(** X10. A conversation does not depend on the order in which its two
    agents are named. *)
Theorem getConversation_symmetric (st : Store) (agent1 agent2 : string)
    (limit : option Z) :
  getConversation st agent1 agent2 limit
  = getConversation st agent2 agent1 limit.
Proof.
  unfold getConversation. cbv zeta.
  now rewrite (filter_ext _ _ (between_sym (toLowerCase agent1)
                                 (toLowerCase agent2))).
Qed.

(** X11. A limit of [0] is no limit; a negative limit [-k] does not keep
    the last entries but drops the [k] oldest ones. *)
Theorem getConversation_nonpositive_limit (st : Store)
    (agent1 agent2 : string) (k : Z) :
  getConversation st agent1 agent2 (Some 0%Z)
  = getConversation st agent1 agent2 None
  /\ ((0 < k)%Z ->
      getConversation st agent1 agent2 (Some (- k)%Z)
      = skipn (Z.to_nat k) (getConversation st agent1 agent2 None)).
Proof.
  split; [reflexivity|]. intros Hk.
  unfold getConversation. cbv zeta.
  destruct (Z.eqb_spec (- k) 0) as [E|_]; [lia|].
  rewrite skipn_map. f_equal. unfold js_slice_from. cbv zeta.
  destruct (Z.ltb_spec (- - k) 0) as [|_]; [lia|].
  set (l := js_sort oldest_first _).
  destruct (Z.le_gt_cases (- - k) (Z.of_nat (List.length l))) as [Hle|Hgt].
  - f_equal. lia.
  - rewrite !skipn_all2 by lia. reflexivity.
Qed.

Lemma getConversation_nonpositive_limit_witness :
  getConversation Sample.store3 "max" "sam" (Some (- 1)%Z) = [].
Proof.
  exact (eq_trans
           (proj2 (getConversation_nonpositive_limit Sample.store3 "max"
                     "sam" 1) eq_refl)
           eq_refl).
Defined.

(** X12. When no message of the table is younger than a new DM, the DM is
    the last entry of the unlimited conversation of its sender and its
    recipient, and the entries before it are those of before. *)
Theorem sendDM_then_getConversation (st : Store) (now : Z)
    (from to content : string) (relatedTaskId : option Id)
    (priority_arg : option Priority) :
  (forall m, In m (unifiedMessages st) -> (Msg.createdAt m <= now)%Z) ->
  exists st' r,
    sendDM st now from to content relatedTaskId priority_arg = Ok (st', r)
    /\ getConversation st' from to None
       = (getConversation st from to None
          ++ [enrich (agents st)
                (dm_doc st now from to content relatedTaskId
                   (priority_or_normal priority_arg))])%list.
Proof.
  intros Hclock.
  destruct (sendDM_effect st now from to content relatedTaskId priority_arg)
    as (st' & Hs & Ha & Hm & _).
  exists st'. eexists. split; [exact Hs|].
  unfold getConversation. cbv zeta. rewrite Ha, Hm, filter_app.
  assert (Hb : between (toLowerCase from) (toLowerCase to)
                 (dm_doc st now from to content relatedTaskId
                    (priority_or_normal priority_arg)) = true).
  { unfold between, is_dm.
    cbn [dm_doc Msg.type Msg.fromAgent Msg.toAgent opt_eqb andb].
    now rewrite !String.eqb_refl. }
  cbn [filter]. rewrite Hb.
  rewrite (js_sort_snoc oldest_first Msg.createdAt).
  - now rewrite map_app.
  - reflexivity.
  - intros a Hin. apply filter_In in Hin. cbn [dm_doc Msg.createdAt].
    apply Hclock. tauto.
Qed.

Lemma sendDM_then_getConversation_witness :
  exists st' r,
    sendDM Sample.store3 1004 "sam" "max" "done" None None = Ok (st', r)
    /\ map (fun e => Msg.content (Enriched.doc e))
         (getConversation st' "sam" "max" None)
       = ["ship it"; "done"].
Proof.
  destruct (sendDM_then_getConversation Sample.store3 1004 "sam" "max" "done"
              None None) as (st' & r & Hs & Hc).
  - vm_compute. intros m H.
    repeat (destruct H as [<- | H]; [discriminate|]). contradiction.
  - exists st', r. split; [exact Hs|]. rewrite Hc. reflexivity.
Defined.

(** ** Read state: repetition and what a sweep leaves alone *)

Lemma patch_read_again (id : Id) (ms ms' : list Msg.t) :
  patch_read id ms = Some ms' -> patch_read id ms' = Some ms'.
Proof.
  revert ms'. induction ms as [|m r IH]; intros ms' H; [discriminate|].
  cbn [patch_read] in H.
  destruct (Nat.eqb_spec (Msg._id m) id) as [E|E].
  - inversion H; subst. cbn [patch_read]. rewrite set_read_id, Nat.eqb_refl.
    now rewrite set_read_idem.
  - destruct (patch_read id r) as [r'|]; [| discriminate].
    inversion H; subst. cbn [patch_read].
    apply Nat.eqb_neq in E. rewrite E. now rewrite (IH r').
Qed.

Lemma patch_read_Some_iff (id : Id) (ms : list Msg.t) :
  (exists ms', patch_read id ms = Some ms') <-> In id (map Msg._id ms).
Proof.
  induction ms as [|m r IH]; cbn [patch_read map In].
  - split; [intros [? H]; discriminate | contradiction].
  - destruct (Nat.eqb_spec (Msg._id m) id) as [E|E].
    + split; [now left | eexists; reflexivity].
    + split.
      * intros [ms' H]. right. apply IH.
        destruct (patch_read id r) as [r'|]; [| discriminate].
        now exists r'.
      * intros [H|H]; [contradiction|]. apply IH in H.
        destruct H as [r' ->]. eexists. reflexivity.
Qed.

(** X13. [markRead] returns normally exactly when a message of the table
    has the id, and fails with the not-found error of the id otherwise;
    marking a message that is already marked changes nothing. *)
Theorem markRead_idempotent (st : Store) (messageId : Id) :
  ((exists st' r, markRead st messageId = Ok (st', r))
   <-> In messageId (map Msg._id (unifiedMessages st)))
  /\ (~ In messageId (map Msg._id (unifiedMessages st)) ->
      markRead st messageId = Err (DocumentNotFound messageId))
  /\ (forall st' r,
        markRead st messageId = Ok (st', r) ->
        markRead st' messageId = Ok (st', true)).
Proof.
  unfold markRead, db_patch_read. split; [| split].
  - rewrite <- patch_read_Some_iff. split.
    + intros (st' & r & H).
      destruct (patch_read messageId (unifiedMessages st)) as [ms|];
        [now exists ms | discriminate].
    + intros [ms ->]. eexists. eexists. reflexivity.
  - intros H. now rewrite patch_read_absent.
  - intros st' r H.
    destruct (patch_read messageId (unifiedMessages st)) as [ms|] eqn:Hp;
      [| discriminate].
    cbn [bind] in H. inversion H; subst. cbn [unifiedMessages].
    rewrite (patch_read_again _ _ _ Hp). reflexivity.
Qed.

Lemma markRead_idempotent_witness :
  markRead Sample.store0 100 = Err (DocumentNotFound 100).
Proof.
  apply (proj1 (proj2 (markRead_idempotent Sample.store0 100))).
  intros [].
Defined.

Lemma markAllRead_swept (st st' : Store) (agentName : string) (n : nat) :
  wf_store st -> markAllRead st agentName = Ok (st', n) ->
  st' = swept st (toLowerCase agentName)
  /\ n = List.length (by_to_agent_unread st (toLowerCase agentName))
         + List.length (sweep_mentions st (toLowerCase agentName)).
Proof.
  intros Hwf H. rewrite (markAllRead_ok st agentName Hwf) in H.
  inversion H; subst. split; reflexivity.
Qed.

Lemma mark_all_marked (ids : list Id) (m : Msg.t) :
  existsb (Nat.eqb (Msg._id m)) ids = true ->
  mark_all ids m = Msg.set_read m.
Proof. unfold mark_all. now intros ->. Qed.

Lemma mark_all_unmarked (ids : list Id) (m : Msg.t) :
  existsb (Nat.eqb (Msg._id m)) ids = false -> mark_all ids m = m.
Proof. unfold mark_all. now intros ->. Qed.

(** After the sweep nothing is left that the sweep would select. *)
Lemma swept_clean (st : Store) (name : string) :
  by_to_agent_unread (swept st name) name = []
  /\ sweep_mentions (swept st name) name = []
  /\ unread_mentions (swept st name) name = [].
Proof.
  unfold by_to_agent_unread, sweep_mentions, unread_mentions, swept.
  cbn [unifiedMessages].
  repeat split; apply filter_none; intros x Hx;
    apply in_map_iff in Hx; destruct Hx as (m & <- & Hm);
    destruct (existsb (Nat.eqb (Msg._id m)) (swept_ids st name)) eqn:He.
  - rewrite (mark_all_marked _ _ He). cbn. apply andb_false_r.
  - rewrite (mark_all_unmarked _ _ He).
    destruct (opt_eqb (Msg.toAgent m) name && read_is_false m) eqn:Hp;
      [| reflexivity].
    exfalso. unfold swept_ids in He.
    rewrite existsb_id_of in He; [discriminate|].
    apply in_or_app. left. apply filter_In. now split.
  - rewrite (mark_all_marked _ _ He). cbn. now rewrite andb_false_r.
  - rewrite (mark_all_unmarked _ _ He).
    destruct (is_comment m && not_read m && mentions_include m name) eqn:Hp;
      [| reflexivity].
    exfalso. unfold swept_ids in He.
    rewrite existsb_id_of in He; [discriminate|].
    apply in_or_app. right. apply filter_In. now split.
  - rewrite (mark_all_marked _ _ He). cbn. now rewrite !andb_false_r.
  - rewrite (mark_all_unmarked _ _ He).
    destruct (is_comment m && not_read m && mentions_include m name) eqn:Hp;
      [| reflexivity].
    exfalso. unfold swept_ids in He.
    rewrite existsb_id_of in He; [discriminate|].
    apply in_or_app. right. apply filter_In. now split.
Qed.

Lemma map_mark_all_nil (l : list Msg.t) : map (mark_all []) l = l.
Proof.
  rewrite <- (map_id l) at 2. apply map_ext. intros m. apply mark_all_nil.
Qed.

(** X14. On a well-formed store, a [markAllRead] repeated right after a
    [markAllRead] for the same agent marks nothing: it returns [0] and
    leaves the store as it is. *)
Theorem markAllRead_twice (st st' : Store) (agentName : string) (n : nat) :
  wf_store st -> markAllRead st agentName = Ok (st', n) ->
  markAllRead st' agentName = Ok (st', 0).
Proof.
  intros Hwf H.
  pose proof (markAllRead_wf st st' agentName n Hwf H) as Hwf'.
  apply markAllRead_swept in H; [| exact Hwf]. destruct H as [-> _].
  rewrite (markAllRead_ok _ agentName Hwf').
  destruct (swept_clean st (toLowerCase agentName)) as (Hd & Hs & _).
  unfold swept_ids. rewrite Hd, Hs. cbn [app map List.length Nat.add].
  unfold swept at 1 3 4 5 6 7 8.
  cbn [agents tasks unifiedMessages agentMessages notifications
       activityEvents nextId].
  now rewrite map_mark_all_nil.
Qed.

Lemma markAllRead_twice_witness :
  markAllRead (Sample.after (markAllRead Sample.store3 "Sam")) "Sam"
  = Ok (Sample.after (markAllRead Sample.store3 "Sam"), 0).
Proof.
  apply (markAllRead_twice Sample.store3 _ "Sam" 3).
  - exact store3_wf.
  - vm_compute. reflexivity.
Defined.

Lemma msg_id_inj (l : list Msg.t) (a b : Msg.t) :
  NoDup (map Msg._id l) -> In a l -> In b l ->
  Msg._id a = Msg._id b -> a = b.
Proof.
  induction l as [|c r IH]; [contradiction|].
  simpl. intros Hnd Ha Hb Heq.
  inversion Hnd as [|? ? Hnot Hnd']; subst.
  destruct Ha as [->|Ha], Hb as [->|Hb].
  - reflexivity.
  - exfalso. apply Hnot. rewrite Heq. now apply in_map.
  - exfalso. apply Hnot. rewrite <- Heq. now apply in_map.
  - now apply IH.
Qed.

(** With distinct ids, the sweep for [name] patches exactly the documents
    it selected. *)
Lemma swept_ids_selected (st : Store) (name : string) (m : Msg.t) :
  NoDup (map Msg._id (unifiedMessages st)) ->
  In m (unifiedMessages st) ->
  existsb (Nat.eqb (Msg._id m)) (swept_ids st name) = true ->
  In m (by_to_agent_unread st name) \/ In m (sweep_mentions st name).
Proof.
  intros Hnd Hin He. apply existsb_exists in He.
  destruct He as (i & Hi & Heq). apply Nat.eqb_eq in Heq. subst i.
  unfold swept_ids in Hi. apply in_map_iff in Hi.
  destruct Hi as (m' & Hid & Hm').
  assert (Hin' : In m' (unifiedMessages st)).
  { apply in_app_or in Hm'. destruct Hm' as [H|H];
      apply filter_In in H; tauto. }
  assert (m' = m) by (eapply msg_id_inj; eassumption). subst m'.
  now apply in_app_or.
Qed.

Lemma filter_map_fix {A} (q : A -> bool) (g : A -> A) (l : list A) :
  (forall m, In m l -> q (g m) = true \/ q m = true -> g m = m) ->
  filter q (map g l) = filter q l.
Proof.
  induction l as [|x r IH]; intros H; [reflexivity|].
  cbn [map filter].
  rewrite IH by (intros m Hm; apply H; now right).
  destruct (q (g x)) eqn:E1.
  - assert (Hg : g x = x) by (apply H; [now left | now left]).
    rewrite Hg in E1 |- *. now rewrite E1.
  - destruct (q x) eqn:E2; [| reflexivity].
    assert (Hg : g x = x) by (apply H; [now left | now right]).
    rewrite Hg in E1. congruence.
Qed.

Lemma filter_twice {A} (p q : A -> bool) (l : list A) :
  filter p (filter q l) = filter (fun x => q x && p x) l.
Proof.
  induction l as [|x r IH]; [reflexivity|].
  cbn [filter]. destruct (q x); cbn [andb filter]; now rewrite IH.
Qed.

(** X15. On a well-formed store, [markAllRead] for one agent changes no DM
    addressed to another: [getDMs] of every agent of a different
    lower-cased name answers as before, unread-only or not. *)
Theorem markAllRead_keeps_other_dms (st st' : Store) (agentName : string)
    (n : nat) (other : string) (unreadOnly : bool) :
  wf_store st -> markAllRead st agentName = Ok (st', n) ->
  toLowerCase other <> toLowerCase agentName ->
  getDMs st' other unreadOnly = getDMs st other unreadOnly.
Proof.
  intros Hwf H Hne. pose proof Hwf as (Hnd & _ & _).
  apply markAllRead_swept in H; [| exact Hwf]. destruct H as [-> _].
  unfold getDMs, by_to_agent_unread, by_to_agent. cbv zeta.
  unfold swept at 1 2 3. cbn [agents unifiedMessages].
  assert (Hkeep : forall m,
            In m (unifiedMessages st) ->
            is_dm m = true ->
            opt_eqb (Msg.toAgent m) (toLowerCase other) = true ->
            mark_all (swept_ids st (toLowerCase agentName)) m = m).
  { intros m Hin Hdm Hto. apply mark_all_unmarked.
    destruct (existsb (Nat.eqb (Msg._id m))
                (swept_ids st (toLowerCase agentName))) eqn:He;
      [| reflexivity].
    exfalso. apply swept_ids_selected in He; try assumption.
    destruct He as [He|He]; apply filter_In in He; destruct He as [_ He].
    - apply andb_true_iff in He. destruct He as [He _].
      unfold opt_eqb in *. destruct (Msg.toAgent m); [| discriminate].
      apply String.eqb_eq in He, Hto. congruence.
    - unfold is_comment, is_dm in *. destruct (Msg.type m); discriminate. }
  assert (Hsame : forall m,
            is_dm (mark_all (swept_ids st (toLowerCase agentName)) m) = is_dm m
            /\ Msg.toAgent (mark_all (swept_ids st (toLowerCase agentName)) m)
               = Msg.toAgent m).
  { intros m. unfold mark_all.
    now destruct (existsb (Nat.eqb (Msg._id m))
                    (swept_ids st (toLowerCase agentName))). }
  f_equal. destruct unreadOnly; rewrite !filter_rev; f_equal.
  - rewrite !filter_twice.
    apply filter_map_fix. intros m Hin Hq.
    destruct (Hsame m) as [Hd Ht]. rewrite Hd, Ht in Hq.
    apply Hkeep; try assumption;
      destruct Hq as [Hq|Hq]; repeat (apply andb_true_iff in Hq;
                                      destruct Hq as [Hq ?]); assumption.
  - rewrite !filter_twice.
    apply filter_map_fix. intros m Hin Hq.
    destruct (Hsame m) as [Hd Ht]. rewrite Hd, Ht in Hq.
    apply Hkeep; try assumption;
      destruct Hq as [Hq|Hq]; repeat (apply andb_true_iff in Hq;
                                      destruct Hq as [Hq ?]); assumption.
Qed.

Lemma markAllRead_keeps_other_dms_witness :
  getDMs
    (Sample.after
       (markAllRead
          (Sample.after
             (sendDM Sample.store3 1004 "max" "leo" "hi" None None))
          "Sam"))
    "Leo" true
  = getDMs
      (Sample.after (sendDM Sample.store3 1004 "max" "leo" "hi" None None))
      "Leo" true.
Proof.
  apply (markAllRead_keeps_other_dms
           (Sample.after
              (sendDM Sample.store3 1004 "max" "leo" "hi" None None))
           _ "Sam" 3).
  - apply (sendDM_wf Sample.store3 _ 1004 "max" "leo" "hi" None None
             (DmRet.mk 115 "max" "leo" Normal) store3_wf).
    vm_compute. reflexivity.
  - vm_compute. reflexivity.
  - intros H. vm_compute in H. discriminate H.
Defined.

(** X16. The read state of messages and the read state of notifications
    are separate: when a DM between two known agents is sent and the
    recipient then runs [markAllRead], the recipient's unread summary of
    messages is all zero, and the notification written for the DM is still
    unread, so the recipient has one unread notification more than before
    the DM. *)
Theorem markAllRead_keeps_notifications (st : Store) (now : Z)
    (from to content : string) (relatedTaskId : option Id)
    (priority_arg : option Priority) (f t : Agent.t) :
  wf_store st ->
  find_agent (agents st) (toLowerCase from) = Some f ->
  find_agent (agents st) (toLowerCase to) = Some t ->
  exists st1 r st2 marked,
    sendDM st now from to content relatedTaskId priority_arg = Ok (st1, r)
    /\ markAllRead st1 to = Ok (st2, marked)
    /\ getUnreadCount st2 to = Count.mk 0 0 0
    /\ notifications st2 = notifications st1
    /\ Notifications.getUnreadCount st2 (Agent._id t)
       = Notifications.getUnreadCount st (Agent._id t) + 1.
Proof.
  intros Hwf Hf Ht.
  destruct (sendDM_effect st now from to content relatedTaskId priority_arg)
    as (st1 & Hs & _ & _ & Hn & _ & _).
  assert (Hwf1 : wf_store st1) by (eapply sendDM_wf; eassumption).
  exists st1. eexists. exists (swept st1 (toLowerCase to)). eexists.
  split; [exact Hs|]. split; [exact (markAllRead_ok st1 to Hwf1)|].
  destruct (swept_clean st1 (toLowerCase to)) as (Hd & _ & Hm).
  split; [| split].
  - unfold getUnreadCount. cbv zeta. now rewrite Hd, Hm.
  - reflexivity.
  - unfold Notifications.getUnreadCount, Notifications.by_read_status_unread.
    unfold swept. cbn [notifications]. rewrite Hn.
    unfold dm_notifications. rewrite Hf, Ht.
    rewrite filter_app, length_app.
    cbn [filter Notif.to Notif.read negb andb]. rewrite Nat.eqb_refl.
    reflexivity.
Qed.

Lemma markAllRead_keeps_notifications_witness :
  exists st1 r st2 marked,
    sendDM Sample.store0 1000 "max" "sam" "ship it" None None = Ok (st1, r)
    /\ markAllRead st1 "sam" = Ok (st2, marked)
    /\ getUnreadCount st2 "sam" = Count.mk 0 0 0
    /\ Notifications.getUnreadCount st2 2 = 1.
Proof.
  destruct (markAllRead_keeps_notifications Sample.store0 1000 "max" "sam"
              "ship it" None None Sample.max Sample.sam)
    as (st1 & r & st2 & marked & H1 & H2 & H3 & _ & H5).
  - apply fresh_store_wf; [reflexivity|].
    repeat (constructor; [simpl; intuition lia|]). constructor.
  - reflexivity.
  - reflexivity.
  - exists st1, r, st2, marked. repeat split; assumption.
Defined.

(** X17. The lists of [getUnread] hold at most ten entries each, and the
    counts it reports are the lengths of those lists, not the numbers of
    unread items: its mention count is the smaller of ten and the mention
    count of [getUnreadCount], its DM count is at most the smaller of ten
    and the DM count of [getUnreadCount], and its total is their sum. *)
Theorem getUnread_capped (st : Store) (agentName : string) :
  let u := getUnread st agentName in
  let c := getUnreadCount st agentName in
  List.length (UnreadRet.dms u) = Count.dms (UnreadRet.count u)
  /\ List.length (UnreadRet.mentions u) = Count.mentions (UnreadRet.count u)
  /\ Count.mentions (UnreadRet.count u) = Nat.min 10 (Count.mentions c)
  /\ Count.dms (UnreadRet.count u) <= Nat.min 10 (Count.dms c)
  /\ Count.total (UnreadRet.count u)
     = Count.dms (UnreadRet.count u) + Count.mentions (UnreadRet.count u)
  /\ Count.total (UnreadRet.count u) <= 20.
Proof.
  cbv zeta. unfold getUnread, getUnreadCount. cbv zeta.
  cbn [UnreadRet.dms UnreadRet.mentions UnreadRet.count Count.dms
       Count.mentions Count.total].
  rewrite !length_map.
  set (dmsl := by_to_agent_unread st (toLowerCase agentName)).
  set (ml := unread_mentions st (toLowerCase agentName)).
  assert (Hm : List.length (firstn 10 (js_sort newest_first ml))
               = Nat.min 10 (List.length ml)).
  { now rewrite length_firstn, js_sort_length. }
  assert (Hd : List.length (filter is_dm (firstn 10 (rev dmsl)))
               <= Nat.min 10 (List.length dmsl)).
  { etransitivity; [apply filter_length_le with (q := fun _ => true);
                    reflexivity|].
    rewrite filter_true, length_firstn, length_rev. reflexivity. }
  repeat split; try reflexivity; try assumption. lia.
Qed.

(** X18. On a well-formed store, [getUnread] called right after
    [markAllRead] for the same agent lists nothing and counts nothing. *)
Theorem markAllRead_then_getUnread (st st' : Store) (agentName : string)
    (n : nat) :
  wf_store st -> markAllRead st agentName = Ok (st', n) ->
  getUnread st' agentName = UnreadRet.mk [] [] (Count.mk 0 0 0).
Proof.
  intros Hwf H. apply markAllRead_swept in H; [| exact Hwf].
  destruct H as [-> _].
  destruct (swept_clean st (toLowerCase agentName)) as (Hd & _ & Hm).
  unfold getUnread. cbv zeta. now rewrite Hd, Hm.
Qed.

Lemma markAllRead_then_getUnread_witness :
  getUnread (Sample.after (markAllRead Sample.store3 "Sam")) "Sam"
  = UnreadRet.mk [] [] (Count.mk 0 0 0).
Proof.
  apply (markAllRead_then_getUnread Sample.store3 _ "Sam" 3).
  - exact store3_wf.
  - vm_compute. reflexivity.
Defined.

(** ** Tables updated by id *)

Section ByIdFacts.
Context {A : Type} (id_of : A -> Id) (f : A -> A).
Hypothesis f_id : forall x, id_of (f x) = id_of x.
Hypothesis f_idem : forall x, f (f x) = f x.

Lemma id_inj (l : list A) (a b : A) :
  NoDup (map id_of l) -> In a l -> In b l -> id_of a = id_of b -> a = b.
Proof.
  induction l as [|c r IH]; [contradiction|].
  simpl. intros Hnd Ha Hb Heq.
  inversion Hnd as [|? ? Hnot Hnd']; subst.
  destruct Ha as [->|Ha], Hb as [->|Hb].
  - reflexivity.
  - exfalso. apply Hnot. rewrite Heq. now apply in_map.
  - exfalso. apply Hnot. rewrite <- Heq. now apply in_map.
  - now apply IH.
Qed.

Lemma patch_first_absent (id : Id) (l : list A) :
  ~ In id (map id_of l) -> patch_first id_of f id l = None.
Proof.
  induction l as [|x r IH]; cbn [patch_first map In]; intros H;
    [reflexivity|].
  destruct (Nat.eqb_spec (id_of x) id) as [E|E]; [tauto|].
  rewrite IH by tauto. reflexivity.
Qed.

Lemma patch_first_present (id : Id) (l : list A) :
  NoDup (map id_of l) -> In id (map id_of l) ->
  patch_first id_of f id l
  = Some (map (fun x => if (id_of x =? id)%nat then f x else x) l).
Proof.
  induction l as [|x r IH]; cbn [patch_first map In]; intros Hnd Hin;
    [contradiction|].
  inversion Hnd as [|? ? Hnot Hnd']; subst.
  destruct (Nat.eqb_spec (id_of x) id) as [E|E].
  - f_equal. f_equal. rewrite <- (map_id r) at 1. apply map_ext_in.
    intros y Hy. destruct (Nat.eqb_spec (id_of y) id) as [E'|]; [| reflexivity].
    exfalso. apply Hnot. rewrite E, <- E'. now apply in_map.
  - destruct Hin as [Hin|Hin]; [contradiction|]. now rewrite IH.
Qed.

Lemma delete_first_absent (id : Id) (l : list A) :
  ~ In id (map id_of l) -> delete_first id_of id l = None.
Proof.
  induction l as [|x r IH]; cbn [delete_first map In]; intros H;
    [reflexivity|].
  destruct (Nat.eqb_spec (id_of x) id) as [E|E]; [tauto|].
  rewrite IH by tauto. reflexivity.
Qed.

Lemma delete_first_present (id : Id) (l : list A) :
  NoDup (map id_of l) -> In id (map id_of l) ->
  delete_first id_of id l
  = Some (filter (fun x => negb (id_of x =? id)%nat) l).
Proof.
  induction l as [|x r IH]; cbn [delete_first map In filter];
    intros Hnd Hin; [contradiction|].
  inversion Hnd as [|? ? Hnot Hnd']; subst.
  destruct (Nat.eqb_spec (id_of x) id) as [E|E]; cbn [negb].
  - f_equal. symmetry. apply filter_keeps_all. intros y Hy.
    apply negb_true_iff, Nat.eqb_neq. intros E'.
    apply Hnot. rewrite E, <- E'. now apply in_map.
  - destruct Hin as [Hin|Hin]; [contradiction|]. now rewrite IH.
Qed.

Lemma NoDup_filter_ids (p : A -> bool) (l : list A) :
  NoDup (map id_of l) -> NoDup (map id_of (filter p l)).
Proof.
  induction l as [|x r IH]; intros H; [constructor|].
  inversion H as [|? ? Hnot Hnd]; subst.
  cbn [filter]. destruct (p x); [| now apply IH].
  cbn [map]. constructor; [| now apply IH].
  intros Hin. apply Hnot. apply in_map_iff in Hin.
  destruct Hin as (y & Hy & Hin). apply filter_In in Hin.
  rewrite <- Hy. apply in_map. tauto.
Qed.

Lemma named_In (l : list A) (x : A) :
  In x l -> named id_of (map id_of l) x = true.
Proof.
  intros H. apply existsb_exists. exists (id_of x).
  split; [now apply in_map | apply Nat.eqb_refl].
Qed.

(** The documents of a table of distinct ids that the ids of the selected
    ones name are the selected ones. *)
Lemma named_filter (p : A -> bool) (l : list A) (x : A) :
  NoDup (map id_of l) -> In x l ->
  named id_of (map id_of (filter p l)) x = p x.
Proof.
  intros Hnd Hin. destruct (p x) eqn:Hp.
  - apply named_In. apply filter_In. now split.
  - destruct (named id_of (map id_of (filter p l)) x) eqn:Hn; [| reflexivity].
    apply existsb_exists in Hn. destruct Hn as (i & Hi & He).
    apply Nat.eqb_eq in He. subst i. apply in_map_iff in Hi.
    destruct Hi as (y & Hy & Hyin). apply filter_In in Hyin.
    destruct Hyin as [Hyin Hpy].
    assert (y = x) by (eapply id_inj; eassumption). congruence.
Qed.

(** Deleting the documents that distinct ids of the table name leaves the
    others, in their order. *)
Lemma delete_list_ok (ids : list Id) :
  forall l,
    NoDup (map id_of l) -> NoDup ids -> incl ids (map id_of l) ->
    delete_list id_of ids l
    = Some (filter (fun x => negb (named id_of ids x)) l).
Proof.
  induction ids as [|i r IH]; intros l Hnd Hids Hincl.
  - cbn. f_equal. symmetry. now apply filter_keeps_all.
  - cbn [delete_list]. inversion Hids as [|? ? Hnot Hids']; subst.
    rewrite delete_first_present; [| exact Hnd | apply Hincl; now left].
    rewrite IH.
    + f_equal. rewrite filter_twice. apply filter_ext. intros x.
      unfold named. cbn [existsb]. now rewrite negb_orb.
    + now apply NoDup_filter_ids.
    + exact Hids'.
    + intros j Hj.
      assert (Hjl : In j (map id_of l)) by (apply Hincl; now right).
      apply in_map_iff in Hjl. destruct Hjl as (y & <- & Hy).
      apply in_map. apply filter_In. split; [exact Hy|].
      apply negb_true_iff, Nat.eqb_neq. intros E. apply Hnot. now rewrite <- E.
Qed.

Lemma delete_list_filter (p : A -> bool) (l : list A) :
  NoDup (map id_of l) ->
  delete_list id_of (map id_of (filter p l)) l
  = Some (filter (fun x => negb (p x)) l).
Proof.
  intros Hnd. rewrite delete_list_ok.
  - f_equal. apply filter_ext_in. intros x Hx.
    now rewrite named_filter.
  - exact Hnd.
  - now apply NoDup_filter_ids.
  - intros i Hi. apply in_map_iff in Hi. destruct Hi as (y & <- & Hy).
    apply in_map. apply filter_In in Hy. tauto.
Qed.

(** Patching the documents that ids of the table name rewrites exactly
    those. *)
Lemma patch_list_ok (ids : list Id) :
  forall l,
    NoDup (map id_of l) -> incl ids (map id_of l) ->
    patch_list id_of f ids l
    = Some (map (fun x => if named id_of ids x then f x else x) l).
Proof.
  induction ids as [|i r IH]; intros l Hnd Hincl.
  - cbn. f_equal. symmetry. rewrite <- (map_id l) at 2. now apply map_ext.
  - cbn [patch_list].
    rewrite patch_first_present; [| exact Hnd | apply Hincl; now left].
    assert (Hids : map id_of
                     (map (fun x => if (id_of x =? i)%nat then f x else x) l)
                   = map id_of l).
    { rewrite map_map. apply map_ext. intros x.
      now destruct (id_of x =? i)%nat. }
    rewrite IH.
    + f_equal. rewrite map_map. apply map_ext. intros x.
      unfold named. cbn [existsb].
      destruct (Nat.eqb_spec (id_of x) i) as [E|E]; cbn [orb].
      * rewrite f_id, f_idem. now destruct (existsb (Nat.eqb (id_of x)) r).
      * reflexivity.
    + now rewrite Hids.
    + rewrite Hids. intros j Hj. apply Hincl. now right.
Qed.

Lemma patch_list_filter (p : A -> bool) (l : list A) :
  NoDup (map id_of l) ->
  patch_list id_of f (map id_of (filter p l)) l
  = Some (map (fun x => if p x then f x else x) l).
Proof.
  intros Hnd. rewrite patch_list_ok.
  - f_equal. apply map_ext_in. intros x Hx. now rewrite named_filter.
  - exact Hnd.
  - intros i Hi. apply in_map_iff in Hi. destruct Hi as (y & <- & Hy).
    apply in_map. apply filter_In in Hy. tauto.
Qed.

End ByIdFacts.

(** ** notifications.ts *)

Lemma with_notifications_same (st : Store) :
  Notifications.with_notifications st (notifications st) = st.
Proof. now destruct st. Qed.

Lemma notif_set_read_id (n : Notif.t) :
  Notif._id (Notifications.set_read n) = Notif._id n.
Proof. reflexivity. Qed.

Lemma notif_set_read_idem (n : Notif.t) :
  Notifications.set_read (Notifications.set_read n)
  = Notifications.set_read n.
Proof. reflexivity. Qed.

(** The loop of patches, in terms of the table. *)
Lemma notif_patch_each_list (D : list Notif.t) :
  forall st l',
    patch_list Notif._id Notifications.set_read (map Notif._id D)
      (notifications st) = Some l' ->
    Notifications.patch_each D st
    = Ok (Notifications.with_notifications st l').
Proof.
  induction D as [|d r IH]; intros st l' H.
  - cbn in H. inversion H; subst. cbn.
    now rewrite with_notifications_same.
  - cbn [map patch_list] in H. cbn [Notifications.patch_each].
    unfold Notifications.db_patch_read.
    destruct (patch_first Notif._id Notifications.set_read (Notif._id d)
                (notifications st)) as [l1|]; [| discriminate].
    cbn [bind]. rewrite (IH _ l'); [reflexivity | exact H].
Qed.

(** The loop of deletions, in terms of the table. *)
Lemma notif_delete_each_list (D : list Notif.t) :
  forall st l',
    delete_list Notif._id (map Notif._id D) (notifications st) = Some l' ->
    Notifications.delete_each D st
    = Ok (Notifications.with_notifications st l').
Proof.
  induction D as [|d r IH]; intros st l' H.
  - cbn in H. inversion H; subst. cbn.
    now rewrite with_notifications_same.
  - cbn [map delete_list] in H. cbn [Notifications.delete_each].
    unfold Notifications.db_delete.
    destruct (delete_first Notif._id (Notif._id d) (notifications st))
      as [l1|]; [| discriminate].
    cbn [bind]. rewrite (IH _ l'); [reflexivity | exact H].
Qed.

Lemma filter_split_length {A} (p : A -> bool) (l : list A) :
  List.length (filter p l) + List.length (filter (fun x => negb (p x)) l)
  = List.length l.
Proof.
  induction l as [|x r IH]; [reflexivity|].
  cbn [filter]. destruct (p x); cbn [negb List.length]; lia.
Qed.

(** X19. On a table of distinct notification ids,
    [notifications.markAllAsRead] returns the number of unread
    notifications the agent had, after which the agent has none; it
    removes no notification, leaves the unread notifications of every
    other agent as they are, and does not touch the messages. *)
Theorem notifications_markAllAsRead (st : Store) (agent : Id) :
  wf_notifications st ->
  exists st',
    Notifications.markAllAsRead st agent
    = Ok (st', Notifications.getUnreadCount st agent)
    /\ Notifications.getUnreadCount st' agent = 0
    /\ (forall other, other <> agent ->
          Notifications.getUnread st' other
          = Notifications.getUnread st other)
    /\ map Notif._id (notifications st') = map Notif._id (notifications st)
    /\ unifiedMessages st' = unifiedMessages st.
Proof.
  intros Hnd. unfold wf_notifications in Hnd.
  set (p := fun n => (Notif.to n =? agent)%nat && negb (Notif.read n)).
  set (g := fun n => if p n then Notifications.set_read n else n).
  exists (Notifications.with_notifications st (map g (notifications st))).
  split.
  { unfold Notifications.markAllAsRead. cbv zeta.
    rewrite (notif_patch_each_list _ st (map g (notifications st))).
    - reflexivity.
    - apply (patch_list_filter Notif._id Notifications.set_read
               notif_set_read_id notif_set_read_idem p); exact Hnd. }
  unfold Notifications.getUnreadCount, Notifications.getUnread,
    Notifications.by_read_status_unread.
  cbn [Notifications.with_notifications notifications unifiedMessages].
  split; [| split; [| split]].
  - fold p. rewrite filter_none; [reflexivity|].
    intros x Hx. apply in_map_iff in Hx. destruct Hx as (n & <- & _).
    unfold g. destruct (p n) eqn:Hp; [| exact Hp].
    unfold p. cbn. apply andb_false_r.
  - intros other Hne. f_equal. apply filter_map_fix.
    intros n _ Hq. unfold g.
    destruct (p n) eqn:Hp; [| reflexivity]. exfalso.
    unfold p in Hp. apply andb_true_iff in Hp. destruct Hp as [Hp _].
    apply Nat.eqb_eq in Hp.
    assert (Hto : (Notif.to n =? other)%nat = true).
    { destruct Hq as [Hq|Hq]; apply andb_true_iff in Hq;
        destruct Hq as [Hq _]; revert Hq; unfold g;
        destruct (p n); cbn; tauto. }
    apply Nat.eqb_eq in Hto. congruence.
  - rewrite map_map. apply map_ext. intros n. unfold g.
    now destruct (p n).
  - reflexivity.
Qed.

(** X20. On a table of distinct notification ids, [clearAll] deletes the
    notifications addressed to the agent, read or not, and no other: it
    returns their number, the agent has none left, and every other
    agent's list is as before. *)
Theorem notifications_clearAll (st : Store) (agent : Id) :
  wf_notifications st ->
  exists st',
    Notifications.clearAll st agent
    = Ok (st', List.length (Notifications.getByAgent st agent))
    /\ notifications st'
       = filter (fun n => negb (Notif.to n =? agent)%nat) (notifications st)
    /\ Notifications.getByAgent st' agent = []
    /\ (forall other, other <> agent ->
          Notifications.getByAgent st' other
          = Notifications.getByAgent st other).
Proof.
  intros Hnd. unfold wf_notifications in Hnd.
  eexists. split.
  { unfold Notifications.clearAll, Notifications.by_recipient. cbv zeta.
    rewrite (notif_delete_each_list _ st _
               (delete_list_filter Notif._id _ _ Hnd)).
    cbn [bind]. unfold Notifications.getByAgent, Notifications.by_recipient.
    now rewrite length_rev. }
  unfold Notifications.getByAgent, Notifications.by_recipient.
  cbn [Notifications.with_notifications notifications].
  split; [reflexivity|]. split.
  - rewrite filter_twice, filter_none; [reflexivity|].
    intros n _. apply andb_negb_l.
  - intros other Hne. f_equal. rewrite filter_twice.
    apply filter_ext. intros n.
    destruct (Nat.eqb_spec (Notif.to n) other) as [E|E];
      [| apply andb_false_r].
    rewrite andb_true_r. apply negb_true_iff, Nat.eqb_neq. congruence.
Qed.

(** X21. On a table of distinct notification ids, [cleanup] deletes the
    notifications created before [now] minus the given number of hours
    (24 when none is given), read or not, and keeps the others in their
    order; the two counts it returns add up to the size of the table
    before, and [remaining] is the size of the table after. *)
Theorem notifications_cleanup (st : Store) (now : Z) (hoursOld : option Z) :
  wf_notifications st ->
  let hours := match hoursOld with Some h => h | None => 24%Z end in
  let cutoff := (now - hours * 3600000)%Z in
  exists st' r,
    Notifications.cleanup st now hoursOld = Ok (st', r)
    /\ notifications st'
       = filter (fun n => (cutoff <=? Notif.createdAt n)%Z)
           (notifications st)
    /\ Notifications.cutoffHours r = hours
    /\ (Z.of_nat (Notifications.deleted r) + Notifications.remaining r
        = Z.of_nat (List.length (notifications st)))%Z
    /\ Notifications.remaining r
       = Z.of_nat (List.length (notifications st')).
Proof.
  intros Hnd hours cutoff. unfold wf_notifications in Hnd.
  pose proof (filter_split_length
                (fun n => (Notif.createdAt n <? cutoff)%Z)
                (notifications st)) as Hsplit.
  pose proof (notif_delete_each_list _ st _
                (delete_list_filter Notif._id
                   (fun n => (Notif.createdAt n <? cutoff)%Z) _ Hnd))
    as Hdel.
  assert (Hfilter : filter (fun n => negb (Notif.createdAt n <? cutoff)%Z)
                      (notifications st)
                    = filter (fun n => (cutoff <=? Notif.createdAt n)%Z)
                        (notifications st)).
  { apply filter_ext. intros n. now rewrite Z.leb_antisym. }
  eexists. eexists. split.
  { unfold Notifications.cleanup. cbv zeta.
    replace (now - match hoursOld with Some h => h | None => 24 end
                   * 60 * 60 * 1000)%Z with cutoff
      by (unfold cutoff, hours; lia).
    rewrite Hdel. reflexivity. }
  cbn [Notifications.with_notifications notifications
       Notifications.cutoffHours Notifications.deleted
       Notifications.remaining].
  rewrite <- Hfilter.
  repeat split; lia.
Qed.

(** X22. On a table of distinct notification ids, [clearRead] deletes the
    agent's notifications that are read and were created before the
    cut-off (seven days before [now] when none is given), and returns
    their number; it never deletes an unread notification, so every
    agent's unread list is as before. *)
Theorem notifications_clearRead (st : Store) (now : Z) (agent : Id)
    (olderThan : option Z) :
  wf_notifications st ->
  let cutoff := match olderThan with
                | Some t => t
                | None => (now - 604800000)%Z
                end in
  exists st' deleted,
    Notifications.clearRead st now agent olderThan = Ok (st', deleted)
    /\ notifications st'
       = filter (fun n => negb ((Notif.to n =? agent)%nat && Notif.read n
                                && (Notif.createdAt n <? cutoff)%Z))
           (notifications st)
    /\ deleted + List.length (notifications st')
       = List.length (notifications st)
    /\ (forall a, Notifications.getUnread st' a
                  = Notifications.getUnread st a).
Proof.
  intros Hnd cutoff. unfold wf_notifications in Hnd.
  pose proof (filter_split_length
                (fun n => (Notif.to n =? agent)%nat && Notif.read n
                          && (Notif.createdAt n <? cutoff)%Z)
                (notifications st)) as Hsplit.
  pose proof (notif_delete_each_list _ st _
                (delete_list_filter Notif._id
                   (fun n => (Notif.to n =? agent)%nat && Notif.read n
                             && (Notif.createdAt n <? cutoff)%Z) _ Hnd))
    as Hdel.
  assert (Hsel : filter (fun n => Notif.read n
                                  && (Notif.createdAt n <? cutoff)%Z)
                   (Notifications.by_recipient st agent)
                 = filter (fun n => (Notif.to n =? agent)%nat && Notif.read n
                                    && (Notif.createdAt n <? cutoff)%Z)
                     (notifications st)).
  { unfold Notifications.by_recipient. rewrite filter_twice.
    apply filter_ext. intros n. now rewrite andb_assoc. }
  eexists. eexists. split.
  { unfold Notifications.clearRead. cbv zeta.
    replace (Notifications.clearRead_cutoff now olderThan) with cutoff
      by (unfold cutoff, Notifications.clearRead_cutoff;
          destruct olderThan; [reflexivity | lia]).
    rewrite Hsel, Hdel. reflexivity. }
  cbn [Notifications.with_notifications notifications].
  split; [reflexivity|]. split; [exact Hsplit|].
  intros a. unfold Notifications.getUnread,
              Notifications.by_read_status_unread.
  cbn [Notifications.with_notifications notifications].
  f_equal. rewrite filter_twice. apply filter_ext. intros n.
  now destruct (Notif.read n), (Notif.to n =? agent)%nat,
    (Notif.createdAt n <? cutoff)%Z, (Notif.to n =? a)%nat.
Qed.

Lemma store3_wf_notifications : wf_notifications Sample.store3.
Proof.
  unfold wf_notifications. vm_compute.
  repeat (constructor; [simpl; intuition lia|]). constructor.
Qed.

Lemma notifications_markAllAsRead_witness :
  exists st',
    Notifications.markAllAsRead Sample.store3 2
    = Ok (st', Notifications.getUnreadCount Sample.store3 2)
    /\ Notifications.getUnreadCount st' 2 = 0.
Proof.
  destruct (notifications_markAllAsRead Sample.store3 2
              store3_wf_notifications) as (st' & H1 & H2 & _).
  exists st'. split; [exact H1 | exact H2].
Defined.

Lemma notifications_clearAll_witness :
  exists st',
    Notifications.clearAll Sample.store3 2
    = Ok (st', List.length (Notifications.getByAgent Sample.store3 2))
    /\ Notifications.getByAgent st' 2 = [].
Proof.
  destruct (notifications_clearAll Sample.store3 2 store3_wf_notifications)
    as (st' & H1 & _ & H2 & _).
  exists st'. split; [exact H1 | exact H2].
Defined.

Lemma notifications_cleanup_witness :
  exists st' r,
    Notifications.cleanup Sample.store3 3601002 (Some 1%Z) = Ok (st', r)
    /\ (Z.of_nat (Notifications.deleted r) + Notifications.remaining r
        = Z.of_nat (List.length (notifications Sample.store3)))%Z.
Proof.
  destruct (notifications_cleanup Sample.store3 3601002 (Some 1%Z)
              store3_wf_notifications) as (st' & r & H1 & _ & _ & H2 & _).
  exists st', r. split; [exact H1 | exact H2].
Defined.

Lemma notifications_clearRead_witness :
  exists st' deleted,
    Notifications.clearRead Sample.store3 1000 2 None = Ok (st', deleted)
    /\ Notifications.getUnread st' 2
       = Notifications.getUnread Sample.store3 2.
Proof.
  destruct (notifications_clearRead Sample.store3 1000 2 None
              store3_wf_notifications) as (st' & d & H1 & _ & _ & H2).
  exists st', d. split; [exact H1 | exact (H2 2)].
Defined.

(** ** Reading the comments of a ticket *)

Lemma id_opt_eqb_iff (o : option Id) (i : Id) :
  id_opt_eqb o i = true <-> o = Some i.
Proof.
  destruct o as [x|]; cbn; [| split; discriminate].
  rewrite Nat.eqb_eq. split; congruence.
Qed.

Lemma opt_eqb_iff (o : option string) (s : string) :
  opt_eqb o s = true <-> o = Some s.
Proof.
  destruct o as [x|]; cbn; [| split; discriminate].
  rewrite String.eqb_eq. split; congruence.
Qed.

Lemma is_comment_iff (m : Msg.t) : is_comment m = true <-> Msg.type m = TComment.
Proof. unfold is_comment. destruct (Msg.type m); split; congruence. Qed.

Lemma find_none_all {A} (p : A -> bool) (l : list A) :
  (forall x, In x l -> p x = false) -> find p l = None.
Proof.
  induction l as [|x r IH]; intros H; [reflexivity|].
  cbn [find]. rewrite (H x) by now left.
  apply IH. intros y Hy. apply H. now right.
Qed.

Lemma find_app_none {A} (p : A -> bool) (l1 l2 : list A) :
  (forall x, In x l1 -> p x = false) -> find p (l1 ++ l2) = find p l2.
Proof.
  induction l1 as [|x r IH]; intros H; [reflexivity|].
  cbn [app find]. rewrite (H x) by now left.
  apply IH. intros y Hy. apply H. now right.
Qed.

(** The map built from the agents answers with the last agent of the
    table under a key. *)
Lemma agentMap_get_last (pre post : list Agent.t) (a : Agent.t)
    (lower : string) :
  toLowerCase (Agent.name a) = lower ->
  (forall b, In b post -> toLowerCase (Agent.name b) <> lower) ->
  agentMap_get (pre ++ a :: post) lower = Some a.
Proof.
  intros Ha Hpost. unfold agentMap_get, find_agent.
  rewrite rev_app_distr. cbn [rev]. rewrite <- app_assoc. cbn [app].
  rewrite find_app_none.
  - cbn [find]. rewrite Ha. now rewrite String.eqb_refl.
  - intros b Hb. apply in_rev in Hb. apply String.eqb_neq. now apply Hpost.
Qed.

Lemma agentMap_get_none (ags : list Agent.t) (lower : string) :
  (forall a, In a ags -> toLowerCase (Agent.name a) <> lower) ->
  agentMap_get ags lower = None.
Proof.
  intros H. unfold agentMap_get, find_agent. apply find_none_all.
  intros a Ha. apply in_rev in Ha. apply String.eqb_neq. now apply H.
Qed.

(** X23. [getTaskComments] returns exactly the stored comments of the
    ticket, oldest first. The names are attached at the time of the query:
    when no agent of the table has the stored sender as its lower-cased
    name, the entry carries the stored sender and the default avatar;
    otherwise it carries the display name of the last such agent of the
    table, and that agent's avatar, or the default avatar when the
    agent's is empty. *)
Theorem getTaskComments_spec (st : Store) (taskId : Id) :
  (forall m,
      In m (map Enriched.doc (getTaskComments st taskId)) <->
      In m (unifiedMessages st)
      /\ Msg.taskId m = Some taskId /\ Msg.type m = TComment)
  /\ StronglySorted
       (fun x y => (Msg.createdAt (Enriched.doc x)
                    <= Msg.createdAt (Enriched.doc y))%Z)
       (getTaskComments st taskId)
  /\ (forall e,
        In e (getTaskComments st taskId) ->
        ((forall a, In a (agents st) ->
                    toLowerCase (Agent.name a)
                    <> Msg.fromAgent (Enriched.doc e)) ->
         Enriched.fromAgentName e = Msg.fromAgent (Enriched.doc e)
         /\ Enriched.fromAgentAvatar e = default_avatar)
        /\ (forall pre a post,
              agents st = (pre ++ a :: post)%list ->
              toLowerCase (Agent.name a) = Msg.fromAgent (Enriched.doc e) ->
              (forall b, In b post ->
                         toLowerCase (Agent.name b)
                         <> Msg.fromAgent (Enriched.doc e)) ->
              Enriched.fromAgentName e = Agent.name a
              /\ (Agent.avatar a <> "" ->
                  Enriched.fromAgentAvatar e = Agent.avatar a)
              /\ (Agent.avatar a = "" ->
                  Enriched.fromAgentAvatar e = default_avatar))).
Proof.
  unfold getTaskComments. cbv zeta. split; [| split].
  - intros m. rewrite enrich_doc, js_sort_In, !filter_In.
    rewrite id_opt_eqb_iff, is_comment_iff. tauto.
  - apply StronglySorted_map. cbn [enrich Enriched.doc].
    apply (js_sort_sorted oldest_first Msg.createdAt). reflexivity.
  - intros e He. apply in_map_iff in He. destruct He as (m & <- & _).
    unfold enrich.
    cbn [Enriched.doc Enriched.fromAgentName Enriched.fromAgentAvatar].
    split.
    + intros Hnone. rewrite (agentMap_get_none _ _ Hnone).
      split; reflexivity.
    + intros pre a post Hags Ha Hpost. rewrite Hags.
      rewrite (agentMap_get_last pre post a _ Ha Hpost).
      split; [| split].
      * destruct (Agent.name a) eqn:Hn; [| reflexivity].
        cbn [or_else]. rewrite <- Ha. reflexivity.
      * intros Hav. destruct (Agent.avatar a); [congruence | reflexivity].
      * intros ->. reflexivity.
Qed.

Lemma getTaskComments_spec_witness :
  map Enriched.fromAgentName (getTaskComments Sample.store1 10) = ["Sam"].
Proof.
  destruct (getTaskComments_spec Sample.store1 10) as (_ & _ & H).
  assert (Hin : In (enrich (agents Sample.store1)
                      (Msg.mk 100 "sam" None (Some 10) (Some "AGT-9")
                         "@max @leo please review" TComment
                         (Some ["max"; "leo"]) None None 1000))
                   (getTaskComments Sample.store1 10))
    by (vm_compute; left; reflexivity).
  destruct (H _ Hin) as [_ Hlast].
  destruct (Hlast [Sample.max] Sample.sam [Sample.leo; Sample.son])
    as (Hname & _).
  - vm_compute. reflexivity.
  - vm_compute. reflexivity.
  - intros b Hb. vm_compute in Hb.
    destruct Hb as [<- | [<- | []]]; vm_compute; discriminate.
  - vm_compute. reflexivity.
Defined.

(** X24. On a store whose comments each carry the id and the human
    identifier of a ticket of the table, with distinct ticket ids and
    distinct human identifiers, reading the comments by the human
    identifier of a ticket and reading them by its id give the same
    list. *)
Theorem getCommentsByLinearId_agrees (st : Store) (task : Task.t)
    (l : string) :
  comments_linked st ->
  In task (tasks st) -> Task.linearIdentifier task = Some l ->
  getCommentsByLinearId st l = getTaskComments st (Task._id task).
Proof.
  intros (Hids & Huniq & Hlink) Hin Hl.
  unfold getCommentsByLinearId, getTaskComments. cbv zeta.
  f_equal. f_equal. rewrite !filter_twice. apply filter_ext_in.
  intros m Hm. destruct (is_comment m) eqn:Hc; [| now rewrite !andb_false_r].
  rewrite !andb_true_r.
  destruct (Hlink m Hm Hc) as (t' & Ht' & Htid & Hlid).
  rewrite Htid, Hlid. cbn [id_opt_eqb].
  destruct (Nat.eqb_spec (Task._id t') (Task._id task)) as [E|E].
  - assert (t' = task) by (eapply (id_inj Task._id); eassumption).
    subst t'. rewrite Hl. cbn. apply String.eqb_refl.
  - destruct (opt_eqb (Task.linearIdentifier t') l) eqn:Ho; [| reflexivity].
    apply opt_eqb_iff in Ho.
    assert (t' = task) by (eapply Huniq; eassumption). congruence.
Qed.

Lemma store3_linked : comments_linked Sample.store3.
Proof.
  unfold comments_linked. split; [| split].
  - vm_compute. repeat constructor. intros [].
  - intros t1 t2 l H1 H2 _ _. vm_compute in H1, H2.
    destruct H1 as [<-|[]], H2 as [<-|[]]. reflexivity.
  - assert (Ht : In Sample.agt9 (tasks Sample.store3))
      by (vm_compute; left; reflexivity).
    intros m Hm Hc. vm_compute in Hm.
    repeat (destruct Hm as [<- | Hm];
            [first [ discriminate Hc
                   | exists Sample.agt9; split;
                     [exact Ht | split; reflexivity] ]|]).
    contradiction.
Qed.

Lemma getCommentsByLinearId_agrees_witness :
  getCommentsByLinearId Sample.store3 "AGT-9" = getTaskComments Sample.store3 10.
Proof.
  exact (getCommentsByLinearId_agrees Sample.store3 Sample.agt9 "AGT-9"
           store3_linked (or_introl eq_refl) eq_refl).
Defined.

(** ** Invariants of the store *)

Lemma patch_read_In (id : Id) (ms : list Msg.t) :
  forall ms',
    patch_read id ms = Some ms' ->
    forall m', In m' ms' ->
               exists m, In m ms /\ (m' = m \/ m' = Msg.set_read m).
Proof.
  induction ms as [|x r IH]; intros ms' H m' Hin; [discriminate|].
  cbn [patch_read] in H. destruct (Msg._id x =? id)%nat.
  - inversion H; subst. destruct Hin as [<- | Hin].
    + exists x. split; [now left | now right].
    + exists m'. split; [now right | now left].
  - destruct (patch_read id r) as [r'|]; [| discriminate].
    inversion H; subst. destruct Hin as [<- | Hin].
    + exists x. split; [now left | now left].
    + destruct (IH r' eq_refl m' Hin) as (m & Hm & Hor).
      exists m. split; [now right | exact Hor].
Qed.

Lemma db_patch_read_In (st st' : Store) (id : Id) :
  db_patch_read st id = Ok st' ->
  tasks st' = tasks st
  /\ forall m', In m' (unifiedMessages st') ->
       exists m, In m (unifiedMessages st)
                 /\ (m' = m \/ m' = Msg.set_read m).
Proof.
  unfold db_patch_read.
  destruct (patch_read id (unifiedMessages st)) as [ms|] eqn:Hp;
    [| discriminate].
  intros H. inversion H; subst. split; [reflexivity|].
  cbn [unifiedMessages]. now apply (patch_read_In id (unifiedMessages st)).
Qed.

Lemma patch_each_In (toMark : list Msg.t) :
  forall st st',
    patch_each toMark st = Ok st' ->
    tasks st' = tasks st
    /\ forall m', In m' (unifiedMessages st') ->
         exists m, In m (unifiedMessages st)
                   /\ (m' = m \/ m' = Msg.set_read m).
Proof.
  induction toMark as [|x r IH]; intros st st' H.
  - inversion H; subst. split; [reflexivity|].
    intros m' Hm. exists m'. split; [exact Hm | now left].
  - cbn [patch_each] in H.
    destruct (db_patch_read st (Msg._id x)) as [st1|] eqn:H1;
      [| discriminate].
    cbn [bind] in H. apply db_patch_read_In in H1. destruct H1 as [Ht1 Hm1].
    destruct (IH st1 st' H) as [Ht Hm]. split; [congruence|].
    intros m' Hin. destruct (Hm m' Hin) as (m1 & Hin1 & Hor1).
    destruct (Hm1 m1 Hin1) as (m & Hin0 & Hor0).
    exists m. split; [exact Hin0|].
    destruct Hor1 as [-> | ->], Hor0 as [-> | ->]; auto.
Qed.

(** A store whose messages are those of a linked store, marked or not,
    and new messages that are no comment or are linked, is linked. *)
Lemma linked_derived (st st' : Store) :
  comments_linked st ->
  tasks st' = tasks st ->
  (forall m', In m' (unifiedMessages st') ->
      (exists m, In m (unifiedMessages st)
                 /\ (m' = m \/ m' = Msg.set_read m))
      \/ is_comment m' = false
      \/ exists task,
           In task (tasks st)
           /\ Msg.taskId m' = Some (Task._id task)
           /\ Msg.linearIdentifier m' = Task.linearIdentifier task) ->
  comments_linked st'.
Proof.
  intros (Hids & Huniq & Hlink) Ht Hm. unfold comments_linked.
  rewrite Ht. split; [exact Hids|]. split; [exact Huniq|].
  intros m' Hin Hc. destruct (Hm m' Hin) as [(m & Hm0 & Hor) | [Hn | H]].
  - destruct Hor as [-> | ->]; [now apply Hlink|].
    destruct (Hlink m Hm0 Hc) as (task & H1 & H2 & H3).
    exists task. repeat split; assumption.
  - congruence.
  - exact H.
Qed.

Lemma sendDM_tasks (st st' : Store) (now : Z) (from to content : string)
    (relatedTaskId : option Id) (priority_arg : option Priority)
    (r : DmRet.t) :
  sendDM st now from to content relatedTaskId priority_arg = Ok (st', r) ->
  tasks st' = tasks st.
Proof.
  unfold sendDM. cbv zeta. unfold insert_message. cbn [agents].
  destruct (find_agent (agents st) (toLowerCase from)) as [f|];
    [destruct (find_agent (agents st) (toLowerCase to)) as [t|]|];
    intros H; inversion H; reflexivity.
Qed.

Lemma step_linked (st st' : Store) :
  comments_linked st -> step st st' -> comments_linked st'.
Proof.
  intros Hl Hstep. destruct Hstep as
      [st now taskId agentName content st' r H
      |st now from to content rt p st' r H
      |st messageId st' r H
      |st agentName st' marked H
      |st now from to content rt p st' r H].
  - apply postComment_inv in H.
    destruct H as (task & new & Ht & _ & _ & Hts & _ & Hm & _).
    apply (linked_derived st st' Hl Hts). intros m' Hin.
    rewrite Hm in Hin. apply in_app_or in Hin.
    destruct Hin as [Hin | [<- | []]].
    + left. exists m'. split; [exact Hin | now left].
    + right. right. exists task. unfold get_task in Ht.
      apply find_some in Ht. destruct Ht as [Hin Heq].
      apply Nat.eqb_eq in Heq. cbn [comment_doc Msg.taskId Msg.linearIdentifier].
      repeat split; [exact Hin | congruence].
  - pose proof (sendDM_tasks _ _ _ _ _ _ _ _ _ H) as Hts.
    destruct (sendDM_effect st now from to content rt p)
      as (st1 & Hs & _ & Hm & _).
    rewrite Hs in H. inversion H; subst st1.
    apply (linked_derived st st' Hl Hts). intros m' Hin.
    rewrite Hm in Hin. apply in_app_or in Hin.
    destruct Hin as [Hin | [<- | []]].
    + left. exists m'. split; [exact Hin | now left].
    + right. left. reflexivity.
  - unfold markRead in H.
    destruct (db_patch_read st messageId) as [st1|] eqn:H1; [| discriminate].
    cbn [bind] in H. inversion H; subst.
    apply db_patch_read_In in H1. destruct H1 as [Hts Hm].
    apply (linked_derived st st' Hl Hts). intros m' Hin. left. now apply Hm.
  - unfold markAllRead in H. cbv zeta in H.
    destruct (patch_each _ st) as [st1|] eqn:H1; [| discriminate].
    cbn [bind] in H. inversion H; subst.
    apply patch_each_In in H1. destruct H1 as [Hts Hm].
    apply (linked_derived st st' Hl Hts). intros m' Hin. left. now apply Hm.
  - apply sendDirectMessage_ok in H.
    destruct H as (f & t & _ & _ & _ & _ & Hts & Hm & _).
    apply (linked_derived st st' Hl Hts). intros m' Hin. left.
    rewrite Hm in Hin. exists m'. split; [exact Hin | now left].
Qed.

(** X25. Every run of the modelled mutations ([postComment], [sendDM],
    [markRead], [markAllRead], [sendDirectMessage]) from a store with
    distinct message ids below the id counter, distinct agent ids and
    linked comments ends in such a store. *)
Theorem reachable_invariants (st st' : Store) :
  wf_store st -> comments_linked st -> reachable st st' ->
  wf_store st' /\ comments_linked st'.
Proof.
  intros Hwf Hl Hr. induction Hr as [|st1 st2 _ IH Hstep].
  - now split.
  - destruct IH as [Hwf1 Hl1]. split.
    + eapply step_wf; eassumption.
    + eapply step_linked; eassumption.
Qed.

Lemma store0_linked : comments_linked Sample.store0.
Proof.
  unfold comments_linked. split; [| split].
  - vm_compute. repeat constructor. intros [].
  - intros t1 t2 l H1 H2 _ _. vm_compute in H1, H2.
    destruct H1 as [<-|[]], H2 as [<-|[]]. reflexivity.
  - intros m [].
Qed.

Lemma reachable_invariants_witness :
  wf_store Sample.store1 /\ comments_linked Sample.store1.
Proof.
  apply (reachable_invariants Sample.store0 Sample.store1).
  - apply fresh_store_wf; [reflexivity|].
    vm_compute. repeat (constructor; [simpl; intuition lia|]). constructor.
  - exact store0_linked.
  - apply (reach_step _ Sample.store0); [apply reach_refl|].
    apply (step_postComment Sample.store0 1000 10 "Sam"
             "@max @leo please review" Sample.store1
             (CommentRet.mk 100 10 ["max"; "leo"] (Some "AGT-9"))).
    vm_compute. reflexivity.
Defined.

(** ** agentMessaging.ts: read state and conversations *)

Lemma with_agentMessages_same (st : Store) :
  with_agentMessages st (agentMessages st) = st.
Proof. now destruct st. Qed.

Lemma legacy_patch_each_list (D : list Legacy.t) :
  forall st l',
    patch_list Legacy._id AgentMessaging.set_status_read
      (map Legacy._id D) (agentMessages st) = Some l' ->
    AgentMessaging.patch_each D st = Ok (with_agentMessages st l').
Proof.
  induction D as [|d r IH]; intros st l' H.
  - cbn in H. inversion H; subst. cbn.
    now rewrite with_agentMessages_same.
  - cbn [map patch_list] in H. cbn [AgentMessaging.patch_each].
    unfold AgentMessaging.db_patch_status.
    destruct (patch_first Legacy._id AgentMessaging.set_status_read
                (Legacy._id d) (agentMessages st)) as [l1|];
      [| discriminate].
    cbn [bind].
    change (mkStore (agents st) (tasks st) (unifiedMessages st) l1
              (notifications st) (activityEvents st) (nextId st))
      with (with_agentMessages st l1).
    rewrite (IH _ l'); [reflexivity | exact H].
Qed.

(** X26. The legacy [markAllAsRead] fails with its [Agent not found] error
    when the name resolves to no agent (the unified [markAllRead] never
    fails on a name). For a known agent, on a legacy table of distinct
    ids, it returns the number of unread legacy messages addressed to the
    agent, after which the agent's unread-only [getDirectMessages] is
    empty; it deletes nothing and touches neither the unified messages nor
    the notifications. *)
Theorem legacy_markAllAsRead (st : Store) (agentName : string) :
  (find_agent (agents st) (toLowerCase agentName) = None ->
   AgentMessaging.markAllAsRead st agentName
   = AgentMessaging.AgentNotFound agentName)
  /\ (forall agent,
        find_agent (agents st) (toLowerCase agentName) = Some agent ->
        wf_legacy st ->
        exists st',
          AgentMessaging.markAllAsRead st agentName
          = AgentMessaging.Marked st'
              (List.length (getDirectMessages st agentName true))
          /\ getDirectMessages st' agentName true = []
          /\ map Legacy._id (agentMessages st')
             = map Legacy._id (agentMessages st)
          /\ unifiedMessages st' = unifiedMessages st
          /\ notifications st' = notifications st).
Proof.
  split.
  - intros H. unfold AgentMessaging.markAllAsRead. now rewrite H.
  - intros agent Hf Hnd. unfold wf_legacy in Hnd.
    pose proof (legacy_patch_each_list _ st _
                  (patch_list_filter Legacy._id
                     AgentMessaging.set_status_read
                     (fun m => eq_refl) (fun m => eq_refl)
                     (fun m => (Legacy.to m =? Agent._id agent)%nat
                               && legacy_is_unread m) _ Hnd)) as Hp.
    eexists. split.
    { unfold AgentMessaging.markAllAsRead,
        AgentMessaging.by_to_status_unread. rewrite Hf. cbv zeta.
      rewrite Hp. unfold getDirectMessages. rewrite Hf.
      now rewrite length_map, length_rev. }
    unfold getDirectMessages.
    cbn [with_agentMessages agents agentMessages unifiedMessages
         notifications].
    rewrite Hf. split; [| split; [| split]]; try reflexivity.
    + rewrite filter_none; [reflexivity|].
      intros x Hx. apply in_map_iff in Hx. destruct Hx as (m & <- & _).
      destruct ((Legacy.to m =? Agent._id agent)%nat && legacy_is_unread m)
        eqn:Hp'; [| exact Hp'].
      cbn. apply andb_false_r.
    + rewrite map_map. apply map_ext. intros m.
      now destruct ((Legacy.to m =? Agent._id agent)%nat
                    && legacy_is_unread m).
Qed.

Lemma legacy_markAllAsRead_witness :
  AgentMessaging.markAllAsRead Sample.store0 "ghost"
  = AgentMessaging.AgentNotFound "ghost".
Proof.
  exact (proj1 (legacy_markAllAsRead Sample.store0 "ghost") eq_refl).
Defined.

Lemma legacy_between_sym (a1 a2 : Id) (m : Legacy.t) :
  AgentMessaging.between a1 a2 m = AgentMessaging.between a2 a1 m.
Proof. unfold AgentMessaging.between. apply orb_comm. Qed.

(** X27. The legacy [getConversation] is empty as soon as one of the two
    names resolves to no agent; it does not depend on the order of the two
    names; without a limit it holds exactly the legacy messages exchanged
    between the two agents, oldest first. *)
Theorem legacy_getConversation (st : Store) (agent1 agent2 : string)
    (limit : option Z) :
  (find_agent (agents st) (toLowerCase agent1) = None
   \/ find_agent (agents st) (toLowerCase agent2) = None ->
   AgentMessaging.getConversation st agent1 agent2 limit = [])
  /\ AgentMessaging.getConversation st agent1 agent2 limit
     = AgentMessaging.getConversation st agent2 agent1 limit
  /\ (forall a1 a2,
        find_agent (agents st) (toLowerCase agent1) = Some a1 ->
        find_agent (agents st) (toLowerCase agent2) = Some a2 ->
        (forall m,
            In m (map AgentMessaging.doc
                    (AgentMessaging.getConversation st agent1 agent2 None))
            <-> In m (agentMessages st)
                /\ AgentMessaging.between (Agent._id a1) (Agent._id a2) m
                   = true)
        /\ StronglySorted
             (fun x y => (Legacy.timestamp (AgentMessaging.doc x)
                          <= Legacy.timestamp (AgentMessaging.doc y))%Z)
             (AgentMessaging.getConversation st agent1 agent2 None)).
Proof.
  unfold AgentMessaging.getConversation. cbv zeta. split; [| split].
  - intros [-> | ->]; [reflexivity|].
    now destruct (find_agent (agents st) (toLowerCase agent1)).
  - destruct (find_agent (agents st) (toLowerCase agent1)) as [a1|],
      (find_agent (agents st) (toLowerCase agent2)) as [a2|];
      try reflexivity.
    now rewrite (filter_ext _ _ (legacy_between_sym (Agent._id a1)
                                   (Agent._id a2))).
  - intros a1 a2 -> ->. split.
    + intros m. rewrite map_map. cbn [AgentMessaging.entry AgentMessaging.doc].
      rewrite map_id, js_sort_In. apply filter_In.
    + apply StronglySorted_map. cbn [AgentMessaging.entry AgentMessaging.doc].
      apply (js_sort_sorted _ Legacy.timestamp). reflexivity.
Qed.

Lemma legacy_getConversation_witness :
  AgentMessaging.getConversation Sample.store3 "Max" "ghost" None = [].
Proof.
  apply (proj1 (legacy_getConversation Sample.store3 "Max" "ghost" None)).
  right. vm_compute. reflexivity.
Defined.

(** X28. When the legacy [sendDirectMessage] succeeds, each of the two
    paths, run with the same arguments on that store, writes one
    notification, and the two notifications agree on recipient, sender,
    kind, title, body, read flag, related ticket and time; both calls
    return the same priority, the unified one returning the lower-cased
    forms of the names that the legacy one returns as given. *)
Theorem dm_notification_same_on_both_paths (st st1 : Store) (now : Z)
    (from to content : string) (relatedTaskId : option Id)
    (priority_arg : option Priority) (r1 : DmRet.t) :
  sendDirectMessage st now from to content relatedTaskId priority_arg
  = Ok (st1, r1) ->
  exists st2 r2 n1 n2,
    sendDM st now from to content relatedTaskId priority_arg = Ok (st2, r2)
    /\ notifications st1 = (notifications st ++ [n1])%list
    /\ notifications st2 = (notifications st ++ [n2])%list
    /\ Notif.to n2 = Notif.to n1
    /\ Notif.from n2 = Notif.from n1
    /\ Notif.type n2 = Notif.type n1
    /\ Notif.title n2 = Notif.title n1
    /\ Notif.message n2 = Notif.message n1
    /\ Notif.read n2 = Notif.read n1
    /\ Notif.relatedTask n2 = Notif.relatedTask n1
    /\ Notif.createdAt n2 = Notif.createdAt n1
    /\ DmRet.priority r2 = DmRet.priority r1
    /\ DmRet.from r2 = toLowerCase (DmRet.from r1)
    /\ DmRet.to r2 = toLowerCase (DmRet.to r1).
Proof.
  intros H.
  destruct (sendDM_effect st now from to content relatedTaskId priority_arg)
    as (st2 & Hs & _ & _ & Hn & _ & _).
  exists st2. eexists.
  unfold sendDirectMessage in H. cbv zeta in H.
  unfold dm_notifications in Hn.
  destruct (find_agent (agents st) (toLowerCase from)) as [f|];
    [| discriminate].
  destruct (find_agent (agents st) (toLowerCase to)) as [t|];
    [| discriminate].
  unfold insert_legacy, insert_notification, insert_event in H.
  cbn [agents tasks unifiedMessages agentMessages notifications
       activityEvents nextId] in H.
  inversion H; subst. eexists. eexists.
  split; [exact Hs|]. split; [reflexivity|]. split; [exact Hn|].
  cbn [DmRet.priority DmRet.from DmRet.to Notif.to Notif.from Notif.type
       Notif.title Notif.message Notif.read Notif.relatedTask
       Notif.createdAt].
  repeat split.
Qed.

Lemma dm_notification_same_on_both_paths_witness :
  exists st2 r2 n1 n2,
    sendDM Sample.store0 1000 "Max" "Sam" "hello" None None = Ok (st2, r2)
    /\ notifications
         (Sample.after
            (sendDirectMessage Sample.store0 1000 "Max" "Sam" "hello"
               None None))
       = [n1]
    /\ notifications st2 = [n2]
    /\ Notif.title n2 = Notif.title n1
    /\ Notif.message n2 = Notif.message n1.
Proof.
  destruct (dm_notification_same_on_both_paths Sample.store0
              (Sample.after
                 (sendDirectMessage Sample.store0 1000 "Max" "Sam" "hello"
                    None None))
              1000 "Max" "Sam" "hello" None None
              (DmRet.mk 100 "Max" "Sam" Normal))
    as (st2 & r2 & n1 & n2 & H1 & H2 & H3 & _ & _ & _ & H4 & H5 & _).
  - vm_compute. reflexivity.
  - exists st2, r2, n1, n2. repeat split; assumption.
Defined.

(** ** The activity feed *)

(** X29. [listRecent] returns at most [limit] entries, 20 when no limit is
    given: the most recently inserted messages of any kind, newest first.
    Right after a [sendDM] the new DM heads the feed and the rest of the
    feed is the feed of before, one entry shorter. *)
Theorem listRecent_window (st : Store) (now : Z)
    (from to content : string) (relatedTaskId : option Id)
    (priority_arg : option Priority) (limit : option nat) :
  listRecent st None = listRecent st (Some 20)
  /\ List.length (listRecent st limit)
     = Nat.min (match limit with Some n => n | None => 20 end)
         (List.length (unifiedMessages st))
  /\ map Enriched.doc (listRecent st limit)
     = firstn (match limit with Some n => n | None => 20 end)
         (rev (unifiedMessages st))
  /\ exists st' r,
       sendDM st now from to content relatedTaskId priority_arg = Ok (st', r)
       /\ forall k,
            listRecent st' (Some (S k))
            = enrich (agents st)
                (dm_doc st now from to content relatedTaskId
                   (priority_or_normal priority_arg))
              :: listRecent st (Some k).
Proof.
  split; [reflexivity|]. unfold listRecent. cbv zeta.
  split; [now rewrite length_map, length_firstn, length_rev|].
  split; [apply enrich_doc|].
  destruct (sendDM_effect st now from to content relatedTaskId priority_arg)
    as (st' & Hs & Ha & Hm & _).
  exists st'. eexists. split; [exact Hs|]. intros k.
  rewrite Ha, Hm, rev_app_distr. reflexivity.
Qed.

(** ** The dashboard *)

Lemma dashboard_has_In (key : Id) (groups : list Dashboard.Group.t) :
  Dashboard.has key groups = true
  <-> In key (map Dashboard.Group.agentId groups).
Proof.
  unfold Dashboard.has. rewrite existsb_exists, in_map_iff. split.
  - intros (g & Hg & He). apply Nat.eqb_eq in He. now exists g.
  - intros (g & He & Hg). exists g. split; [exact Hg|].
    now apply Nat.eqb_eq.
Qed.

Lemma dashboard_update_ids (st : Store) (n : Notif.t)
    (groups : list Dashboard.Group.t) :
  map Dashboard.Group.agentId
    (map (fun g => if (Dashboard.Group.agentId g =? Notif.to n)%nat
                   then Dashboard.push st n g else g) groups)
  = map Dashboard.Group.agentId groups.
Proof.
  rewrite map_map. apply map_ext. intros g.
  now destruct (Dashboard.Group.agentId g =? Notif.to n)%nat.
Qed.

(** One turn of the loop keeps what has been built. *)
Lemma dashboard_add_built (st : Store) (seen : list Notif.t)
    (groups : list Dashboard.Group.t) (n : Notif.t) :
  Dashboard.built st seen groups ->
  Dashboard.built st (seen ++ [n]) (Dashboard.add st groups n).
Proof.
  intros (Hnd & Hhas & Hg).
  set (groups1 := if Dashboard.has (Notif.to n) groups then groups
                  else (groups ++ [Dashboard.new_group (agents st)
                                     (Notif.to n)])%list).
  assert (Hb1 : NoDup (map Dashboard.Group.agentId groups1)
                /\ Dashboard.has (Notif.to n) groups1 = true
                /\ (forall k, Dashboard.has k groups = true ->
                              Dashboard.has k groups1 = true)
                /\ forall g, In g groups1 ->
                     (Dashboard.Group.agentId g = Notif.to n
                      \/ In (Dashboard.Group.agentId g) (map Notif.to seen))
                     /\ Dashboard.Group.unreadCount g
                        = List.length
                            (filter (fun x => (Notif.to x
                                               =? Dashboard.Group.agentId g)%nat
                                              && negb (Notif.read x)) seen)
                     /\ Dashboard.Group.notifications g
                        = map (Dashboard.item st)
                            (filter (fun x => (Notif.to x
                                               =? Dashboard.Group.agentId g)%nat)
                               seen)).
  { subst groups1. destruct (Dashboard.has (Notif.to n) groups) eqn:Hk.
    - split; [exact Hnd|]. split; [exact Hk|]. split; [tauto|].
      intros g Hin. destruct (Hg g Hin) as (H1 & H2 & H3).
      repeat split; auto.
    - assert (Hfresh : ~ In (Notif.to n)
                         (map Dashboard.Group.agentId groups)).
      { intros Hin. apply dashboard_has_In in Hin. congruence. }
      assert (Hnone : forall x, In x seen ->
                        (Notif.to x =? Notif.to n)%nat = false).
      { intros x Hx. apply Nat.eqb_neq. intros E. specialize (Hhas x Hx).
        rewrite E in Hhas. congruence. }
      split; [| split; [| split]].
      + rewrite map_app. apply NoDup_app; [exact Hnd | | ].
        * cbn. repeat constructor. intros [].
        * intros i Hi [<- | []]. now apply Hfresh.
      + apply dashboard_has_In. rewrite map_app. apply in_or_app.
        right. now left.
      + intros k Hkk. apply dashboard_has_In. rewrite map_app.
        apply in_or_app. left. now apply dashboard_has_In.
      + intros g Hin. apply in_app_or in Hin.
        destruct Hin as [Hin | [<- | []]].
        * destruct (Hg g Hin) as (H1 & H2 & H3). repeat split; auto.
        * cbn [Dashboard.new_group Dashboard.Group.agentId
               Dashboard.Group.unreadCount Dashboard.Group.notifications].
          split; [now left|].
          rewrite !filter_none; [split; reflexivity | |].
          -- intros x Hx. now apply Hnone.
          -- intros x Hx. rewrite (Hnone x Hx). reflexivity. }
  destruct Hb1 as (Hnd1 & Hkey & Hmono & Hg1).
  unfold Dashboard.add. cbv zeta. fold groups1.
  unfold Dashboard.built. rewrite dashboard_update_ids.
  split; [exact Hnd1|]. split.
  - intros x Hx. apply dashboard_has_In. rewrite dashboard_update_ids.
    apply dashboard_has_In. apply in_app_or in Hx.
    destruct Hx as [Hx | [<- | []]]; [| exact Hkey].
    apply Hmono. now apply Hhas.
  - intros g' Hin. apply in_map_iff in Hin. destruct Hin as (g & <- & Hin).
    destruct (Hg1 g Hin) as (Hor & Hcount & Hlist).
    rewrite map_app, !filter_app, length_app, map_app.
    destruct (Nat.eqb_spec (Dashboard.Group.agentId g) (Notif.to n))
      as [E|E].
    + cbn [Dashboard.push Dashboard.Group.agentId
           Dashboard.Group.unreadCount Dashboard.Group.notifications].
      cbn [filter map]. rewrite E, Nat.eqb_refl. cbn [andb].
      split; [apply in_or_app; right; now left|].
      rewrite <- E, <- Hcount, <- Hlist. split; [| reflexivity].
      destruct (Notif.read n); cbn [negb List.length]; lia.
    + cbn [filter map].
      assert (E' : (Notif.to n =? Dashboard.Group.agentId g)%nat = false)
        by (apply Nat.eqb_neq; congruence).
      rewrite E'. cbn [andb List.length map].
      rewrite app_nil_r, Nat.add_0_r.
      split; [| split; assumption].
      apply in_or_app. left. destruct Hor as [Hor|Hor]; [congruence | exact Hor].
Qed.

Lemma dashboard_fold_built (st : Store) (rest : list Notif.t) :
  forall seen groups,
    Dashboard.built st seen groups ->
    Dashboard.built st (seen ++ rest)
      (fold_left (Dashboard.add st) rest groups).
Proof.
  induction rest as [|n r IH]; intros seen groups Hb.
  - now rewrite app_nil_r.
  - cbn [fold_left].
    replace (seen ++ n :: r)%list with ((seen ++ [n]) ++ r)%list
      by (now rewrite <- app_assoc).
    apply IH. now apply dashboard_add_built.
Qed.

Lemma dashboard_built (st : Store) :
  Dashboard.built st (notifications st) (Dashboard.byAgentId st).
Proof.
  unfold Dashboard.byAgentId.
  apply (dashboard_fold_built st (notifications st) [] []).
  repeat split; try constructor; contradiction.
Qed.

Lemma list_sum_cons (x : nat) (l : list nat) :
  list_sum (x :: l) = x + list_sum l.
Proof. reflexivity. Qed.

Lemma fold_left_sum {A} (f : A -> nat) (l : list A) :
  forall a, fold_left (fun s g => s + f g) l a = a + list_sum (map f l).
Proof.
  induction l as [|x r IH]; intros a; cbn [fold_left map].
  - cbn. lia.
  - rewrite IH, list_sum_cons. lia.
Qed.

Lemma list_sum_map_add {A} (f g : A -> nat) (l : list A) :
  list_sum (map (fun x => f x + g x) l)
  = list_sum (map f l) + list_sum (map g l).
Proof.
  induction l as [|x r IH]; cbn [map]; [reflexivity|].
  rewrite !list_sum_cons, IH. lia.
Qed.

Lemma indicator_sum (ids : list Id) (x : Id) (b : bool) :
  NoDup ids ->
  list_sum (map (fun i => if (x =? i)%nat && b then 1 else 0) ids)
  = if b && existsb (Nat.eqb x) ids then 1 else 0.
Proof.
  induction ids as [|i r IH]; intros Hnd; cbn [map existsb].
  - now rewrite andb_false_r.
  - inversion Hnd as [|? ? Hnot Hnd']; subst.
    rewrite list_sum_cons, (IH Hnd').
    destruct (Nat.eqb_spec x i) as [E|E]; cbn [andb orb].
    + subst i. destruct b; cbn [andb]; [| reflexivity].
      destruct (existsb (Nat.eqb x) r) eqn:He; [| reflexivity].
      exfalso. apply Hnot. apply existsb_exists in He.
      destruct He as (j & Hj & Heq). apply Nat.eqb_eq in Heq. now subst.
    + reflexivity.
Qed.

(** Counting per recipient and adding up is counting. *)
Lemma count_by_recipient (P : Notif.t -> bool) (ids : list Id)
    (seen : list Notif.t) :
  NoDup ids ->
  (forall n, In n seen -> In (Notif.to n) ids) ->
  list_sum
    (map (fun i => List.length
                     (filter (fun n => (Notif.to n =? i)%nat && P n) seen))
       ids)
  = List.length (filter P seen).
Proof.
  intros Hnd. induction seen as [|n r IH]; intros Hin.
  - cbn [filter List.length]. clear Hnd Hin.
    induction ids as [|i l IHl]; [reflexivity|].
    cbn [map]. now rewrite list_sum_cons, IHl.
  - rewrite (map_ext _
               (fun i => (if (Notif.to n =? i)%nat && P n then 1 else 0)
                         + List.length
                             (filter (fun x => (Notif.to x =? i)%nat && P x)
                                r))).
    + rewrite list_sum_map_add, indicator_sum by exact Hnd.
      rewrite IH by (intros x Hx; apply Hin; now right).
      assert (He : existsb (Nat.eqb (Notif.to n)) ids = true).
      { apply existsb_exists. exists (Notif.to n).
        split; [apply Hin; now left | apply Nat.eqb_refl]. }
      rewrite He, andb_true_r. cbn [filter].
      now destruct (P n).
    + intros i. cbn [filter].
      now destruct ((Notif.to n =? i)%nat && P n).
Qed.

(** X30. The dashboard query groups the notifications by recipient, one
    group per recipient that has a notification. Its [totalUnread] is the
    number of unread notifications of the whole table; the [unreadCount]
    of a group is the recipient's [getUnreadCount], while the list of the
    group is capped: it holds the smaller of 20 and the number of the
    recipient's notifications, and at least one. *)
Theorem dashboard_counts (st : Store) :
  let r := Dashboard.listAllForDashboard st in
  Dashboard.totalUnread r
  = List.length (filter (fun n => negb (Notif.read n)) (notifications st))
  /\ NoDup (map Dashboard.Group.agentId (Dashboard.byAgent r))
  /\ (forall n, In n (notifications st) ->
        In (Notif.to n)
           (map Dashboard.Group.agentId (Dashboard.byAgent r)))
  /\ (forall g, In g (Dashboard.byAgent r) ->
        Dashboard.Group.unreadCount g
        = Notifications.getUnreadCount st (Dashboard.Group.agentId g)
        /\ List.length (Dashboard.Group.notifications g)
           = Nat.min 20
               (List.length
                  (Notifications.getByAgent st (Dashboard.Group.agentId g)))
        /\ 1 <= List.length (Dashboard.Group.notifications g)).
Proof.
  cbv zeta. unfold Dashboard.listAllForDashboard. cbv zeta.
  cbn [Dashboard.totalUnread Dashboard.byAgent].
  destruct (dashboard_built st) as (Hnd & Hhas & Hg).
  set (groups := Dashboard.byAgentId st) in *.
  assert (Hcap : forall g, In g groups ->
            Dashboard.Group.agentId (Dashboard.cap g)
            = Dashboard.Group.agentId g
            /\ Dashboard.Group.unreadCount (Dashboard.cap g)
               = Notifications.getUnreadCount st (Dashboard.Group.agentId g)
            /\ List.length (Dashboard.Group.notifications (Dashboard.cap g))
               = Nat.min 20
                   (List.length
                      (Notifications.getByAgent st
                         (Dashboard.Group.agentId g)))
            /\ 1 <= List.length
                      (Dashboard.Group.notifications (Dashboard.cap g))).
  { intros g Hin. destruct (Hg g Hin) as (Hto & Hcount & Hlist).
    assert (Hlen : List.length (Dashboard.Group.notifications (Dashboard.cap g))
                   = Nat.min 20
                       (List.length
                          (Notifications.getByAgent st
                             (Dashboard.Group.agentId g)))).
    { cbn [Dashboard.cap Dashboard.Group.notifications].
      rewrite length_firstn, js_sort_length, Hlist, length_map.
      unfold Notifications.getByAgent, Notifications.by_recipient.
      now rewrite length_rev. }
    split; [reflexivity|]. split; [exact Hcount|]. split; [exact Hlen|].
    rewrite Hlen. unfold Notifications.getByAgent,
                    Notifications.by_recipient.
    rewrite length_rev. apply in_map_iff in Hto.
    destruct Hto as (n & Hn & Hnin).
    assert (Hf : In n (filter (fun x => (Notif.to x
                                         =? Dashboard.Group.agentId g)%nat)
                         (notifications st))).
    { apply filter_In. split; [exact Hnin | now apply Nat.eqb_eq]. }
    set (F := filter (fun x => (Notif.to x
                                =? Dashboard.Group.agentId g)%nat)
                (notifications st)) in *.
    destruct F as [|y F']; [contradiction|].
    cbn [List.length]. lia. }
  assert (Hall : forall g, In g groups ->
            In (Dashboard.cap g)
               (filter (fun g => (0 <? List.length
                                         (Dashboard.Group.notifications g))%nat)
                  (map Dashboard.cap groups))).
  { intros g Hin. apply filter_In. split; [now apply in_map|].
    apply Nat.ltb_lt. destruct (Hcap g Hin) as (_ & _ & _ & H1). lia. }
  split; [| split; [| split]].
  - rewrite fold_left_sum. cbn [Nat.add].
    rewrite (map_ext_in _
               (fun g => List.length
                           (filter (fun n => (Notif.to n
                                              =? Dashboard.Group.agentId g)%nat
                                             && negb (Notif.read n))
                              (notifications st)))).
    + rewrite <- (map_map Dashboard.Group.agentId
                    (fun i => List.length
                                (filter (fun n => (Notif.to n =? i)%nat
                                                  && negb (Notif.read n))
                                   (notifications st)))).
      apply (count_by_recipient (fun n => negb (Notif.read n)));
        [exact Hnd|].
      intros n Hn. apply dashboard_has_In. now apply Hhas.
    + intros g Hin. now apply Hg.
  - eapply Permutation_NoDup.
    + apply Permutation_map. apply js_sort_perm.
    + apply (NoDup_filter_ids Dashboard.Group.agentId).
      rewrite map_map. rewrite (map_ext _ Dashboard.Group.agentId);
        [exact Hnd | reflexivity].
  - intros n Hn. specialize (Hhas n Hn). apply dashboard_has_In in Hhas.
    apply in_map_iff in Hhas. destruct Hhas as (g & Heq & Hin).
    apply in_map_iff. exists (Dashboard.cap g). split; [exact Heq|].
    apply js_sort_In. now apply Hall.
  - intros g' Hin. apply js_sort_In in Hin. apply filter_In in Hin.
    destruct Hin as [Hin _]. apply in_map_iff in Hin.
    destruct Hin as (g & <- & Hin).
    destruct (Hcap g Hin) as (H1 & H2 & H3 & H4). rewrite H1.
    repeat split; assumption.
Qed.
